(** * Speculative-to-baseline state reconciliation of the DFG JIT

    A shallow embedding of [dfg/DFGJITCompiler.cpp]: the OSR exit emitter
    ([JITCompiler::exitSpeculativeWithOSR]) and the register-to-register
    bridging emitter ([JITCompiler::jumpFromSpeculativeToNonSpeculative]
    with [GeneralizedRegister], [ShuffledRegister] and [NodeToRegisterMap]).

    The emitters are code generators: every call on the macro assembler
    appends one instruction.  They are embedded as functions that return
    the list of instructions appended, in order. *)

From Stdlib Require Import ZArith List Bool Lia Arith PeanoNat.
Import ListNotations.

Set Implicit Arguments.

(** ** Registers, operands and values *)

(** [GPRReg] and [FPRReg] are C++ enumerations; a register is its
    enumerator value. *)
Definition GPRReg := Z.
Definition FPRReg := Z.
Definition VirtualRegister := Z.
Definition NodeIndex := Z.
Definition EncodedJSValue := Z.

Definition InvalidGPRReg : GPRReg := (-1)%Z.
Definition InvalidFPRReg : FPRReg := (-1)%Z.

(** [NoNode] is [UINT_MAX]. *)
Definition NoNode : NodeIndex := 4294967295%Z.

(** [std::numeric_limits<int>::max()]. *)
Definition int_max : Z := 2147483647%Z.

Inductive DataFormat : Type :=
| DataFormatNone
| DataFormatInteger
| DataFormatDouble
| DataFormatCell
| DataFormatJS
| DataFormatJSInteger
| DataFormatJSDouble
| DataFormatJSCell.

Definition DataFormat_eqb (a b : DataFormat) : bool :=
  match a, b with
  | DataFormatNone, DataFormatNone
  | DataFormatInteger, DataFormatInteger
  | DataFormatDouble, DataFormatDouble
  | DataFormatCell, DataFormatCell
  | DataFormatJS, DataFormatJS
  | DataFormatJSInteger, DataFormatJSInteger
  | DataFormatJSDouble, DataFormatJSDouble
  | DataFormatJSCell, DataFormatJSCell => true
  | _, _ => false
  end.

(** ** The instruction stream *)

(** Memory operands the emitters form: a call-frame slot
    ([addressFor(virtualRegister)]), a cell of the OSR scratch buffer
    ([scratchBuffer + i]) and the baseline code block's execute counter. *)
Inductive Address : Type :=
| addressFor (virtualRegister : VirtualRegister)
| scratchBufferAt (index : nat)
| addressOfExecuteCounter.

(** Jumps that are created in one place and bound in another. *)
Inductive JumpRef : Type :=
| CheckJump (id : Z)   (* [m_check] of a speculation check or OSR exit *)
| NotIntJump           (* the local [JumpList notInt] *)
| DoneJump             (* the local [Jump done] *)
| IsIntegerJump        (* [isInteger] in [fillNumericToDouble] *)
| HasUnboxedDoubleJump.

(** One constructor per macro-assembler call made by the emitters. *)
Inductive Instr : Type :=
| Link (j : JumpRef)
| sub32 (src dest : GPRReg)
| orPtr (src dest : GPRReg)
| orPtr3 (op1 op2 dest : GPRReg)
| xorPtrImm (imm : Z) (dest : GPRReg)
| subPtr (src dest : GPRReg)
| storePtr (src : GPRReg) (address : Address)
| storePtrImm (imm : EncodedJSValue) (address : Address)
| store32Imm (imm : Z) (address : Address)
| loadPtr (address : Address) (dest : GPRReg)
| load32 (address : Address) (dest : GPRReg)
| move (src dest : GPRReg)
| moveImmPtr (imm : Z) (dest : GPRReg)
| moveImm32 (imm : Z) (dest : GPRReg)
| swap (reg1 reg2 : GPRReg)
| zeroExtend32ToPtr (src dest : GPRReg)
| moveDouble (src dest : FPRReg)
| moveDoubleToPtr (src : FPRReg) (dest : GPRReg)
| movePtrToDouble (src : GPRReg) (dest : FPRReg)
| boxDouble (fpr : FPRReg) (gpr : GPRReg)
| unboxDouble (gpr : GPRReg) (fpr : FPRReg)
| convertInt32ToDouble (src : GPRReg) (dest : FPRReg)
| branchConvertDoubleToInt32 (src : FPRReg) (dest : GPRReg)
                             (failureCases : JumpRef) (fpTemp : FPRReg)
| branchPtrAboveOrEqual (left right : GPRReg) (j : JumpRef)
| jumpFwd (j : JumpRef)
| jumpTo (entry : Z)
| jumpReg (target : GPRReg).

(** ** Descriptors *)

(** [ValueRecovery]: a technique with the payload that technique carries. *)
Inductive ValueRecovery : Type :=
| AlreadyInRegisterFile
| InGPR (gpr : GPRReg)
| UnboxedInt32InGPR (gpr : GPRReg)
| InFPR (fpr : FPRReg)
| DisplacedInRegisterFile (virtualRegister : VirtualRegister)
| Constant (constant : EncodedJSValue)
| DontKnow.

Record OSRExit : Type := {
  m_check : Z;
  m_nodeIndex : NodeIndex;
  m_bytecodeIndex : Z;
  m_recoveryIndex : nat;
  m_lastSetOperand : Z;
  m_arguments : list ValueRecovery;
  m_variables : list ValueRecovery
}.

Inductive SpeculationRecoveryType : Type :=
| SpeculativeAdd
| BooleanSpeculationCheck.

Record SpeculationRecovery : Type := {
  recovery_type : SpeculationRecoveryType;
  recovery_src : GPRReg;
  recovery_dest : GPRReg
}.

(** The baseline code block ([codeBlock()->alternative()]). *)
Record CodeBlock : Type := {
  alternative : Z;
  counterValueForOptimizeAfterWarmUp : Z;
  jitCodeStart : Z
}.

Record BytecodeAndMachineOffset : Type := {
  bm_bytecodeIndex : Z;
  bm_machineCodeOffset : Z
}.

(** Per-register state of a speculation check or of an entry location. *)
Record RegisterInfo : Type := {
  nodeIndex : NodeIndex;
  format : DataFormat;
  isSpilled : bool
}.

Definition unusedRegisterInfo : RegisterInfo :=
  {| nodeIndex := NoNode; format := DataFormatNone; isSpilled := false |}.

Record SpeculationCheck : Type := {
  check_m_check : Z;
  check_m_nodeIndex : NodeIndex;
  check_m_recoveryIndex : nat;
  check_m_gprInfo : list RegisterInfo;
  check_m_fprInfo : list RegisterInfo
}.

Record EntryLocation : Type := {
  entry_m_entry : Z;
  entry_m_nodeIndex : NodeIndex;
  entry_m_gprInfo : list RegisterInfo;
  entry_m_fprInfo : list RegisterInfo
}.

(** A node of the graph, as far as the fill helpers look at it. *)
Record Node : Type := {
  node_isConstant : bool;
  node_isInt32Constant : bool;
  node_isNumberConstant : bool;
  node_valueOfInt32Constant : Z;
  node_valueOfNumberConstant : Z;   (* the bits of the double *)
  node_valueOfJSConstant : EncodedJSValue;
  node_virtualRegister : VirtualRegister
}.

Definition Graph : Type := NodeIndex -> Node.

(** ** Declarations from headers

    The emitters use constants, register tables and small accessors that
    are declared in headers ([GPRInfo], [FPRInfo], [OSRExit]'s accessors,
    [needDataFormatConversion], the value encoding).  They are parameters
    of the development. *)
Record Externals : Type := {
  GPRInfo_numberOfRegisters : nat;
  FPRInfo_numberOfRegisters : nat;
  GPRInfo_toRegister : nat -> GPRReg;
  GPRInfo_toIndex : GPRReg -> nat;
  FPRInfo_toRegister : nat -> FPRReg;
  FPRInfo_toIndex : FPRReg -> nat;
  regT0 : GPRReg;
  regT1 : GPRReg;
  cachedResultRegister : GPRReg;
  tagTypeNumberRegister : GPRReg;
  tagMaskRegister : GPRReg;
  TagMask : Z;
  ValueFalse : Z;
  encodedUndefined : EncodedJSValue;
  encodeInt32 : Z -> EncodedJSValue;
  encodeAsDouble : Z -> EncodedJSValue;
  RegisterFile_CodeBlock : VirtualRegister;
  needDataFormatConversion : DataFormat -> DataFormat -> bool;
  numberOfRecoveries : OSRExit -> nat;
  valueRecovery : OSRExit -> nat -> ValueRecovery;
  isVariable : OSRExit -> nat -> bool;
  variableForIndex : OSRExit -> nat -> nat;
  operandForIndex : OSRExit -> nat -> Z;
  binarySearch : list BytecodeAndMachineOffset -> Z ->
                 option BytecodeAndMachineOffset
}.

(** ** Small helpers for loops and arrays *)

(** [for (i = 0; i < n; ++i) body] over a threaded state. *)
Definition forIndices (S : Type) (n : nat) (body : nat -> S -> S) (s : S) : S :=
  fold_left (fun acc i => body i acc) (seq 0 n) s.

(** [a[i] = v] on an array of fixed size. *)
Fixpoint setNth (A : Type) (i : nat) (v : A) (l : list A) {struct l} : list A :=
  match l, i with
  | [], _ => []
  | _ :: t, O => v :: t
  | h :: t, S i' => h :: setNth i' v t
  end.

(** An emitter state: the instructions appended so far and a running
    index ([scratchIndex], [displacementIndex]). *)
Definition Emit : Type := (list Instr * nat)%type.

Definition emit (i : Instr) (e : Emit) : Emit := (fst e ++ [i], snd e).
Definition emitNext (f : nat -> Instr) (e : Emit) : Emit :=
  (fst e ++ [f (snd e)], S (snd e)).

Section OSRExitEmitter.

Variable X : Externals.

Definition isInRegister (r : ValueRecovery) : bool :=
  match r with
  | InGPR _ | UnboxedInt32InGPR _ | InFPR _ => true
  | _ => false
  end.

Definition isUndefined (v : EncodedJSValue) : bool := Z.eqb v (encodedUndefined X).

(** *** 2) Speculation recovery *)

Definition osrRecovery (recovery : option SpeculationRecovery)
  : list Instr * GPRReg :=
  match recovery with
  | None => ([], InvalidGPRReg)
  | Some r =>
      match recovery_type r with
      | SpeculativeAdd =>
          ([sub32 (recovery_src r) (recovery_dest r);
            orPtr (tagTypeNumberRegister X) (recovery_dest r)],
           recovery_dest r)
      | BooleanSpeculationCheck =>
          ([xorPtrImm (ValueFalse X) (recovery_dest r)], InvalidGPRReg)
      end
  end.

(** *** 3) Counting poisoned and displaced virtual registers *)

Record Classification : Type := {
  poisonedVirtualRegisters : list bool;
  numberOfPoisonedVirtualRegisters : nat;
  numberOfDisplacedVirtualRegisters : nat;
  haveUnboxedInt32s : bool;
  haveFPRs : bool;
  haveConstants : bool;
  haveUndefined : bool
}.

Definition initialClassification (exit : OSRExit) : Classification :=
  {| poisonedVirtualRegisters := repeat false (length (m_variables exit));
     numberOfPoisonedVirtualRegisters := 0;
     numberOfDisplacedVirtualRegisters := 0;
     haveUnboxedInt32s := false;
     haveFPRs := false;
     haveConstants := false;
     haveUndefined := false |}.

(** The body of the classification loop.  The source asserts that a
    displaced recovery names a non-negative virtual register and then
    indexes [m_variables] and the poison table with it. *)
Definition classifyStep (exit : OSRExit) (index : nat) (c : Classification)
  : Classification :=
  match valueRecovery X exit index with
  | DisplacedInRegisterFile vr =>
      let c1 :=
        {| poisonedVirtualRegisters := poisonedVirtualRegisters c;
           numberOfPoisonedVirtualRegisters := numberOfPoisonedVirtualRegisters c;
           numberOfDisplacedVirtualRegisters := S (numberOfDisplacedVirtualRegisters c);
           haveUnboxedInt32s := haveUnboxedInt32s c;
           haveFPRs := haveFPRs c;
           haveConstants := haveConstants c;
           haveUndefined := haveUndefined c |} in
      if (vr <? Z.of_nat (length (m_variables exit)))%Z then
        if isInRegister (nth (Z.to_nat vr) (m_variables exit) DontKnow) then
          if negb (nth (Z.to_nat vr) (poisonedVirtualRegisters c1) false) then
            {| poisonedVirtualRegisters :=
                 setNth (Z.to_nat vr) true (poisonedVirtualRegisters c1);
               numberOfPoisonedVirtualRegisters :=
                 S (numberOfPoisonedVirtualRegisters c1);
               numberOfDisplacedVirtualRegisters :=
                 numberOfDisplacedVirtualRegisters c1;
               haveUnboxedInt32s := haveUnboxedInt32s c1;
               haveFPRs := haveFPRs c1;
               haveConstants := haveConstants c1;
               haveUndefined := haveUndefined c1 |}
          else c1
        else c1
      else c1
  | UnboxedInt32InGPR _ =>
      {| poisonedVirtualRegisters := poisonedVirtualRegisters c;
         numberOfPoisonedVirtualRegisters := numberOfPoisonedVirtualRegisters c;
         numberOfDisplacedVirtualRegisters := numberOfDisplacedVirtualRegisters c;
         haveUnboxedInt32s := true;
         haveFPRs := haveFPRs c;
         haveConstants := haveConstants c;
         haveUndefined := haveUndefined c |}
  | InFPR _ =>
      {| poisonedVirtualRegisters := poisonedVirtualRegisters c;
         numberOfPoisonedVirtualRegisters := numberOfPoisonedVirtualRegisters c;
         numberOfDisplacedVirtualRegisters := numberOfDisplacedVirtualRegisters c;
         haveUnboxedInt32s := haveUnboxedInt32s c;
         haveFPRs := true;
         haveConstants := haveConstants c;
         haveUndefined := haveUndefined c |}
  | Constant v =>
      {| poisonedVirtualRegisters := poisonedVirtualRegisters c;
         numberOfPoisonedVirtualRegisters := numberOfPoisonedVirtualRegisters c;
         numberOfDisplacedVirtualRegisters := numberOfDisplacedVirtualRegisters c;
         haveUnboxedInt32s := haveUnboxedInt32s c;
         haveFPRs := haveFPRs c;
         haveConstants := true;
         haveUndefined := if isUndefined v then true else haveUndefined c |}
  | _ => c
  end.

Definition classify (exit : OSRExit) : Classification :=
  forIndices (numberOfRecoveries X exit) (classifyStep exit)
             (initialClassification exit).

(** The number of [EncodedJSValue] cells requested from
    [osrScratchBufferForSize]. *)
Definition scratchBufferSlots (exit : OSRExit) : nat :=
  let c := classify exit in
  numberOfPoisonedVirtualRegisters c +
  (if numberOfDisplacedVirtualRegisters c <=? GPRInfo_numberOfRegisters X
   then 0 else numberOfDisplacedVirtualRegisters c).

(** *** 4) Reboxing of integers *)

Definition reboxStep (exit : OSRExit) (alreadyBoxed : GPRReg) (index : nat)
  : list Instr :=
  match valueRecovery X exit index with
  | UnboxedInt32InGPR gpr =>
      if negb (Z.eqb gpr alreadyBoxed)
      then [orPtr (tagTypeNumberRegister X) gpr] else []
  | _ => []
  end.

Definition reboxIntegers (exit : OSRExit) (c : Classification)
           (alreadyBoxed : GPRReg) : list Instr :=
  if haveUnboxedInt32s c
  then flat_map (reboxStep exit alreadyBoxed) (seq 0 (numberOfRecoveries X exit))
  else [].

(** *** 5) Dumping GPRs *)

Definition isPoisonedIndex (exit : OSRExit) (c : Classification) (index : nat)
  : bool :=
  isVariable X exit index &&
  nth (variableForIndex X exit index) (poisonedVirtualRegisters c) false.

Definition dumpGPRStep (exit : OSRExit) (c : Classification) (index : nat)
           (e : Emit) : Emit :=
  match valueRecovery X exit index with
  | InGPR gpr | UnboxedInt32InGPR gpr =>
      if isPoisonedIndex exit c index
      then emitNext (fun scratchIndex => storePtr gpr (scratchBufferAt scratchIndex)) e
      else emit (storePtr gpr (addressFor (operandForIndex X exit index))) e
  | _ => e
  end.

Definition dumpGPRs (exit : OSRExit) (c : Classification) (e : Emit) : Emit :=
  forIndices (numberOfRecoveries X exit) (dumpGPRStep exit c) e.

(** *** 6), 7) Boxing and dumping doubles *)

Definition boxDoubleStep (exit : OSRExit) (index : nat) : list Instr :=
  match valueRecovery X exit index with
  | InFPR fpr =>
      [boxDouble fpr (GPRInfo_toRegister X (FPRInfo_toIndex X fpr))]
  | _ => []
  end.

Definition dumpFPRStep (exit : OSRExit) (c : Classification) (index : nat)
           (e : Emit) : Emit :=
  match valueRecovery X exit index with
  | InFPR fpr =>
      let gpr := GPRInfo_toRegister X (FPRInfo_toIndex X fpr) in
      if isPoisonedIndex exit c index
      then emitNext (fun scratchIndex => storePtr gpr (scratchBufferAt scratchIndex)) e
      else emit (storePtr gpr (addressFor (operandForIndex X exit index))) e
  | _ => e
  end.

Definition dumpFPRs (exit : OSRExit) (c : Classification) (e : Emit) : Emit :=
  if haveFPRs c then
    forIndices (numberOfRecoveries X exit) (dumpFPRStep exit c)
      (fst e ++ flat_map (boxDoubleStep exit) (seq 0 (numberOfRecoveries X exit)),
       snd e)
  else e.

(** *** 8) Reshuffling displaced virtual registers *)

Definition loadDisplacedStep (exit : OSRExit) (index : nat) (e : Emit) : Emit :=
  match valueRecovery X exit index with
  | DisplacedInRegisterFile vr =>
      emitNext (fun displacementIndex =>
                  loadPtr (addressFor vr) (GPRInfo_toRegister X displacementIndex)) e
  | _ => e
  end.

Definition storeDisplacedStep (exit : OSRExit) (index : nat) (e : Emit) : Emit :=
  match valueRecovery X exit index with
  | DisplacedInRegisterFile _ =>
      emitNext (fun displacementIndex =>
                  storePtr (GPRInfo_toRegister X displacementIndex)
                           (addressFor (operandForIndex X exit index))) e
  | _ => e
  end.

Definition liftDisplacedStep (exit : OSRExit) (index : nat) (e : Emit) : Emit :=
  match valueRecovery X exit index with
  | DisplacedInRegisterFile vr =>
      emitNext (fun scratchIndex => storePtr (regT0 X) (scratchBufferAt scratchIndex))
               (emit (loadPtr (addressFor vr) (regT0 X)) e)
  | _ => e
  end.

Definition dropDisplacedStep (exit : OSRExit) (index : nat) (e : Emit) : Emit :=
  match valueRecovery X exit index with
  | DisplacedInRegisterFile _ =>
      emit (storePtr (regT0 X) (addressFor (operandForIndex X exit index)))
           (emitNext (fun scratchIndex => loadPtr (scratchBufferAt scratchIndex) (regT0 X)) e)
  | _ => e
  end.

(** The block of step 8; [scratchIndex] is the scratch cursor left by
    steps 5 and 7. *)
Definition reshuffleDisplaced (exit : OSRExit) (c : Classification)
           (scratchIndex : nat) : list Instr :=
  let n := numberOfRecoveries X exit in
  if Nat.eqb (numberOfDisplacedVirtualRegisters c) 0 then []
  else if numberOfDisplacedVirtualRegisters c <=? GPRInfo_numberOfRegisters X then
    let loads := forIndices n (loadDisplacedStep exit) ([], 0) in
    fst (forIndices n (storeDisplacedStep exit) (fst loads, 0))
  else
    let lifted := forIndices n (liftDisplacedStep exit) ([], scratchIndex) in
    fst (forIndices n (dropDisplacedStep exit)
                    (fst lifted, numberOfPoisonedVirtualRegisters c)).

(** *** 9) Dumping poisoned virtual registers *)

Definition dumpPoisonedStep (exit : OSRExit) (c : Classification)
           (virtualRegister : nat) (e : Emit) : Emit :=
  if negb (nth virtualRegister (poisonedVirtualRegisters c) false) then e
  else if isInRegister (nth virtualRegister (m_variables exit) DontKnow) then
    emit (storePtr (regT0 X) (addressFor (Z.of_nat virtualRegister)))
         (emitNext (fun scratchIndex => loadPtr (scratchBufferAt scratchIndex) (regT0 X)) e)
  else e.

Definition dumpPoisoned (exit : OSRExit) (c : Classification) : list Instr :=
  if Nat.eqb (numberOfPoisonedVirtualRegisters c) 0 then []
  else fst (forIndices (length (m_variables exit)) (dumpPoisonedStep exit c) ([], 0)).

(** *** 10) Dumping constants *)

Definition dumpConstantStep (exit : OSRExit) (index : nat) : list Instr :=
  match valueRecovery X exit index with
  | Constant v =>
      if isUndefined v
      then [storePtr (regT0 X) (addressFor (operandForIndex X exit index))]
      else [storePtrImm v (addressFor (operandForIndex X exit index))]
  | _ => []
  end.

Definition dumpConstants (exit : OSRExit) (c : Classification) : list Instr :=
  if haveConstants c then
    (if haveUndefined c then [moveImmPtr (encodedUndefined X) (regT0 X)] else [])
    ++ flat_map (dumpConstantStep exit) (seq 0 (numberOfRecoveries X exit))
  else [].

(** *** 12) Loading the result of the last bytecode operation *)

Definition loadLastSetOperand (exit : OSRExit) : list Instr :=
  if negb (Z.eqb (m_lastSetOperand exit) int_max)
  then [loadPtr (addressFor (m_lastSetOperand exit)) (cachedResultRegister X)]
  else [].

(** *** The whole exit

    [None] stands for the failed [ASSERT(mapping)]: the bytecode index of
    the exit is not in the decoded code map. *)
Definition exitSpeculativeWithOSR (codeBlock : CodeBlock) (exit : OSRExit)
           (recovery : option SpeculationRecovery)
           (decodedCodeMap : list BytecodeAndMachineOffset)
  : option (list Instr) :=
  let '(recoveryCode, alreadyBoxed) := osrRecovery recovery in
  let c := classify exit in
  let gprDump := dumpGPRs exit c ([], 0) in
  let fprDump := dumpFPRs exit c gprDump in
  match binarySearch X decodedCodeMap (m_bytecodeIndex exit) with
  | None => None
  | Some mapping =>
      let jumpTarget := (jitCodeStart codeBlock + bm_machineCodeOffset mapping)%Z in
      Some ([Link (CheckJump (m_check exit))]
            ++ recoveryCode
            ++ reboxIntegers exit c alreadyBoxed
            ++ fst fprDump
            ++ reshuffleDisplaced exit c (snd fprDump)
            ++ dumpPoisoned exit c
            ++ dumpConstants exit c
            ++ [store32Imm (counterValueForOptimizeAfterWarmUp codeBlock)
                           addressOfExecuteCounter]
            ++ loadLastSetOperand exit
            ++ [storePtrImm (alternative codeBlock)
                            (addressFor (RegisterFile_CodeBlock X))]
            ++ [moveImmPtr jumpTarget (regT1 X); jumpReg (regT1 X)])
  end.

End OSRExitEmitter.

(** ** The bridging emitter *)

Record GeneralizedRegister : Type := {
  m_isFPR : bool;
  m_register : Z
}.

Definition createGPR (gpr : GPRReg) : GeneralizedRegister :=
  {| m_isFPR := false; m_register := gpr |}.
Definition createFPR (fpr : FPRReg) : GeneralizedRegister :=
  {| m_isFPR := true; m_register := fpr |}.

(** A [ShuffledRegister*]: a pointer into [gprs] or into [fprs]. *)
Record Ref : Type := {
  ref_isFPR : bool;
  ref_index : nat
}.

Definition Ref_eqb (a b : Ref) : bool :=
  Bool.eqb (ref_isFPR a) (ref_isFPR b) && Nat.eqb (ref_index a) (ref_index b).

Record ShuffledRegister : Type := {
  reg : GeneralizedRegister;
  previous : option Ref;
  hasFrom : bool;
  hasTo : bool;
  handled : bool
}.

Definition newShuffledRegister (r : GeneralizedRegister) : ShuffledRegister :=
  {| reg := r; previous := None; hasFrom := false; hasTo := false;
     handled := false |}.

Definition isEndOfNonCyclingPermutation (s : ShuffledRegister) : bool :=
  hasTo s && negb (hasFrom s).

(** The two arrays [gprs] and [fprs]. *)
Record Shuffle : Type := {
  gprs : list ShuffledRegister;
  fprs : list ShuffledRegister
}.

Definition nullShuffledRegister : ShuffledRegister :=
  newShuffledRegister (createGPR InvalidGPRReg).

Definition deref (sh : Shuffle) (r : Ref) : ShuffledRegister :=
  nth (ref_index r) (if ref_isFPR r then fprs sh else gprs sh)
      nullShuffledRegister.

Definition update (sh : Shuffle) (r : Ref) (f : ShuffledRegister -> ShuffledRegister)
  : Shuffle :=
  if ref_isFPR r
  then {| gprs := gprs sh;
          fprs := setNth (ref_index r) (f (deref sh r)) (fprs sh) |}
  else {| gprs := setNth (ref_index r) (f (deref sh r)) (gprs sh);
          fprs := fprs sh |}.

Definition setHasFrom (s : ShuffledRegister) : ShuffledRegister :=
  {| reg := reg s; previous := previous s; hasFrom := true; hasTo := hasTo s;
     handled := handled s |}.
Definition setPreviousAndHasTo (p : Ref) (s : ShuffledRegister) : ShuffledRegister :=
  {| reg := reg s; previous := Some p; hasFrom := hasFrom s; hasTo := true;
     handled := handled s |}.
Definition setHandled (s : ShuffledRegister) : ShuffledRegister :=
  {| reg := reg s; previous := previous s; hasFrom := hasFrom s; hasTo := hasTo s;
     handled := true |}.

(** [NodeToRegisterMap]: [set] writes at [m_occupancy]; [find] scans from
    the last occupied cell down to the first. *)
Definition NodeToRegisterMap : Type := list (NodeIndex * GeneralizedRegister).

Definition map_set (m : NodeToRegisterMap) (first : NodeIndex)
           (second : GeneralizedRegister) : NodeToRegisterMap :=
  m ++ [(first, second)].

Definition map_find (m : NodeToRegisterMap) (first : NodeIndex)
  : option (NodeIndex * GeneralizedRegister) :=
  find (fun t => Z.eqb (fst t) first) (rev m).

Section BridgingEmitter.

Variable X : Externals.

Definition gprInfoAt (l : list RegisterInfo) (index : nat) : RegisterInfo :=
  nth index l unusedRegisterInfo.

Definition findInSpeculationCheck (r : GeneralizedRegister) (check : SpeculationCheck)
  : RegisterInfo :=
  if m_isFPR r
  then gprInfoAt (check_m_fprInfo check) (FPRInfo_toIndex X (m_register r))
  else gprInfoAt (check_m_gprInfo check) (GPRInfo_toIndex X (m_register r)).

Definition findInEntryLocation (r : GeneralizedRegister) (entry : EntryLocation)
  : RegisterInfo :=
  if m_isFPR r
  then gprInfoAt (entry_m_fprInfo entry) (FPRInfo_toIndex X (m_register r))
  else gprInfoAt (entry_m_gprInfo entry) (GPRInfo_toIndex X (m_register r)).

Definition previousDataFormat (r : GeneralizedRegister) (check : SpeculationCheck)
  : DataFormat := format (findInSpeculationCheck r check).

Definition nextDataFormat (r : GeneralizedRegister) (entry : EntryLocation)
  : DataFormat := format (findInEntryLocation r entry).

(** [GeneralizedRegister::convert] *)
Definition convert (r : GeneralizedRegister) (oldDataFormat newDataFormat : DataFormat)
  : list Instr :=
  if negb (needDataFormatConversion X oldDataFormat newDataFormat) then []
  else if DataFormat_eqb oldDataFormat DataFormatInteger
  then [orPtr (tagTypeNumberRegister X) (m_register r)]
  else [zeroExtend32ToPtr (m_register r) (m_register r)].

(** The double-to-boxed sequence shared by [moveTo] and [swapWith]. *)
Definition boxDoubleInto (fpr : FPRReg) (gpr : GPRReg) (scratchFPR : FPRReg)
  : list Instr :=
  (if negb (Z.eqb scratchFPR InvalidFPRReg)
   then [branchConvertDoubleToInt32 fpr gpr NotIntJump scratchFPR;
         orPtr (tagTypeNumberRegister X) gpr;
         jumpFwd DoneJump;
         Link NotIntJump]
   else [])
  ++ [boxDouble fpr gpr]
  ++ (if negb (Z.eqb scratchFPR InvalidFPRReg) then [Link DoneJump] else []).

(** [GeneralizedRegister::moveTo] *)
Definition moveTo (r other : GeneralizedRegister)
           (myDataFormat otherDataFormat : DataFormat) (scratchFPR : FPRReg)
  : list Instr :=
  if m_isFPR r then
    if m_isFPR other then [moveDouble (m_register r) (m_register other)]
    else boxDoubleInto (m_register r) (m_register other) scratchFPR
  else if m_isFPR other then [unboxDouble (m_register r) (m_register other)]
  else if negb (needDataFormatConversion X myDataFormat otherDataFormat)
  then [move (m_register r) (m_register other)]
  else if DataFormat_eqb myDataFormat DataFormatInteger
  then [orPtr3 (m_register r) (tagTypeNumberRegister X) (m_register other)]
  else [zeroExtend32ToPtr (m_register r) (m_register other)].

(** [swapWith] when [this] is an FPR. *)
Definition swapFPRWith (r other : GeneralizedRegister)
           (scratchGPR : GPRReg) (scratchFPR : FPRReg) : list Instr :=
  if m_isFPR other then
    [if Z.eqb scratchFPR InvalidFPRReg
     then moveDoubleToPtr (m_register r) scratchGPR
     else moveDouble (m_register r) scratchFPR;
     moveDouble (m_register other) (m_register r);
     if Z.eqb scratchFPR InvalidFPRReg
     then movePtrToDouble scratchGPR (m_register other)
     else moveDouble scratchFPR (m_register other)]
  else
    [move (m_register other) scratchGPR]
    ++ boxDoubleInto (m_register r) (m_register other) scratchFPR
    ++ [unboxDouble scratchGPR (m_register r)].

(** The conversion applied to one endpoint after a GPR swap. *)
Definition convertAfterSwap (gpr : GPRReg) (oldDataFormat newDataFormat : DataFormat)
  : list Instr :=
  if needDataFormatConversion X oldDataFormat newDataFormat then
    if DataFormat_eqb oldDataFormat DataFormatInteger
    then [orPtr (tagTypeNumberRegister X) gpr]
    else if DataFormat_eqb newDataFormat DataFormatInteger
    then [zeroExtend32ToPtr gpr gpr]
    else []
  else [].

(** [GeneralizedRegister::swapWith] *)
Definition swapWith (r other : GeneralizedRegister)
           (myDataFormat myNewDataFormat otherDataFormat otherNewDataFormat : DataFormat)
           (scratchGPR : GPRReg) (scratchFPR : FPRReg) : list Instr :=
  if m_isFPR r then swapFPRWith r other scratchGPR scratchFPR
  else if m_isFPR other then swapFPRWith other r scratchGPR scratchFPR
  else
    [swap (m_register r) (m_register other)]
    ++ convertAfterSwap (m_register r) otherDataFormat myNewDataFormat
    ++ convertAfterSwap (m_register other) myDataFormat otherNewDataFormat.

(** *** ShuffledRegister *)

Definition lookup (r : GeneralizedRegister) : Ref :=
  if m_isFPR r
  then {| ref_isFPR := true; ref_index := FPRInfo_toIndex X (m_register r) |}
  else {| ref_isFPR := false; ref_index := GPRInfo_toIndex X (m_register r) |}.

Definition lookupForRegister (index : nat) : Ref :=
  if index <? GPRInfo_numberOfRegisters X
  then {| ref_isFPR := false; ref_index := index |}
  else {| ref_isFPR := true; ref_index := index - GPRInfo_numberOfRegisters X |}.

(** The state the shuffling phase threads through its loops. *)
Record ShuffleState : Type := {
  st_shuffle : Shuffle;
  st_scratchFPR1 : FPRReg;
  st_scratchFPR2 : FPRReg;
  st_code : list Instr
}.

(** The block repeated in [handleNonCyclingPermutation] after a register
    is marked handled: an FPR becomes the first or the second scratch
    FPR. *)
Definition noteScratchFPR (r : GeneralizedRegister) (st : ShuffleState)
  : ShuffleState :=
  if m_isFPR r then
    if Z.eqb (st_scratchFPR1 st) InvalidFPRReg
    then {| st_shuffle := st_shuffle st; st_scratchFPR1 := m_register r;
            st_scratchFPR2 := st_scratchFPR2 st; st_code := st_code st |}
    else {| st_shuffle := st_shuffle st; st_scratchFPR1 := st_scratchFPR1 st;
            st_scratchFPR2 := m_register r; st_code := st_code st |}
  else st.

Definition markHandled (cur : Ref) (st : ShuffleState) : ShuffleState :=
  {| st_shuffle := update (st_shuffle st) cur setHandled;
     st_scratchFPR1 := st_scratchFPR1 st;
     st_scratchFPR2 := st_scratchFPR2 st;
     st_code := st_code st |}.

Definition appendCode (c : list Instr) (st : ShuffleState) : ShuffleState :=
  {| st_shuffle := st_shuffle st;
     st_scratchFPR1 := st_scratchFPR1 st;
     st_scratchFPR2 := st_scratchFPR2 st;
     st_code := st_code st ++ c |}.

(** [ShuffledRegister::handleNonCyclingPermutation]; [fuel] bounds the
    walk along [previous], [None] is a walk that does not end. *)
Fixpoint handleNonCyclingPermutation (fuel : nat) (check : SpeculationCheck)
         (entry : EntryLocation) (cur : Ref) (st : ShuffleState)
  : option ShuffleState :=
  match fuel with
  | O => None
  | S fuel' =>
      let curReg := reg (deref (st_shuffle st) cur) in
      match previous (deref (st_shuffle st) cur) with
      | Some prev =>
          let prevReg := reg (deref (st_shuffle st) prev) in
          let st1 := appendCode
                       (moveTo prevReg curReg (previousDataFormat prevReg check)
                               (nextDataFormat curReg entry) (st_scratchFPR1 st)) st in
          let st2 := noteScratchFPR curReg (markHandled cur st1) in
          handleNonCyclingPermutation fuel' check entry prev st2
      | None =>
          Some (noteScratchFPR curReg (markHandled cur st))
      end
  end.

(** The [do ... while (cur != this)] loop that measures a cycle and marks
    it handled; it returns the shuffle, the length and [next].  [None] is
    a null [cur] or a walk that never returns to [this]. *)
Fixpoint measureCycle (fuel : nat) (this cur : Ref) (cycleLength : nat)
         (sh : Shuffle) : option (Shuffle * nat * Ref) :=
  match fuel with
  | O => None
  | S fuel' =>
      let sh' := update sh cur setHandled in
      match previous (deref sh cur) with
      | None => None
      | Some p =>
          if Ref_eqb p this then Some (sh', S cycleLength, cur)
          else measureCycle fuel' this p (S cycleLength) sh'
      end
  end.

(** The [while (cur->previous != this)] loop of the long-cycle case. *)
Fixpoint rotateCycle (fuel : nat) (check : SpeculationCheck) (entry : EntryLocation)
         (sh : Shuffle) (this cur : Ref) (scratchFPR1 : FPRReg)
  : option (list Instr) :=
  match fuel with
  | O => None
  | S fuel' =>
      match previous (deref sh cur) with
      | None => None
      | Some p =>
          if Ref_eqb p this then Some []
          else
            let prevReg := reg (deref sh p) in
            let curReg := reg (deref sh cur) in
            match rotateCycle fuel' check entry sh this p scratchFPR1 with
            | None => None
            | Some rest =>
                Some (moveTo prevReg curReg (previousDataFormat prevReg check)
                             (nextDataFormat curReg entry) scratchFPR1 ++ rest)
            end
      end
  end.

(** The [default:] case of the switch on the cycle length. *)
Definition handleLongCycle (fuel : nat) (check : SpeculationCheck)
           (entry : EntryLocation) (sh : Shuffle) (this next : Ref)
           (scratchGPR : GPRReg) (scratchFPR1 scratchFPR2 : FPRReg)
  : option (list Instr) :=
  let thisReg := reg (deref sh this) in
  let nextReg := reg (deref sh next) in
  let bothFPR := m_isFPR thisReg && m_isFPR nextReg in
  let scratch :=
    if bothFPR then
      if Z.eqb scratchFPR2 InvalidFPRReg then createGPR scratchGPR
      else createFPR scratchFPR2
    else createGPR scratchGPR in
  let save :=
    if bothFPR then
      if Z.eqb scratchFPR2 InvalidFPRReg
      then moveTo thisReg scratch DataFormatDouble DataFormatJSDouble scratchFPR1
      else moveTo thisReg scratch DataFormatDouble DataFormatDouble scratchFPR1
    else moveTo thisReg scratch (previousDataFormat thisReg check)
                (nextDataFormat nextReg entry) scratchFPR1 in
  let restore :=
    if bothFPR then
      if Z.eqb scratchFPR2 InvalidFPRReg
      then moveTo scratch nextReg DataFormatJSDouble DataFormatDouble scratchFPR1
      else moveTo scratch nextReg DataFormatDouble DataFormatDouble scratchFPR1
    else moveTo scratch nextReg (nextDataFormat nextReg entry)
                (nextDataFormat nextReg entry) scratchFPR1 in
  match rotateCycle fuel check entry sh this this scratchFPR1 with
  | None => None
  | Some rotation => Some (save ++ rotation ++ restore)
  end.

(** [ShuffledRegister::handleCyclingPermutation] *)
Definition handleCyclingPermutation (fuel : nat) (check : SpeculationCheck)
           (entry : EntryLocation) (this : Ref) (scratchGPR : GPRReg)
           (st : ShuffleState) : option ShuffleState :=
  match measureCycle fuel this this 0 (st_shuffle st) with
  | None => None
  | Some (sh, cycleLength, next) =>
      let thisReg := reg (deref sh this) in
      let st' := {| st_shuffle := sh;
                    st_scratchFPR1 := st_scratchFPR1 st;
                    st_scratchFPR2 := st_scratchFPR2 st;
                    st_code := st_code st |} in
      match cycleLength with
      | 1 =>
          Some (appendCode (convert thisReg (previousDataFormat thisReg check)
                                    (nextDataFormat thisReg entry)) st')
      | 2 =>
          match previous (deref sh this) with
          | None => None
          | Some p =>
              let prevReg := reg (deref sh p) in
              Some (appendCode
                      (swapWith thisReg prevReg
                                (previousDataFormat thisReg check)
                                (nextDataFormat thisReg entry)
                                (previousDataFormat prevReg check)
                                (nextDataFormat prevReg entry)
                                scratchGPR (st_scratchFPR1 st)) st')
          end
      | _ =>
          match handleLongCycle fuel check entry sh this next scratchGPR
                                (st_scratchFPR1 st) (st_scratchFPR2 st) with
          | None => None
          | Some c => Some (appendCode c st')
          end
      end
  end.

(** *** The fill helpers *)

Definition fillNumericToDouble (graph : Graph) (nodeIndex : NodeIndex)
           (fpr : FPRReg) (temporary : GPRReg) : list Instr :=
  let node := graph nodeIndex in
  if node_isConstant node then
    [moveImmPtr (node_valueOfNumberConstant node) temporary;
     movePtrToDouble temporary fpr]
  else
    [loadPtr (addressFor (node_virtualRegister node)) temporary;
     branchPtrAboveOrEqual temporary (tagTypeNumberRegister X) IsIntegerJump;
     unboxDouble temporary fpr;
     jumpFwd HasUnboxedDoubleJump;
     Link IsIntegerJump;
     convertInt32ToDouble temporary fpr;
     Link HasUnboxedDoubleJump].

Definition fillInt32ToInteger (graph : Graph) (nodeIndex : NodeIndex)
           (gpr : GPRReg) : list Instr :=
  let node := graph nodeIndex in
  if node_isConstant node
  then [moveImm32 (node_valueOfInt32Constant node) gpr]
  else [load32 (addressFor (node_virtualRegister node)) gpr].

Definition fillToJS (graph : Graph) (nodeIndex : NodeIndex) (gpr : GPRReg)
  : list Instr :=
  let node := graph nodeIndex in
  if node_isConstant node then
    if node_isInt32Constant node
    then [moveImmPtr (encodeInt32 X (node_valueOfInt32Constant node)) gpr]
    else if node_isNumberConstant node
    then [moveImmPtr (encodeAsDouble X (node_valueOfNumberConstant node)) gpr]
    else [moveImmPtr (node_valueOfJSConstant node) gpr]
  else [loadPtr (addressFor (node_virtualRegister node)) gpr].

(** *** Recovery pre-pass of the bridging variant *)

Definition bridgingRecovery (check : SpeculationCheck)
           (recovery : option SpeculationRecovery) : list Instr :=
  match recovery with
  | None => []
  | Some r =>
      match recovery_type r with
      | SpeculativeAdd =>
          sub32 (recovery_src r) (recovery_dest r)
          :: (if negb (DataFormat_eqb
                         (format (gprInfoAt (check_m_gprInfo check)
                                            (GPRInfo_toIndex X (recovery_dest r))))
                         DataFormatInteger)
              then [orPtr (tagTypeNumberRegister X) (recovery_dest r)]
              else [])
      | BooleanSpeculationCheck =>
          [xorPtrImm (ValueFalse X) (recovery_dest r)]
      end
  end.

(** *** Reverse maps and scratch discovery *)

Record Discovery : Type := {
  checkNodeToRegisterMap : NodeToRegisterMap;
  entryNodeToRegisterMap : NodeToRegisterMap;
  d_scratchGPR : GPRReg;
  d_scratchFPR1 : FPRReg;
  d_scratchFPR2 : FPRReg
}.

Definition discoverGPRStep (check : SpeculationCheck) (entry : EntryLocation)
           (index : nat) (d : Discovery) : Discovery :=
  let nodeIndexInCheck := nodeIndex (gprInfoAt (check_m_gprInfo check) index) in
  let nodeIndexInEntry := nodeIndex (gprInfoAt (entry_m_gprInfo entry) index) in
  let r := createGPR (GPRInfo_toRegister X index) in
  {| checkNodeToRegisterMap :=
       if negb (Z.eqb nodeIndexInCheck NoNode)
       then map_set (checkNodeToRegisterMap d) nodeIndexInCheck r
       else checkNodeToRegisterMap d;
     entryNodeToRegisterMap :=
       if negb (Z.eqb nodeIndexInEntry NoNode)
       then map_set (entryNodeToRegisterMap d) nodeIndexInEntry r
       else entryNodeToRegisterMap d;
     d_scratchGPR :=
       if negb (Z.eqb nodeIndexInEntry NoNode) then d_scratchGPR d
       else if Z.eqb nodeIndexInCheck NoNode then GPRInfo_toRegister X index
       else d_scratchGPR d;
     d_scratchFPR1 := d_scratchFPR1 d;
     d_scratchFPR2 := d_scratchFPR2 d |}.

Definition discoverFPRStep (check : SpeculationCheck) (entry : EntryLocation)
           (index : nat) (d : Discovery) : Discovery :=
  let nodeIndexInCheck := nodeIndex (gprInfoAt (check_m_fprInfo check) index) in
  let nodeIndexInEntry := nodeIndex (gprInfoAt (entry_m_fprInfo entry) index) in
  let r := createFPR (FPRInfo_toRegister X index) in
  let free := Z.eqb nodeIndexInEntry NoNode && Z.eqb nodeIndexInCheck NoNode in
  {| checkNodeToRegisterMap :=
       if negb (Z.eqb nodeIndexInCheck NoNode)
       then map_set (checkNodeToRegisterMap d) nodeIndexInCheck r
       else checkNodeToRegisterMap d;
     entryNodeToRegisterMap :=
       if negb (Z.eqb nodeIndexInEntry NoNode)
       then map_set (entryNodeToRegisterMap d) nodeIndexInEntry r
       else entryNodeToRegisterMap d;
     d_scratchGPR := d_scratchGPR d;
     d_scratchFPR1 :=
       if free && Z.eqb (d_scratchFPR1 d) InvalidFPRReg
       then FPRInfo_toRegister X index else d_scratchFPR1 d;
     d_scratchFPR2 :=
       if free && negb (Z.eqb (d_scratchFPR1 d) InvalidFPRReg)
       then FPRInfo_toRegister X index else d_scratchFPR2 d |}.

Definition discover (check : SpeculationCheck) (entry : EntryLocation) : Discovery :=
  forIndices (FPRInfo_numberOfRegisters X) (discoverFPRStep check entry)
    (forIndices (GPRInfo_numberOfRegisters X) (discoverGPRStep check entry)
       {| checkNodeToRegisterMap := [];
          entryNodeToRegisterMap := [];
          d_scratchGPR := InvalidGPRReg;
          d_scratchFPR1 := InvalidFPRReg;
          d_scratchFPR2 := InvalidFPRReg |}).

(** *** Part 1: linking the permutation and spilling *)

Definition initialShuffle : Shuffle :=
  {| gprs := map (fun index => newShuffledRegister (createGPR (GPRInfo_toRegister X index)))
                 (seq 0 (GPRInfo_numberOfRegisters X));
     fprs := map (fun index => newShuffledRegister (createFPR (FPRInfo_toRegister X index)))
                 (seq 0 (FPRInfo_numberOfRegisters X)) |}.

(** [hasFrom]/[previous]/[hasTo] linking done when the entry map has the
    node. *)
Definition linkTo (from : Ref) (second : GeneralizedRegister) (sh : Shuffle)
  : Shuffle :=
  update (update sh from setHasFrom) (lookup second) (setPreviousAndHasTo from).

Record SpillGPRState : Type := {
  sg_shuffle : Shuffle;
  sg_scratchGPR : GPRReg;
  sg_code : list Instr
}.

Definition spillGPRStep (graph : Graph) (check : SpeculationCheck)
           (entry : EntryLocation) (entryMap : NodeToRegisterMap)
           (index : nat) (s : SpillGPRState) : SpillGPRState :=
  let info := gprInfoAt (check_m_gprInfo check) index in
  let n := nodeIndex info in
  if Z.eqb n NoNode then s
  else
    let gpr := GPRInfo_toRegister X index in
    let spill :=
      if isSpilled info then []
      else (if DataFormat_eqb (format info) DataFormatInteger
            then [orPtr (tagTypeNumberRegister X) gpr] else [])
           ++ [storePtr gpr (addressFor (node_virtualRegister (graph n)))] in
    match map_find entryMap n with
    | Some t =>
        let sh := linkTo {| ref_isFPR := false; ref_index := index |} (snd t)
                         (sg_shuffle s) in
        if negb (isSpilled (findInEntryLocation (snd t) entry))
        then {| sg_shuffle := sh; sg_scratchGPR := sg_scratchGPR s;
                sg_code := sg_code s |}
        else {| sg_shuffle := sh; sg_scratchGPR := sg_scratchGPR s;
                sg_code := sg_code s ++ spill |}
    | None =>
        {| sg_shuffle := sg_shuffle s;
           sg_scratchGPR :=
             if Z.eqb (nodeIndex (gprInfoAt (entry_m_gprInfo entry) index)) NoNode
             then gpr else sg_scratchGPR s;
           sg_code := sg_code s ++ spill |}
    end.

Definition spillFPRStep (graph : Graph) (check : SpeculationCheck)
           (entry : EntryLocation) (entryMap : NodeToRegisterMap)
           (scratchGPR : GPRReg) (index : nat) (st : ShuffleState) : ShuffleState :=
  let info := gprInfoAt (check_m_fprInfo check) index in
  let n := nodeIndex info in
  if Z.eqb n NoNode then st
  else
    let fpr := FPRInfo_toRegister X index in
    let spill :=
      if isSpilled info then []
      else [moveDoubleToPtr fpr scratchGPR;
            subPtr (tagTypeNumberRegister X) scratchGPR;
            storePtr scratchGPR (addressFor (node_virtualRegister (graph n)))] in
    match map_find entryMap n with
    | Some t =>
        let sh := linkTo {| ref_isFPR := true; ref_index := index |} (snd t)
                         (st_shuffle st) in
        {| st_shuffle := sh;
           st_scratchFPR1 := st_scratchFPR1 st;
           st_scratchFPR2 := st_scratchFPR2 st;
           st_code :=
             if negb (isSpilled (findInEntryLocation (snd t) entry))
             then st_code st else st_code st ++ spill |}
    | None =>
        let unusedInEntry :=
          Z.eqb (nodeIndex (gprInfoAt (entry_m_fprInfo entry) index)) NoNode in
        {| st_shuffle := st_shuffle st;
           st_scratchFPR1 :=
             if unusedInEntry && Z.eqb (st_scratchFPR1 st) InvalidFPRReg
             then fpr else st_scratchFPR1 st;
           st_scratchFPR2 :=
             (* [else if (scratchFPR2)]: the enumerator is tested for
                being non-zero *)
             if unusedInEntry && negb (Z.eqb (st_scratchFPR1 st) InvalidFPRReg)
                && negb (Z.eqb (st_scratchFPR2 st) 0)
             then fpr else st_scratchFPR2 st;
           st_code := st_code st ++ spill |}
    end.

(** *** Part 2: shuffling *)

(** A loop whose body can fail. *)
Definition forIndicesOpt (S : Type) (n : nat) (body : nat -> S -> option S) (s : S)
  : option S :=
  fold_left (fun acc i => match acc with
                          | Some a => body i a
                          | None => None
                          end) (seq 0 n) (Some s).

Definition numberOfShuffledRegisters : nat :=
  GPRInfo_numberOfRegisters X + FPRInfo_numberOfRegisters X.

(** No walk along [previous] visits more registers than there are. *)
Definition walkFuel : nat := S numberOfShuffledRegisters.

Definition untouched (s : ShuffledRegister) : bool :=
  negb (hasFrom s) && negb (hasTo s).

Definition chainStep (check : SpeculationCheck) (entry : EntryLocation)
           (index : nat) (st : ShuffleState) : option ShuffleState :=
  let r := lookupForRegister index in
  let s := deref (st_shuffle st) r in
  if negb (isEndOfNonCyclingPermutation s) || handled s || untouched s
  then Some st
  else handleNonCyclingPermutation walkFuel check entry r st.

Definition cycleStep (check : SpeculationCheck) (entry : EntryLocation)
           (scratchGPR : GPRReg) (index : nat) (st : ShuffleState)
  : option ShuffleState :=
  let r := lookupForRegister index in
  let s := deref (st_shuffle st) r in
  if handled s || untouched s
  then Some st
  else handleCyclingPermutation walkFuel check entry r scratchGPR st.

(** *** Part 3: filling *)

Definition needsFill (check : SpeculationCheck) (checkMap : NodeToRegisterMap)
           (info : RegisterInfo) : bool :=
  if Z.eqb (nodeIndex info) NoNode || isSpilled info then false
  else match map_find checkMap (nodeIndex info) with
       | Some t => isSpilled (findInSpeculationCheck (snd t) check)
       | None => true
       end.

Definition fillFPRStep (graph : Graph) (check : SpeculationCheck)
           (entry : EntryLocation) (checkMap : NodeToRegisterMap) (index : nat)
  : list Instr :=
  let info := gprInfoAt (entry_m_fprInfo entry) index in
  if needsFill check checkMap info
  then fillNumericToDouble graph (nodeIndex info) (FPRInfo_toRegister X index) (regT0 X)
  else [].

Definition fillGPRStep (graph : Graph) (check : SpeculationCheck)
           (entry : EntryLocation) (checkMap : NodeToRegisterMap) (index : nat)
  : list Instr :=
  let info := gprInfoAt (entry_m_gprInfo entry) index in
  if needsFill check checkMap info then
    if DataFormat_eqb (format info) DataFormatInteger
    then fillInt32ToInteger graph (nodeIndex info) (GPRInfo_toRegister X index)
    else fillToJS graph (nodeIndex info) (GPRInfo_toRegister X index)
  else [].

Definition fillMissing (graph : Graph) (check : SpeculationCheck)
           (entry : EntryLocation) (checkMap : NodeToRegisterMap) : list Instr :=
  flat_map (fillFPRStep graph check entry checkMap)
           (seq 0 (FPRInfo_numberOfRegisters X))
  ++ flat_map (fillGPRStep graph check entry checkMap)
              (seq 0 (GPRInfo_numberOfRegisters X)).

(** *** The phases, and the whole bridge *)

(** Part 1 over the GPRs, from the discovery's scratch GPR. *)
Definition spillGPRs (graph : Graph) (check : SpeculationCheck)
           (entry : EntryLocation) (d : Discovery) : SpillGPRState :=
  forIndices (GPRInfo_numberOfRegisters X)
             (spillGPRStep graph check entry (entryNodeToRegisterMap d))
             {| sg_shuffle := initialShuffle;
                sg_scratchGPR := d_scratchGPR d;
                sg_code := [] |}.

(** The scratch GPR after the tag-mask fallback, with
    [needToRestoreTagMaskRegister]. *)
Definition chooseScratchGPR (found : GPRReg) : GPRReg * bool :=
  if Z.eqb found InvalidGPRReg then (tagMaskRegister X, true) else (found, false).

Definition spillFPRs (graph : Graph) (check : SpeculationCheck)
           (entry : EntryLocation) (d : Discovery) (sg : SpillGPRState)
           (scratchGPR : GPRReg) : ShuffleState :=
  forIndices (FPRInfo_numberOfRegisters X)
             (spillFPRStep graph check entry (entryNodeToRegisterMap d) scratchGPR)
             {| st_shuffle := sg_shuffle sg;
                st_scratchFPR1 := d_scratchFPR1 d;
                st_scratchFPR2 := d_scratchFPR2 d;
                st_code := sg_code sg |}.

Definition shuffle (check : SpeculationCheck) (entry : EntryLocation)
           (scratchGPR : GPRReg) (st : ShuffleState) : option ShuffleState :=
  match forIndicesOpt numberOfShuffledRegisters (chainStep check entry) st with
  | None => None
  | Some st' =>
      forIndicesOpt numberOfShuffledRegisters (cycleStep check entry scratchGPR) st'
  end.

(** The scratch GPR the bridge ends up with, and whether the tag-mask
    register has to be restored. *)
Definition bridgeScratchGPR (graph : Graph) (check : SpeculationCheck)
           (entry : EntryLocation) : GPRReg * bool :=
  chooseScratchGPR (sg_scratchGPR (spillGPRs graph check entry (discover check entry))).

(** [JITCompiler::jumpFromSpeculativeToNonSpeculative] *)
Definition jumpFromSpeculativeToNonSpeculative (graph : Graph)
           (check : SpeculationCheck) (entry : EntryLocation)
           (recovery : option SpeculationRecovery) : option (list Instr) :=
  let d := discover check entry in
  let sg := spillGPRs graph check entry d in
  let '(scratchGPR, needToRestoreTagMaskRegister) :=
    chooseScratchGPR (sg_scratchGPR sg) in
  let st := spillFPRs graph check entry d sg scratchGPR in
  match shuffle check entry scratchGPR st with
  | None => None
  | Some st' =>
      Some ([Link (CheckJump (check_m_check check))]
            ++ bridgingRecovery check recovery
            ++ st_code st'
            ++ fillMissing graph check entry (checkNodeToRegisterMap d)
            ++ (if needToRestoreTagMaskRegister
                then [moveImmPtr (TagMask X) (tagMaskRegister X)] else [])
            ++ [jumpTo (entry_m_entry entry)])
  end.

End BridgingEmitter.

(** ** The x86-64 instance of the header declarations

    Register numbers are the x86 encodings ([eax] = 0, [ecx] = 1,
    [edx] = 2, [ebx] = 3, [esi] = 6, [edi] = 7, [r8] ... [r15] = 8 ... 15;
    [xmm0] ... [xmm5] = 0 ... 5).  The instance is used to run the emitters
    on concrete descriptors. *)
Module X86_64.

Definition registerForIndex : list GPRReg := [0; 2; 1; 3; 7; 6; 8; 9; 10]%Z.

Definition toRegister (index : nat) : GPRReg := nth index registerForIndex InvalidGPRReg.

Definition toIndex (r : GPRReg) : nat :=
  match r with
  | 0%Z => 0 | 2%Z => 1 | 1%Z => 2 | 3%Z => 3 | 7%Z => 4
  | 6%Z => 5 | 8%Z => 6 | 9%Z => 7 | 10%Z => 8
  | _ => 9
  end.

Definition TagTypeNumber : Z := 0xffff000000000000%Z.

Definition CallFrameHeaderSize : Z := 6%Z.

(** Leaving out [DataFormatNone], on which the function asserts. *)
Definition needConversion (from to : DataFormat) : bool :=
  match from with
  | DataFormatInteger | DataFormatDouble => negb (DataFormat_eqb to from)
  | _ =>
      match to with
      | DataFormatInteger | DataFormatDouble => true
      | _ => false
      end
  end.

(** [OSRExit]'s accessors: the recoveries are the arguments followed by
    the variables. *)
Definition exitNumberOfRecoveries (exit : OSRExit) : nat :=
  length (m_arguments exit) + length (m_variables exit).

Definition exitValueRecovery (exit : OSRExit) (index : nat) : ValueRecovery :=
  if index <? length (m_arguments exit)
  then nth index (m_arguments exit) DontKnow
  else nth (index - length (m_arguments exit)) (m_variables exit) DontKnow.

Definition exitIsVariable (exit : OSRExit) (index : nat) : bool :=
  negb (index <? length (m_arguments exit)).

Definition exitVariableForIndex (exit : OSRExit) (index : nat) : nat :=
  index - length (m_arguments exit).

Definition exitOperandForIndex (exit : OSRExit) (index : nat) : Z :=
  if index <? length (m_arguments exit)
  then (Z.of_nat index - Z.of_nat (length (m_arguments exit)) - CallFrameHeaderSize)%Z
  else (Z.of_nat index - Z.of_nat (length (m_arguments exit)))%Z.

(** The search of the decoded code map for a bytecode index that is in
    the map, as at every concrete exit below: the entry of that index.
    For an index that is not in the map the source's [ASSERT(mapping)]
    fails, and [None] stands for that; no property is stated there. *)
Definition findMapping (decodedCodeMap : list BytecodeAndMachineOffset)
           (bytecodeIndex : Z) : option BytecodeAndMachineOffset :=
  find (fun m => Z.eqb (bm_bytecodeIndex m) bytecodeIndex) decodedCodeMap.

Definition externals : Externals :=
  {| GPRInfo_numberOfRegisters := 9;
     FPRInfo_numberOfRegisters := 6;
     GPRInfo_toRegister := toRegister;
     GPRInfo_toIndex := toIndex;
     FPRInfo_toRegister := Z.of_nat;
     FPRInfo_toIndex := Z.to_nat;
     regT0 := 0%Z;
     regT1 := 2%Z;
     cachedResultRegister := 0%Z;
     tagTypeNumberRegister := 14%Z;
     tagMaskRegister := 15%Z;
     TagMask := 0xffff000000000002%Z;
     ValueFalse := 6%Z;
     encodedUndefined := 10%Z;
     encodeInt32 := fun v => Z.lor TagTypeNumber (v mod 2 ^ 32)%Z;
     encodeAsDouble := fun bits => (bits + 2 ^ 48)%Z;
     RegisterFile_CodeBlock := (-1)%Z;
     needDataFormatConversion := needConversion;
     numberOfRecoveries := exitNumberOfRecoveries;
     valueRecovery := exitValueRecovery;
     isVariable := exitIsVariable;
     variableForIndex := exitVariableForIndex;
     operandForIndex := exitOperandForIndex;
     binarySearch := findMapping |}.

End X86_64.

(** ** A symbolic machine for straight-line emitted code *)

(** Values are tracked up to representation: a location holds what some
    location held when the emitted code was entered, an immediate, or a
    term of the recovery arithmetic; tagging, untagging and moving between
    the integer and the floating-point file keep the value. *)
Inductive Val : Type :=
| InitialGPR (r : GPRReg)
| InitialFPR (r : FPRReg)
| InitialMem (a : Address)
| ImmV (bits : Z)
| Sub32V (a b : Val)
| XorV (imm : Z) (a : Val)
| Junk.

Definition Address_eqb (a b : Address) : bool :=
  match a, b with
  | addressFor x, addressFor y => Z.eqb x y
  | scratchBufferAt i, scratchBufferAt j => Nat.eqb i j
  | addressOfExecuteCounter, addressOfExecuteCounter => true
  | _, _ => false
  end.

Record Machine : Type := {
  mach_gpr : GPRReg -> Val;
  mach_fpr : FPRReg -> Val;
  mach_mem : Address -> Val
}.

Definition setGPR (r : GPRReg) (v : Val) (s : Machine) : Machine :=
  {| mach_gpr := fun r' => if Z.eqb r' r then v else mach_gpr s r';
     mach_fpr := mach_fpr s;
     mach_mem := mach_mem s |}.

Definition setFPR (r : FPRReg) (v : Val) (s : Machine) : Machine :=
  {| mach_gpr := mach_gpr s;
     mach_fpr := fun r' => if Z.eqb r' r then v else mach_fpr s r';
     mach_mem := mach_mem s |}.

Definition setMem (a : Address) (v : Val) (s : Machine) : Machine :=
  {| mach_gpr := mach_gpr s;
     mach_fpr := mach_fpr s;
     mach_mem := fun a' => if Address_eqb a' a then v else mach_mem s a' |}.

(** Modelled from the spec: the macro assembler is an external
    collaborator; section 6 names its primitives with the direction of
    each transfer ([move(gpr->gpr)], [load_stack(slot->gpr)],
    [store_stack(gpr->slot)], [swap(gpr,gpr)], [move_double(fpr->fpr)],
    [box_double(fpr->gpr)], [unbox_double(gpr->fpr)], ...).  [tagReg] is
    the register holding the integer tag: or-ing it in or subtracting it
    changes the representation only.  Branching code is not interpreted
    ([None]); binding a jump and leaving through the final jump do nothing
    to the state. *)
Definition exec (tagReg : GPRReg) (i : Instr) (s : Machine) : option Machine :=
  match i with
  | Link _ => Some s
  | sub32 src dest =>
      Some (setGPR dest (Sub32V (mach_gpr s dest) (mach_gpr s src)) s)
  | orPtr src dest =>
      if Z.eqb src tagReg then Some s else Some (setGPR dest Junk s)
  | orPtr3 op1 op2 dest =>
      if Z.eqb op2 tagReg then Some (setGPR dest (mach_gpr s op1) s)
      else Some (setGPR dest Junk s)
  | xorPtrImm imm dest => Some (setGPR dest (XorV imm (mach_gpr s dest)) s)
  | subPtr src dest =>
      if Z.eqb src tagReg then Some s else Some (setGPR dest Junk s)
  | storePtr src a => Some (setMem a (mach_gpr s src) s)
  | storePtrImm imm a => Some (setMem a (ImmV imm) s)
  | store32Imm imm a => Some (setMem a (ImmV imm) s)
  | loadPtr a dest => Some (setGPR dest (mach_mem s a) s)
  | load32 a dest => Some (setGPR dest (mach_mem s a) s)
  | move src dest => Some (setGPR dest (mach_gpr s src) s)
  | moveImmPtr imm dest => Some (setGPR dest (ImmV imm) s)
  | moveImm32 imm dest => Some (setGPR dest (ImmV imm) s)
  | swap r1 r2 =>
      Some (setGPR r2 (mach_gpr s r1) (setGPR r1 (mach_gpr s r2) s))
  | zeroExtend32ToPtr src dest => Some (setGPR dest (mach_gpr s src) s)
  | moveDouble src dest => Some (setFPR dest (mach_fpr s src) s)
  | moveDoubleToPtr src dest => Some (setGPR dest (mach_fpr s src) s)
  | movePtrToDouble src dest => Some (setFPR dest (mach_gpr s src) s)
  | boxDouble fpr gpr => Some (setGPR gpr (mach_fpr s fpr) s)
  | unboxDouble gpr fpr => Some (setFPR fpr (mach_gpr s gpr) s)
  | convertInt32ToDouble src dest => Some (setFPR dest (mach_gpr s src) s)
  | branchConvertDoubleToInt32 _ _ _ _ => None
  | branchPtrAboveOrEqual _ _ _ => None
  | jumpFwd _ => None
  | jumpTo _ => Some s
  | jumpReg _ => Some s
  end.

Fixpoint run (tagReg : GPRReg) (code : list Instr) (s : Machine) : option Machine :=
  match code with
  | [] => Some s
  | i :: rest =>
      match exec tagReg i s with
      | Some s' => run tagReg rest s'
      | None => None
      end
  end.

(** * Vocabulary of the properties *)

Section Vocabulary.

Variable X : Externals.

(** The recoveries of an exit, in index order. *)
Definition recoveries (exit : OSRExit) : list ValueRecovery :=
  map (valueRecovery X exit) (seq 0 (numberOfRecoveries X exit)).

Definition isUnboxedInt32 (r : ValueRecovery) : bool :=
  match r with UnboxedInt32InGPR _ => true | _ => false end.

Definition isDisplaced (r : ValueRecovery) : bool :=
  match r with DisplacedInRegisterFile _ => true | _ => false end.

(** The registers to rebox: the GPR of every recovery whose technique is
    [UnboxedInt32InGPR], unless it is [alreadyBoxed]. *)
Definition needsRebox (alreadyBoxed : GPRReg) (r : ValueRecovery) : list GPRReg :=
  match r with
  | UnboxedInt32InGPR gpr => if Z.eqb gpr alreadyBoxed then [] else [gpr]
  | _ => []
  end.

(** The or-instructions of a piece of code are the instructions that
    box an integer in place. *)
Definition isOrPtr (i : Instr) : bool :=
  match i with orPtr _ _ => true | _ => false end.

(** The register boxed by the recovery pre-pass. *)
Definition alreadyBoxedBy (recovery : option SpeculationRecovery) : GPRReg :=
  match recovery with
  | Some r => match recovery_type r with
              | SpeculativeAdd => recovery_dest r
              | BooleanSpeculationCheck => InvalidGPRReg
              end
  | None => InvalidGPRReg
  end.

(** [r] is a displaced recovery whose source is the home slot of
    variable [v]. *)
Definition displacedFrom (v : nat) (r : ValueRecovery) : bool :=
  match r with
  | DisplacedInRegisterFile vr => Z.eqb vr (Z.of_nat v)
  | _ => false
  end.

(** Variable [v] is held in a register while some displaced recovery
    among the first [k] reads its home slot. *)
Definition poisonedAfter (exit : OSRExit) (k v : nat) : bool :=
  isInRegister (nth v (m_variables exit) DontKnow) &&
  existsb (displacedFrom v) (map (valueRecovery X exit) (seq 0 k)).

(** The source asserts that displaced recoveries name non-negative
    virtual registers. *)
Definition displacedSourcesNonNegative (exit : OSRExit) : Prop :=
  forall index vr,
    index < numberOfRecoveries X exit ->
    valueRecovery X exit index = DisplacedInRegisterFile vr ->
    (0 <= vr)%Z.

(** The displaced recoveries among the first [n], in index order, each
    with its index and its source slot. *)
Definition displacedAmong (exit : OSRExit) (n : nat) : list (nat * VirtualRegister) :=
  flat_map (fun index => match valueRecovery X exit index with
                         | DisplacedInRegisterFile vr => [(index, vr)]
                         | _ => []
                         end) (seq 0 n).

Definition displacedRecoveries (exit : OSRExit) : list (nat * VirtualRegister) :=
  displacedAmong exit (numberOfRecoveries X exit).

(** [l] with its elements numbered from [k]. *)
Fixpoint numbered (A : Type) (k : nat) (l : list A) : list (nat * A) :=
  match l with
  | [] => []
  | x :: t => (k, x) :: numbered (S k) t
  end.

Definition loadBlock (k : nat) (p : nat * VirtualRegister) : list Instr :=
  [loadPtr (addressFor (snd p)) (GPRInfo_toRegister X k)].

Definition storeBlock (exit : OSRExit) (k : nat) (p : nat * VirtualRegister)
  : list Instr :=
  [storePtr (GPRInfo_toRegister X k) (addressFor (operandForIndex X exit (fst p)))].

Definition liftBlock (k : nat) (p : nat * VirtualRegister) : list Instr :=
  [loadPtr (addressFor (snd p)) (regT0 X);
   storePtr (regT0 X) (scratchBufferAt k)].

Definition dropBlock (exit : OSRExit) (k : nat) (p : nat * VirtualRegister)
  : list Instr :=
  [loadPtr (scratchBufferAt k) (regT0 X);
   storePtr (regT0 X) (addressFor (operandForIndex X exit (fst p)))].

(** The expected code of step 8: nothing when no recovery is displaced;
    all loads then all stores, through the GPRs numbered from 0, when the
    displaced recoveries fit the GPRs; staging through consecutive scratch
    cells from [scratchIndex] on otherwise. *)
Definition reshuffleShape (exit : OSRExit) (scratchIndex : nat) : list Instr :=
  let d := displacedRecoveries exit in
  if Nat.eqb (length d) 0 then []
  else if length d <=? GPRInfo_numberOfRegisters X then
    flat_map (fun p => loadBlock (fst p) (snd p)) (numbered 0 d)
    ++ flat_map (fun p => storeBlock exit (fst p) (snd p)) (numbered 0 d)
  else
    flat_map (fun p => liftBlock (fst p) (snd p)) (numbered scratchIndex d)
    ++ flat_map (fun p => dropBlock exit (fst p) (snd p)) (numbered scratchIndex d).

Definition isInGPR (r : ValueRecovery) : bool :=
  match r with
  | InGPR _ | UnboxedInt32InGPR _ => true
  | _ => false
  end.

Definition isInFPR (r : ValueRecovery) : bool :=
  match r with InFPR _ => true | _ => false end.

(** The accessors of an exit enumerate its arguments and then its
    variables. *)
Definition variablesFollowArguments (exit : OSRExit) : Prop :=
  numberOfRecoveries X exit = length (m_arguments exit) + length (m_variables exit) /\
  forall index,
    index < length (m_arguments exit) + length (m_variables exit) ->
    isVariable X exit index = negb (index <? length (m_arguments exit)) /\
    (length (m_arguments exit) <= index ->
     variableForIndex X exit index = index - length (m_arguments exit) /\
     valueRecovery X exit index =
     nth (index - length (m_arguments exit)) (m_variables exit) DontKnow).

Definition injectiveBelow (A : Type) (n : nat) (f : nat -> A) : Prop :=
  forall i j, i < n -> j < n -> f i = f j -> i = j.

(** The register [r] points into its array. *)
Definition inBounds (sh : Shuffle) (r : Ref) : bool :=
  ref_index r <? length (if ref_isFPR r then fprs sh else gprs sh).

(** Two shuffles with the same registers and the same [previous]
    pointers. *)
Definition sameLinks (sh sh' : Shuffle) : Prop :=
  forall r, previous (deref sh' r) = previous (deref sh r) /\
            reg (deref sh' r) = reg (deref sh r).

(** The tuple a register contributes to a reverse map. *)
Definition gprTuple (infos : list RegisterInfo) (index : nat)
  : list (NodeIndex * GeneralizedRegister) :=
  if Z.eqb (nodeIndex (gprInfoAt infos index)) NoNode then []
  else [(nodeIndex (gprInfoAt infos index), createGPR (GPRInfo_toRegister X index))].

Definition fprTuple (infos : list RegisterInfo) (index : nat)
  : list (NodeIndex * GeneralizedRegister) :=
  if Z.eqb (nodeIndex (gprInfoAt infos index)) NoNode then []
  else [(nodeIndex (gprInfoAt infos index), createFPR (FPRInfo_toRegister X index))].

(** The reverse map of a register state: the GPRs in index order, then
    the FPRs. *)
Definition reverseMap (gprInfo fprInfo : list RegisterInfo) : NodeToRegisterMap :=
  flat_map (gprTuple gprInfo) (seq 0 (GPRInfo_numberOfRegisters X))
  ++ flat_map (fprTuple fprInfo) (seq 0 (FPRInfo_numberOfRegisters X)).

(** A GPR that neither side uses. *)
Definition freeOnBothSides (check : SpeculationCheck) (entry : EntryLocation)
           (index : nat) : bool :=
  Z.eqb (nodeIndex (gprInfoAt (entry_m_gprInfo entry) index)) NoNode &&
  Z.eqb (nodeIndex (gprInfoAt (check_m_gprInfo check) index)) NoNode.

Definition discoverGPRs (check : SpeculationCheck) (entry : EntryLocation)
           (k : nat) : Discovery :=
  forIndices k (discoverGPRStep X check entry)
    {| checkNodeToRegisterMap := [];
       entryNodeToRegisterMap := [];
       d_scratchGPR := InvalidGPRReg;
       d_scratchFPR1 := InvalidFPRReg;
       d_scratchFPR2 := InvalidFPRReg |}.

(** Some entry register holds node [n]. *)
Definition wantedByEntry (entry : EntryLocation) (n : NodeIndex) : bool :=
  existsb (Z.eqb n)
          (map fst (reverseMap (entry_m_gprInfo entry) (entry_m_fprInfo entry))).

(** GPR [index] can serve as scratch: the entry does not use it, and the
    exit does not use it either or holds in it a node that no entry
    register receives. *)
Definition scratchCandidate (check : SpeculationCheck) (entry : EntryLocation)
           (index : nat) : bool :=
  Z.eqb (nodeIndex (gprInfoAt (entry_m_gprInfo entry) index)) NoNode &&
  (Z.eqb (nodeIndex (gprInfoAt (check_m_gprInfo check) index)) NoNode
   || negb (wantedByEntry entry (nodeIndex (gprInfoAt (check_m_gprInfo check) index)))).

Definition spillGPRsUpTo (graph : Graph) (check : SpeculationCheck)
           (entry : EntryLocation) (k : nat) : SpillGPRState :=
  forIndices k
    (spillGPRStep X graph check entry (entryNodeToRegisterMap (discover X check entry)))
    {| sg_shuffle := initialShuffle X;
       sg_scratchGPR := d_scratchGPR (discover X check entry);
       sg_code := [] |}.

(** [this :: rest] is a cycle of the shuffle graph: [previous] leads from
    each register to the following one and from the last back to [this],
    which the walk does not meet before. *)
Fixpoint cycleLinks (sh : Shuffle) (this cur : Ref) (rest : list Ref) : Prop :=
  match rest with
  | [] => previous (deref sh cur) = Some this
  | nxt :: rest' =>
      previous (deref sh cur) = Some nxt /\ Ref_eqb nxt this = false /\
      cycleLinks sh this nxt rest'
  end.

(** The moves that rotate a chain [cur :: rest]: each register receives
    the value of the one after it. *)
Fixpoint rotationMoves (check : SpeculationCheck) (entry : EntryLocation)
         (sh : Shuffle) (scratchFPR1 : FPRReg) (cur : Ref) (rest : list Ref)
  : list Instr :=
  match rest with
  | [] => []
  | nxt :: rest' =>
      moveTo X (reg (deref sh nxt)) (reg (deref sh cur))
             (previousDataFormat X (reg (deref sh nxt)) check)
             (nextDataFormat X (reg (deref sh cur)) entry) scratchFPR1
      ++ rotationMoves check entry sh scratchFPR1 nxt rest'
  end.

(** The scratch register of a long cycle: the second scratch FPR when the
    saved register and its successor are both FPRs and a second scratch
    FPR is there, the scratch GPR otherwise. *)
Definition cycleScratch (thisReg nextReg : GeneralizedRegister)
           (scratchGPR : GPRReg) (scratchFPR2 : FPRReg) : GeneralizedRegister :=
  if m_isFPR thisReg && m_isFPR nextReg && negb (Z.eqb scratchFPR2 InvalidFPRReg)
  then createFPR scratchFPR2
  else createGPR scratchGPR.

(** The exchange of two registers of which one at least is an FPR. *)
Definition exchangeThroughScratch (a b : GeneralizedRegister)
           (scratchGPR : GPRReg) (scratchFPR1 : FPRReg) : list Instr :=
  if m_isFPR a && m_isFPR b then
    [if Z.eqb scratchFPR1 InvalidFPRReg
     then moveDoubleToPtr (m_register a) scratchGPR
     else moveDouble (m_register a) scratchFPR1;
     moveDouble (m_register b) (m_register a);
     if Z.eqb scratchFPR1 InvalidFPRReg
     then movePtrToDouble scratchGPR (m_register b)
     else moveDouble scratchFPR1 (m_register b)]
  else
    let f := if m_isFPR a then a else b in
    let g := if m_isFPR a then b else a in
    [move (m_register g) scratchGPR]
    ++ boxDoubleInto X (m_register f) (m_register g) scratchFPR1
    ++ [unboxDouble scratchGPR (m_register f)].

(** The expected code for the cycle [this :: rest]. *)
Definition cycleCode (check : SpeculationCheck) (entry : EntryLocation)
           (sh : Shuffle) (this : Ref) (rest : list Ref)
           (scratchGPR : GPRReg) (scratchFPR1 scratchFPR2 : FPRReg) : list Instr :=
  let thisReg := reg (deref sh this) in
  match rest with
  | [] =>
      convert X thisReg (previousDataFormat X thisReg check)
              (nextDataFormat X thisReg entry)
  | [p] =>
      let prevReg := reg (deref sh p) in
      if m_isFPR thisReg || m_isFPR prevReg
      then exchangeThroughScratch thisReg prevReg scratchGPR scratchFPR1
      else
        swap (m_register thisReg) (m_register prevReg)
        :: convertAfterSwap X (m_register thisReg)
             (previousDataFormat X prevReg check) (nextDataFormat X thisReg entry)
        ++ convertAfterSwap X (m_register prevReg)
             (previousDataFormat X thisReg check) (nextDataFormat X prevReg entry)
  | _ =>
      let nextReg := reg (deref sh (last rest this)) in
      let scratch := cycleScratch thisReg nextReg scratchGPR scratchFPR2 in
      moveTo X thisReg scratch (previousDataFormat X thisReg check)
             (nextDataFormat X nextReg entry) scratchFPR1
      ++ rotationMoves check entry sh scratchFPR1 this rest
      ++ moveTo X scratch nextReg (nextDataFormat X nextReg entry)
                (nextDataFormat X nextReg entry) scratchFPR1
  end.

(** A register linked to itself by Part 1. *)
Definition selfLinked (r : GeneralizedRegister) (self : Ref) : ShuffledRegister :=
  {| reg := r; previous := Some self; hasFrom := true; hasTo := true;
     handled := false |}.

Definition occupied (infos : list RegisterInfo) (index : nat) : bool :=
  negb (Z.eqb (nodeIndex (gprInfoAt infos index)) NoNode).

(** The GPR array after Part 1 has gone over the first [k] GPRs of two
    identical maps, and likewise for the FPRs. *)
Definition linkedGPRs (infos : list RegisterInfo) (k : nat) : list ShuffledRegister :=
  map (fun i => if (i <? k) && occupied infos i
                then selfLinked (createGPR (GPRInfo_toRegister X i))
                                {| ref_isFPR := false; ref_index := i |}
                else newShuffledRegister (createGPR (GPRInfo_toRegister X i)))
      (seq 0 (GPRInfo_numberOfRegisters X)).

Definition linkedFPRs (infos : list RegisterInfo) (k : nat) : list ShuffledRegister :=
  map (fun i => if (i <? k) && occupied infos i
                then selfLinked (createFPR (FPRInfo_toRegister X i))
                                {| ref_isFPR := true; ref_index := i |}
                else newShuffledRegister (createFPR (FPRInfo_toRegister X i)))
      (seq 0 (FPRInfo_numberOfRegisters X)).

(** The shuffle graph of two identical maps: every occupied register is
    linked to itself, every other register is as it was created. *)
Definition linkedSelf (r : GeneralizedRegister) (self : Ref) (occ : bool)
           (s : ShuffledRegister) : Prop :=
  reg s = r /\
  if occ then previous s = Some self /\ hasFrom s = true /\ hasTo s = true
  else s = newShuffledRegister r.

Definition Linked (gprInfo fprInfo : list RegisterInfo) (sh : Shuffle) : Prop :=
  length (gprs sh) = GPRInfo_numberOfRegisters X /\
  length (fprs sh) = FPRInfo_numberOfRegisters X /\
  (forall i, i < GPRInfo_numberOfRegisters X ->
             linkedSelf (createGPR (GPRInfo_toRegister X i))
                        {| ref_isFPR := false; ref_index := i |}
                        (occupied gprInfo i)
                        (nth i (gprs sh) nullShuffledRegister)) /\
  (forall i, i < FPRInfo_numberOfRegisters X ->
             linkedSelf (createFPR (FPRInfo_toRegister X i))
                        {| ref_isFPR := true; ref_index := i |}
                        (occupied fprInfo i)
                        (nth i (fprs sh) nullShuffledRegister)).

(** *** The permutation graph of the shuffling phase *)

(** The registers of the two arrays, in the order of
    [lookupForRegister]. *)
Definition allRegisters : list Ref :=
  map (lookupForRegister X) (seq 0 (numberOfShuffledRegisters X)).

Definition validRef (r : Ref) : Prop :=
  ref_index r < (if ref_isFPR r then FPRInfo_numberOfRegisters X
                 else GPRInfo_numberOfRegisters X).

(** The index at which [lookupForRegister] yields [r]. *)
Definition position (r : Ref) : nat :=
  if ref_isFPR r then GPRInfo_numberOfRegisters X + ref_index r else ref_index r.

(** The machine register of an array cell, and its descriptor in a
    register state. *)
Definition registerOf (r : Ref) : GeneralizedRegister :=
  if ref_isFPR r then createFPR (FPRInfo_toRegister X (ref_index r))
  else createGPR (GPRInfo_toRegister X (ref_index r)).

Definition infoOf (gprInfo fprInfo : list RegisterInfo) (r : Ref) : RegisterInfo :=
  gprInfoAt (if ref_isFPR r then fprInfo else gprInfo) (ref_index r).

Definition sized (sh : Shuffle) : Prop :=
  length (gprs sh) = GPRInfo_numberOfRegisters X /\
  length (fprs sh) = FPRInfo_numberOfRegisters X.

(** The [previous] pointers form a partial injection between registers:
    [hasTo] marks its domain and [hasFrom] its range. *)
Record permutationGraph (sh : Shuffle) : Prop := {
  pg_sized : sized sh;
  pg_hasFrom :
    forall r p, previous (deref sh r) = Some p -> hasFrom (deref sh p) = true;
  pg_injective :
    forall a b c, previous (deref sh a) = Some c ->
                  previous (deref sh b) = Some c -> a = b;
  pg_hasTo :
    forall r, hasTo (deref sh r) = true <-> previous (deref sh r) <> None;
  pg_receiver :
    forall c, hasFrom (deref sh c) = true ->
              exists r, previous (deref sh r) = Some c
}.

(** Two shuffles that differ at most in their [handled] flags. *)
Definition sameGraph (sh sh' : Shuffle) : Prop :=
  sameLinks sh sh' /\
  (forall r, hasFrom (deref sh' r) = hasFrom (deref sh r) /\
             hasTo (deref sh' r) = hasTo (deref sh r)) /\
  length (gprs sh') = length (gprs sh) /\
  length (fprs sh') = length (fprs sh).

(** The handled registers are closed under [previous], in both
    directions, and contain every end of a chain. *)
Definition closedBackwards (sh : Shuffle) : Prop :=
  forall r c, handled (deref sh r) = true -> previous (deref sh r) = Some c ->
              handled (deref sh c) = true.

Definition closedForwards (sh : Shuffle) : Prop :=
  forall r c, handled (deref sh c) = true -> previous (deref sh r) = Some c ->
              handled (deref sh r) = true.

Definition endsHandled (sh : Shuffle) : Prop :=
  forall r, isEndOfNonCyclingPermutation (deref sh r) = true ->
            handled (deref sh r) = true.

(** What one iteration of Part 1 does to the shuffle graph, for the
    register [from] of the exit. *)
Definition linkStep (check : SpeculationCheck) (entryMap : NodeToRegisterMap)
           (from : Ref) (sh : Shuffle) : Shuffle :=
  let n := nodeIndex (infoOf (check_m_gprInfo check) (check_m_fprInfo check) from) in
  if Z.eqb n NoNode then sh
  else match map_find entryMap n with
       | Some t => linkTo X from (snd t) sh
       | None => sh
       end.

(** The graph Part 1 has built after the first [m] registers: links go
    from processed exit registers to the entry registers of the same
    node, and nothing is handled yet. *)
Definition linkedUpTo (check : SpeculationCheck) (entry : EntryLocation)
           (m : nat) (sh : Shuffle) : Prop :=
  permutationGraph sh /\
  (forall c, hasFrom (deref sh c) = true -> position c < m) /\
  (forall r c, previous (deref sh r) = Some c ->
               nodeIndex (infoOf (check_m_gprInfo check) (check_m_fprInfo check) c) =
               nodeIndex (infoOf (entry_m_gprInfo entry) (entry_m_fprInfo entry) r)) /\
  (forall r, handled (deref sh r) = false).

(** The handled registers after a chain or a cycle has been walked. *)
Definition shuffleInvariant (sh : Shuffle) : Prop :=
  permutationGraph sh /\ closedBackwards sh /\ closedForwards sh.

End Vocabulary.

(** The state in which the bridge enters the shuffling phase. *)
Definition stateBeforeShuffle (X : Externals) (graph : Graph)
           (check : SpeculationCheck) (entry : EntryLocation) : ShuffleState :=
  let d := discover X check entry in
  let sg := spillGPRs X graph check entry d in
  spillFPRs X graph check entry d sg (fst (chooseScratchGPR X (sg_scratchGPR sg))).

Definition gprRef (index : nat) : Ref := {| ref_isFPR := false; ref_index := index |}.
Definition fprRef (index : nat) : Ref := {| ref_isFPR := true; ref_index := index |}.

(** The register tables are consistent: [toIndex] inverts [toRegister]
    and no table entry is the invalid register. *)
Definition consistentTables (X : Externals) : Prop :=
  (forall i, i < GPRInfo_numberOfRegisters X ->
             GPRInfo_toIndex X (GPRInfo_toRegister X i) = i) /\
  (forall i, i < FPRInfo_numberOfRegisters X ->
             FPRInfo_toIndex X (FPRInfo_toRegister X i) = i) /\
  (forall j, j < GPRInfo_numberOfRegisters X ->
             GPRInfo_toRegister X j <> InvalidGPRReg).

(** The exit and the entry have the same register maps, no node is in two
    registers, and no format held needs a conversion into itself. *)
Definition identicalMaps (X : Externals) (check : SpeculationCheck)
           (entry : EntryLocation) : Prop :=
  entry_m_gprInfo entry = check_m_gprInfo check /\
  entry_m_fprInfo entry = check_m_fprInfo check /\
  NoDup (map fst (reverseMap X (check_m_gprInfo check) (check_m_fprInfo check))) /\
  (forall i, i < GPRInfo_numberOfRegisters X ->
             occupied (check_m_gprInfo check) i = true ->
             needDataFormatConversion X (format (gprInfoAt (check_m_gprInfo check) i))
                                      (format (gprInfoAt (check_m_gprInfo check) i))
             = false) /\
  (forall i, i < FPRInfo_numberOfRegisters X ->
             occupied (check_m_fprInfo check) i = true ->
             needDataFormatConversion X (format (gprInfoAt (check_m_fprInfo check) i))
                                      (format (gprInfoAt (check_m_fprInfo check) i))
             = false).

(** ** Concrete descriptors on the x86-64 tables *)

Definition holds (n : NodeIndex) (f : DataFormat) : RegisterInfo :=
  {| nodeIndex := n; format := f; isSpilled := false |}.

(** An exit whose last-set operand is local 2, on the x86-64 tables. *)
Definition exitWithLastSet : OSRExit :=
  {| m_check := 7%Z; m_nodeIndex := 1%Z; m_bytecodeIndex := 3%Z;
     m_recoveryIndex := 0; m_lastSetOperand := 2%Z;
     m_arguments := [AlreadyInRegisterFile];
     m_variables := [InGPR 3%Z; AlreadyInRegisterFile; Constant 10%Z] |}.

Definition baselineBlock : CodeBlock :=
  {| alternative := 5000%Z; counterValueForOptimizeAfterWarmUp := (-1000)%Z;
     jitCodeStart := 10000%Z |}.

Definition codeMap : list BytecodeAndMachineOffset :=
  [ {| bm_bytecodeIndex := 0%Z; bm_machineCodeOffset := 0%Z |};
    {| bm_bytecodeIndex := 3%Z; bm_machineCodeOffset := 64%Z |} ].

(** A speculation check whose registers all hold nothing but for the
    first GPR, which holds node 10 in the given format. *)
Definition checkWithFirstGPR (f : DataFormat) : SpeculationCheck :=
  {| check_m_check := 100%Z; check_m_nodeIndex := 1%Z; check_m_recoveryIndex := 0;
     check_m_gprInfo :=
       {| nodeIndex := 10%Z; format := f; isSpilled := false |}
         :: repeat unusedRegisterInfo 8;
     check_m_fprInfo := repeat unusedRegisterInfo 6 |}.

Definition undoAdd : SpeculationRecovery :=
  {| recovery_type := SpeculativeAdd; recovery_src := 2%Z; recovery_dest := 0%Z |}.

(** Variable 0 lives in [xmm1], variable 1 in [ebx]; variables 2 and 3
    are displaced into the home slots of variables 0 and 1. *)
Definition poisonedExit : OSRExit :=
  {| m_check := 7%Z; m_nodeIndex := 1%Z; m_bytecodeIndex := 3%Z;
     m_recoveryIndex := 0; m_lastSetOperand := int_max;
     m_arguments := [AlreadyInRegisterFile];
     m_variables := [InFPR 1%Z; InGPR 3%Z;
                     DisplacedInRegisterFile 0%Z; DisplacedInRegisterFile 1%Z] |}.

(** Variables 0 and 1 are unboxed integers in [eax] and [ebx], variable 2
    is a boxed value in [ecx]. *)
Definition unboxedExit : OSRExit :=
  {| m_check := 7%Z; m_nodeIndex := 1%Z; m_bytecodeIndex := 3%Z;
     m_recoveryIndex := 0; m_lastSetOperand := int_max;
     m_arguments := [AlreadyInRegisterFile];
     m_variables := [UnboxedInt32InGPR 0%Z; UnboxedInt32InGPR 3%Z; InGPR 1%Z] |}.

(** Variables 0 and 1 have traded home slots. *)
Definition swappedExit : OSRExit :=
  {| m_check := 7%Z; m_nodeIndex := 1%Z; m_bytecodeIndex := 3%Z;
     m_recoveryIndex := 0; m_lastSetOperand := int_max;
     m_arguments := [AlreadyInRegisterFile];
     m_variables := [DisplacedInRegisterFile 1%Z; DisplacedInRegisterFile 0%Z] |}.

(** The machine on entry to the emitted code. *)
Definition entryMachine : Machine :=
  {| mach_gpr := InitialGPR; mach_fpr := InitialFPR; mach_mem := InitialMem |}.

(** At the exit node 10 is in [xmm0] and [xmm1] is free; nodes 12 and 13
    are in [xmm2] and [xmm3], nodes 14 and 15 in [xmm4] and [xmm5].  No GPR
    is in use. *)
Definition lostValueCheck : SpeculationCheck :=
  {| check_m_check := 100%Z; check_m_nodeIndex := 1%Z; check_m_recoveryIndex := 0;
     check_m_gprInfo := repeat unusedRegisterInfo 9;
     check_m_fprInfo :=
       [holds 10%Z DataFormatDouble; unusedRegisterInfo;
        holds 12%Z DataFormatDouble; holds 13%Z DataFormatDouble;
        holds 14%Z DataFormatDouble; holds 15%Z DataFormatDouble] |}.

(** The entry wants node 10 in [xmm1], nodes 12 and 13 exchanged, nodes 14
    and 15 where they are, and the constant node 20 in [xmm0]. *)
Definition lostValueEntry : EntryLocation :=
  {| entry_m_entry := 200%Z; entry_m_nodeIndex := 1%Z;
     entry_m_gprInfo := repeat unusedRegisterInfo 9;
     entry_m_fprInfo :=
       [holds 20%Z DataFormatDouble; holds 10%Z DataFormatDouble;
        holds 13%Z DataFormatDouble; holds 12%Z DataFormatDouble;
        holds 14%Z DataFormatDouble; holds 15%Z DataFormatDouble] |}.

(** Node 20 is the number constant 1.5; every other node is a value whose
    home slot is its own number. *)
Definition lostValueGraph : Graph :=
  fun n =>
    {| node_isConstant := Z.eqb n 20;
       node_isInt32Constant := false;
       node_isNumberConstant := Z.eqb n 20;
       node_valueOfInt32Constant := 0%Z;
       node_valueOfNumberConstant := 0x3ff8000000000000%Z;
       node_valueOfJSConstant := 0%Z;
       node_virtualRegister := n |}.

(** Every GPR holds a node of its own (nodes 30 to 38), boxed, on both
    sides; no FPR is in use. *)
Definition fullGPRInfo : list RegisterInfo :=
  map (fun i => holds (30 + Z.of_nat i)%Z DataFormatJS) (seq 0 9).

Definition fullCheck : SpeculationCheck :=
  {| check_m_check := 100%Z; check_m_nodeIndex := 1%Z; check_m_recoveryIndex := 0;
     check_m_gprInfo := fullGPRInfo;
     check_m_fprInfo := repeat unusedRegisterInfo 6 |}.

Definition fullEntry : EntryLocation :=
  {| entry_m_entry := 200%Z; entry_m_nodeIndex := 1%Z;
     entry_m_gprInfo := fullGPRInfo;
     entry_m_fprInfo := repeat unusedRegisterInfo 6 |}.

(** As [fullEntry], but the entry has no use for the first GPR nor for
    the node the exit holds there. *)
Definition entryWithoutFirst : EntryLocation :=
  {| entry_m_entry := 200%Z; entry_m_nodeIndex := 1%Z;
     entry_m_gprInfo := unusedRegisterInfo :: tl fullGPRInfo;
     entry_m_fprInfo := repeat unusedRegisterInfo 6 |}.

(** Nodes 10 and 11, boxed, trade the first two GPRs. *)
Definition twoCycleCheck : SpeculationCheck :=
  {| check_m_check := 100%Z; check_m_nodeIndex := 1%Z; check_m_recoveryIndex := 0;
     check_m_gprInfo := [holds 10%Z DataFormatJS; holds 11%Z DataFormatJS]
                          ++ repeat unusedRegisterInfo 7;
     check_m_fprInfo := repeat unusedRegisterInfo 6 |}.

Definition twoCycleEntry : EntryLocation :=
  {| entry_m_entry := 200%Z; entry_m_nodeIndex := 1%Z;
     entry_m_gprInfo := [holds 11%Z DataFormatJS; holds 10%Z DataFormatJS]
                          ++ repeat unusedRegisterInfo 7;
     entry_m_fprInfo := repeat unusedRegisterInfo 6 |}.

(** An exit and an entry with the same two occupied GPRs. *)
Definition sameEntry : EntryLocation :=
  {| entry_m_entry := 200%Z; entry_m_nodeIndex := 1%Z;
     entry_m_gprInfo := check_m_gprInfo twoCycleCheck;
     entry_m_fprInfo := check_m_fprInfo twoCycleCheck |}.

(** * Further code of the files

    The callers of the two emitters, the sampling flags, and the two
    [wtf] files. *)

(** ** The callers of the two emitters *)

(** Emitters called one after the other on the same assembler: the code
    of all of them, or [None] when one of them fails. *)
Fixpoint emitAll (A : Type) (emitter : A -> option (list Instr)) (l : list A)
  : option (list Instr) :=
  match l with
  | [] => Some []
  | x :: rest =>
      match emitter x with
      | None => None
      | Some code =>
          match emitAll emitter rest with
          | None => None
          | Some more => Some (code ++ more)
          end
      end
  end.

(** [JITCompiler::linkOSRExits].  [speculationRecovery] stands for
    [SpeculativeJIT::speculationRecovery], declared in
    [DFGSpeculativeJIT.h]; [decodedCodeMap] is the decoded code map of the
    baseline code block. *)
Definition linkOSRExits (X : Externals) (codeBlock : CodeBlock)
           (speculationRecovery : nat -> option SpeculationRecovery)
           (decodedCodeMap : list BytecodeAndMachineOffset)
           (osrExits : list OSRExit) : option (list Instr) :=
  emitAll (fun exit =>
             exitSpeculativeWithOSR X codeBlock exit
               (speculationRecovery (m_recoveryIndex exit)) decodedCodeMap)
          osrExits.

(** The iterations of the [do ... while] loop of [linkSpeculationChecks]
    after the first: the checks that follow and have the node index of the
    entry, and the checks left. *)
Fixpoint checksOfEntry (entry : EntryLocation) (checks : list SpeculationCheck)
  : list SpeculationCheck * list SpeculationCheck :=
  match checks with
  | check :: rest =>
      if Z.eqb (check_m_nodeIndex check) (entry_m_nodeIndex entry)
      then let '(same, others) := checksOfEntry entry rest in (check :: same, others)
      else ([], checks)
  | [] => ([], [])
  end.

(** The two nested loops of [linkSpeculationChecks]: the pairs handed to
    [jumpFromSpeculativeToNonSpeculative], in order.  The first check of a
    round is linked to the current entry whatever its node index (the
    source only asserts that they agree).  [None]: checks are left when
    the entries have run out, and the source reads the end iterator. *)
Fixpoint pairedChecks (entries : list EntryLocation) (checks : list SpeculationCheck)
         {struct entries} : option (list (SpeculationCheck * EntryLocation)) :=
  match checks with
  | [] => Some []
  | check :: rest =>
      match entries with
      | [] => None
      | entry :: entries' =>
          let '(same, others) := checksOfEntry entry rest in
          match pairedChecks entries' others with
          | None => None
          | Some pairs =>
              Some ((check, entry) :: map (fun c => (c, entry)) same ++ pairs)
          end
      end
  end.

(** [JITCompiler::linkSpeculationChecks]; the two reverse maps it passes
    down are cleared by every bridge. *)
Definition linkSpeculationChecks (X : Externals) (graph : Graph)
           (speculationRecovery : nat -> option SpeculationRecovery)
           (checks : list SpeculationCheck) (entries : list EntryLocation)
  : option (list Instr) :=
  match pairedChecks entries checks with
  | None => None
  | Some pairs =>
      emitAll (fun p =>
                 jumpFromSpeculativeToNonSpeculative X graph (fst p) (snd p)
                   (speculationRecovery (check_m_recoveryIndex (fst p))))
              pairs
  end.

(** Checks that arrive in rounds: every round is the entry it goes to and
    its checks. *)
Definition checkRounds : Type := list (EntryLocation * list SpeculationCheck).

Definition roundWellFormed (g : EntryLocation * list SpeculationCheck) : Prop :=
  snd g <> [] /\
  forall c, In c (snd g) -> check_m_nodeIndex c = entry_m_nodeIndex (fst g).

(** Neighbours in the list differ. *)
Fixpoint adjacentDistinct (l : list Z) : Prop :=
  match l with
  | a :: (b :: _) as t => a <> b /\ adjacentDistinct t
  | _ => True
  end.

(** A check and an entry for a later node: the two-cycle of
    [twoCycleCheck], at node 2. *)
Definition laterCheck : SpeculationCheck :=
  {| check_m_check := 101%Z; check_m_nodeIndex := 2%Z; check_m_recoveryIndex := 0;
     check_m_gprInfo := check_m_gprInfo twoCycleCheck;
     check_m_fprInfo := check_m_fprInfo twoCycleCheck |}.

Definition laterEntry : EntryLocation :=
  {| entry_m_entry := 300%Z; entry_m_nodeIndex := 2%Z;
     entry_m_gprInfo := entry_m_gprInfo twoCycleEntry;
     entry_m_fprInfo := entry_m_fprInfo twoCycleEntry |}.

(** ** The scratch cells of emitted code *)

(** The cell of the OSR scratch buffer an instruction reads or writes. *)
Definition scratchCellOf (i : Instr) : option nat :=
  match i with
  | storePtr _ (scratchBufferAt k)
  | storePtrImm _ (scratchBufferAt k)
  | store32Imm _ (scratchBufferAt k)
  | loadPtr (scratchBufferAt k) _
  | load32 (scratchBufferAt k) _ => Some k
  | _ => None
  end.

(** Every scratch cell the code touches is below [n]. *)
Definition cellsBelow (n : nat) (code : list Instr) : Prop :=
  forall i k, In i code -> scratchCellOf i = Some k -> k < n.

(** ** [wtf/PageBlock.cpp] *)

Module PageBlock.

(** [EA::WebKit::Allocator], as far as [systemPageSize] asks it. *)
Record Allocator : Type := {
  SupportsOSMemoryManagement : bool;
  SystemPageSize : Z
}.

(** [systemPageSize()] of the [PLATFORM(EA)] build. *)
Definition systemPageSize (pAllocator : Allocator) : Z :=
  if SupportsOSMemoryManagement pAllocator
  then SystemPageSize pAllocator
  else 4096%Z.

(** [pageSize()]: what it returns and the static [s_pageSize] it leaves;
    [pAllocator] is what [EA::WebKit::GetAllocator()] gives at this
    call. *)
Definition pageSize (pAllocator : Allocator) (s_pageSize : Z) : Z * Z :=
  let s_pageSize' :=
    if Z.eqb s_pageSize 0 then systemPageSize pAllocator else s_pageSize in
  (s_pageSize', s_pageSize').

(** What successive calls return, from the static as the program starts
    with it. *)
Fixpoint pageSizes (allocators : list Allocator) (s_pageSize : Z) : list Z :=
  match allocators with
  | [] => []
  | pAllocator :: rest =>
      fst (pageSize pAllocator s_pageSize)
      :: pageSizes rest (snd (pageSize pAllocator s_pageSize))
  end.

End PageBlock.

(** ** [wtf/ThreadingPthreads.cpp]: the thread map *)

Module ThreadingPthreads.

(** [ThreadIdentifier] is an unsigned of 32 bits; a [pthread_t] is the
    number of its handle, and [pthread_equal] is equality. *)
Definition ThreadIdentifier := Z.
Definition pthread_t := Z.

Definition wrap32 (z : Z) : Z := (z mod 2 ^ 32)%Z.

(** [ThreadMap] is a [HashMap<ThreadIdentifier, pthread_t>]: a table with
    one entry per key at most, here in the order the entries were added.
    [add] leaves an existing entry alone, [get] of a key that is not there
    is the empty value 0.  The table of [wtf/HashMap.h] cannot hold the
    keys 0 and [2^32 - 1]; the properties of this file are stated for the
    runs that do not hand it one ([respectsTable] below). *)
Definition ThreadMap : Type := list (ThreadIdentifier * pthread_t).

Definition contains (m : ThreadMap) (id : ThreadIdentifier) : bool :=
  existsb (fun e => Z.eqb (fst e) id) m.

Definition add (m : ThreadMap) (id : ThreadIdentifier) (h : pthread_t) : ThreadMap :=
  if contains m id then m else m ++ [(id, h)].

Fixpoint get (m : ThreadMap) (id : ThreadIdentifier) : pthread_t :=
  match m with
  | [] => 0%Z
  | e :: rest => if Z.eqb (fst e) id then snd e else get rest id
  end.

Definition remove (m : ThreadMap) (id : ThreadIdentifier) : ThreadMap :=
  filter (fun e => negb (Z.eqb (fst e) id)) m.

(** The statics of the file: [threadMap()], [identifierCount] of
    [establishIdentifierForPthreadHandle] and [gNoWorkerThreadsRunning].
    Every function below holds [threadMapMutex()] for its whole body. *)
Record State : Type := {
  threadMap : ThreadMap;
  identifierCount : ThreadIdentifier;
  gNoWorkerThreadsRunning : bool
}.

Definition initialState : State :=
  {| threadMap := []; identifierCount := 1%Z; gNoWorkerThreadsRunning := true |}.

Definition identifierByPthreadHandle (s : State) (pthreadHandle : pthread_t)
  : ThreadIdentifier :=
  match find (fun e => Z.eqb (snd e) pthreadHandle) (threadMap s) with
  | Some e => fst e
  | None => 0%Z
  end.

Definition establishIdentifierForPthreadHandle (s : State) (pthreadHandle : pthread_t)
  : ThreadIdentifier * State :=
  let m := add (threadMap s) (identifierCount s) pthreadHandle in
  (identifierCount s,
   {| threadMap := m;
      identifierCount := wrap32 (identifierCount s + 1);
      gNoWorkerThreadsRunning :=
        if 1 <? length m then false else gNoWorkerThreadsRunning s |}).

Definition pthreadHandleForIdentifier (s : State) (id : ThreadIdentifier) : pthread_t :=
  get (threadMap s) id.

Definition clearPthreadHandleForIdentifier (s : State) (id : ThreadIdentifier) : State :=
  let m := remove (threadMap s) id in
  {| threadMap := m;
     identifierCount := identifierCount s;
     gNoWorkerThreadsRunning :=
       if length m <=? 1 then true else gNoWorkerThreadsRunning s |}.

(** [createThreadInternal]: [created] is what [pthread_create] returns and
    [threadHandle] the handle it fills in. *)
Definition createThreadInternal (s : State) (created : Z) (threadHandle : pthread_t)
  : ThreadIdentifier * State :=
  if negb (Z.eqb created 0) then (0%Z, s)
  else establishIdentifierForPthreadHandle s threadHandle.

(** [waitForThreadCompletion]: what it returns and the handles it has
    joined; [joinResult] is what [pthread_join] returns. *)
Definition waitForThreadCompletion (s : State) (threadID : ThreadIdentifier)
           (joinResult : pthread_t -> Z) : Z * list pthread_t :=
  let pthreadHandle := pthreadHandleForIdentifier s threadID in
  if Z.eqb pthreadHandle 0 then (0%Z, [])
  else (joinResult pthreadHandle, [pthreadHandle]).

(** [detachThread]: the handles it has detached. *)
Definition detachThread (s : State) (threadID : ThreadIdentifier) : list pthread_t :=
  let pthreadHandle := pthreadHandleForIdentifier s threadID in
  if Z.eqb pthreadHandle 0 then [] else [pthreadHandle].

(** [currentThread]: [self] is [pthread_self()] and [stored] the
    identifier [ThreadIdentifierData] keeps for the calling thread (0 when
    none); it returns the identifier, what [ThreadIdentifierData] keeps
    afterwards, and the statics. *)
Definition currentThread (self : pthread_t) (stored : ThreadIdentifier) (s : State)
  : ThreadIdentifier * ThreadIdentifier * State :=
  if negb (Z.eqb stored 0) then (stored, stored, s)
  else
    let '(id, s') := establishIdentifierForPthreadHandle s self in
    (id, id, s').

(** The calls that change the statics. *)
Inductive Call : Type :=
| Establish (pthreadHandle : pthread_t)
| Clear (id : ThreadIdentifier).

Definition call (s : State) (c : Call) : State :=
  match c with
  | Establish h => snd (establishIdentifierForPthreadHandle s h)
  | Clear id => clearPthreadHandleForIdentifier s id
  end.

(** The statics after a run of calls from the start of the program. *)
Definition after (calls : list Call) : State := fold_left call calls initialState.

Definition isEstablish (c : Call) : bool :=
  match c with Establish _ => true | Clear _ => false end.

(** How many identifiers the calls have issued. *)
Definition issued (calls : list Call) : Z :=
  Z.of_nat (length (filter isEstablish calls)).

(** The keys the hash table can hold: 0 and [2^32 - 1] are its empty and
    its deleted value. *)
Definition isKey (id : ThreadIdentifier) : bool :=
  ((0 <? id) && (id <? 2 ^ 32 - 1))%Z.

Definition clearsKey (c : Call) : bool :=
  match c with Establish _ => true | Clear id => isKey id end.

(** A run that hands the hash table keys only: the identifiers issued,
    which are 1 to [issued calls], and the identifiers cleared. *)
Definition respectsTable (calls : list Call) : bool :=
  ((issued calls <? 2 ^ 32 - 1)%Z && forallb clearsKey calls)%bool.

End ThreadingPthreads.

(** ** The sampling flags of [DFGJITCompiler.cpp] *)

Module SamplingFlags.

(** The immediate [1u << (flag - 1)] of [setSamplingFlag], an unsigned of
    32 bits. *)
Definition setImmediate (flag : Z) : Z := (Z.shiftl 1 (flag - 1) mod 2 ^ 32)%Z.

(** The immediate [~(1u << (flag - 1))] of [clearSamplingFlag]. *)
Definition clearImmediate (flag : Z) : Z := (Z.lnot (setImmediate flag) mod 2 ^ 32)%Z.

(** The word of flags after the [or32] that [setSamplingFlag] emits has
    run on it. *)
Definition setSamplingFlag (flag flags : Z) : Z := Z.lor flags (setImmediate flag).

(** The word of flags after the [and32] that [clearSamplingFlag] emits has
    run on it. *)
Definition clearSamplingFlag (flag flags : Z) : Z := Z.land flags (clearImmediate flag).

End SamplingFlags.

(** * Properties *)

(** ** Loops *)

Lemma forIndices_S (S : Type) (n : nat) (body : nat -> S -> S) (s : S) :
  forIndices (Datatypes.S n) body s = body n (forIndices n body s).
Proof.
  unfold forIndices. rewrite seq_S, fold_left_app. reflexivity.
Qed.

Lemma forIndices_0 (S : Type) (body : nat -> S -> S) (s : S) :
  forIndices 0 body s = s.
Proof. reflexivity. Qed.

(** Loop invariants: [P k s] holds of the state after [k] iterations. *)
Lemma forIndices_invariant (S : Type) (P : nat -> S -> Prop) (n : nat)
      (body : nat -> S -> S) (s : S) :
  P 0 s ->
  (forall k acc, k < n -> P k acc -> P (Datatypes.S k) (body k acc)) ->
  P n (forIndices n body s).
Proof.
  intros H0 Hstep.
  assert (G : forall k, k <= n -> P k (forIndices k body s)).
  { induction k as [|k IH]; intros Hk.
    - exact H0.
    - rewrite forIndices_S. apply Hstep; [lia | apply IH; lia]. }
  apply G. lia.
Qed.

Lemma flat_map_seq_S (A : Type) (f : nat -> list A) (n : nat) :
  flat_map f (seq 0 (S n)) = flat_map f (seq 0 n) ++ f n.
Proof.
  rewrite seq_S, flat_map_app. simpl. rewrite app_nil_r. reflexivity.
Qed.

Lemma flat_map_nil_seq (A : Type) (f : nat -> list A) (n : nat) :
  (forall k, k < n -> f k = []) -> flat_map f (seq 0 n) = [].
Proof.
  induction n as [|n IH]; intros H; [reflexivity|].
  rewrite flat_map_seq_S, IH, H; auto.
Qed.

Section OSRExitProperties.

Variable X : Externals.

(** *** The classification flags and counters *)

Lemma classify_haveUnboxedInt32s (exit : OSRExit) :
  haveUnboxedInt32s (classify X exit) = existsb isUnboxedInt32 (recoveries X exit).
Proof.
  unfold classify, recoveries.
  apply (forIndices_invariant
           (fun k c => haveUnboxedInt32s c =
                       existsb isUnboxedInt32 (map (valueRecovery X exit) (seq 0 k)))).
  - reflexivity.
  - intros k acc _ IH.
    rewrite seq_S, map_app, existsb_app. simpl. rewrite orb_false_r, <- IH.
    unfold classifyStep.
    destruct (valueRecovery X exit k); simpl;
      repeat match goal with |- context [if ?b then _ else _] => destruct b end;
      simpl; rewrite ?orb_false_r, ?orb_true_r; reflexivity.
Qed.

Lemma classify_numberOfDisplaced (exit : OSRExit) :
  numberOfDisplacedVirtualRegisters (classify X exit) =
  length (filter isDisplaced (recoveries X exit)).
Proof.
  unfold classify, recoveries.
  apply (forIndices_invariant
           (fun k c => numberOfDisplacedVirtualRegisters c =
                       length (filter isDisplaced (map (valueRecovery X exit) (seq 0 k))))).
  - reflexivity.
  - intros k acc _ IH.
    rewrite seq_S, map_app, filter_app, length_app, <- IH. simpl.
    unfold classifyStep.
    destruct (valueRecovery X exit k); simpl;
      repeat match goal with |- context [if ?b then _ else _] => destruct b end;
      simpl; lia.
Qed.

(** The guard [haveUnboxedInt32s] only skips a loop that would emit
    nothing. *)
Lemma reboxIntegers_unguarded (exit : OSRExit) (alreadyBoxed : GPRReg) :
  reboxIntegers X exit (classify X exit) alreadyBoxed =
  flat_map (reboxStep X exit alreadyBoxed) (seq 0 (numberOfRecoveries X exit)).
Proof.
  unfold reboxIntegers. rewrite classify_haveUnboxedInt32s.
  destruct (existsb isUnboxedInt32 (recoveries X exit)) eqn:E; [reflexivity|].
  symmetry. apply flat_map_nil_seq. intros k Hk.
  unfold reboxStep.
  destruct (valueRecovery X exit k) eqn:R; try reflexivity.
  exfalso.
  assert (In (valueRecovery X exit k) (recoveries X exit)).
  { unfold recoveries. apply in_map, in_seq. lia. }
  assert (existsb isUnboxedInt32 (recoveries X exit) = true).
  { apply existsb_exists. eexists; split; [eassumption|]. rewrite R. reflexivity. }
  congruence.
Qed.

Lemma flat_map_map (A B C : Type) (f : A -> B) (g : B -> list C) (l : list A) :
  flat_map g (map f l) = flat_map (fun x => g (f x)) l.
Proof. induction l; simpl; congruence. Qed.

Lemma map_flat_map (A B C : Type) (f : B -> C) (g : A -> list B) (l : list A) :
  map f (flat_map g l) = flat_map (fun x => map f (g x)) l.
Proof. induction l; simpl; [reflexivity|]. rewrite map_app. congruence. Qed.

(** No step of the exit after the reboxing emits an or. *)
Lemma forIndices_orPtrs (n : nat) (body : nat -> Emit -> Emit) (e : Emit) :
  (forall k acc, filter isOrPtr (fst (body k acc)) = filter isOrPtr (fst acc)) ->
  filter isOrPtr (fst (forIndices n body e)) = filter isOrPtr (fst e).
Proof.
  intros H.
  apply (forIndices_invariant
           (fun _ acc => filter isOrPtr (fst acc) = filter isOrPtr (fst e)));
    [reflexivity|].
  intros k acc _ IH. rewrite H. exact IH.
Qed.

Lemma dumpGPRs_orPtrs (exit : OSRExit) (c : Classification) (e : Emit) :
  filter isOrPtr (fst (dumpGPRs X exit c e)) = filter isOrPtr (fst e).
Proof.
  unfold dumpGPRs. apply forIndices_orPtrs. intros k acc. unfold dumpGPRStep.
  destruct (valueRecovery X exit k); try reflexivity;
    destruct (isPoisonedIndex X exit c k); simpl;
    rewrite filter_app; simpl; apply app_nil_r.
Qed.

Lemma dumpFPRs_orPtrs (exit : OSRExit) (c : Classification) (e : Emit) :
  filter isOrPtr (fst (dumpFPRs X exit c e)) = filter isOrPtr (fst e).
Proof.
  unfold dumpFPRs. destruct (haveFPRs c); [|reflexivity].
  rewrite forIndices_orPtrs.
  - simpl. rewrite filter_app.
    replace (filter isOrPtr
               (flat_map (boxDoubleStep X exit) (seq 0 (numberOfRecoveries X exit))))
      with (@nil Instr); [apply app_nil_r|].
    symmetry. induction (seq 0 (numberOfRecoveries X exit)) as [|k l IH];
      [reflexivity|].
    simpl. rewrite filter_app, IH, app_nil_r. unfold boxDoubleStep.
    destruct (valueRecovery X exit k); reflexivity.
  - intros k acc. unfold dumpFPRStep.
    destruct (valueRecovery X exit k); try reflexivity.
    destruct (isPoisonedIndex X exit c k); simpl;
      rewrite filter_app; simpl; apply app_nil_r.
Qed.

Lemma reshuffleDisplaced_orPtrs (exit : OSRExit) (c : Classification)
      (scratchIndex : nat) :
  filter isOrPtr (reshuffleDisplaced X exit c scratchIndex) = [].
Proof.
  unfold reshuffleDisplaced.
  destruct (Nat.eqb (numberOfDisplacedVirtualRegisters c) 0); [reflexivity|].
  destruct (numberOfDisplacedVirtualRegisters c <=? GPRInfo_numberOfRegisters X).
  - rewrite forIndices_orPtrs.
    + simpl. rewrite forIndices_orPtrs; [reflexivity|].
      intros k acc. unfold loadDisplacedStep.
      destruct (valueRecovery X exit k); try reflexivity.
      simpl. rewrite filter_app. simpl. apply app_nil_r.
    + intros k acc. unfold storeDisplacedStep.
      destruct (valueRecovery X exit k); try reflexivity.
      simpl. rewrite filter_app. simpl. apply app_nil_r.
  - rewrite forIndices_orPtrs.
    + simpl. rewrite forIndices_orPtrs; [reflexivity|].
      intros k acc. unfold liftDisplacedStep.
      destruct (valueRecovery X exit k); try reflexivity.
      simpl. rewrite !filter_app. simpl. rewrite !app_nil_r. reflexivity.
    + intros k acc. unfold dropDisplacedStep.
      destruct (valueRecovery X exit k); try reflexivity.
      simpl. rewrite !filter_app. simpl. rewrite !app_nil_r. reflexivity.
Qed.

Lemma dumpPoisoned_orPtrs (exit : OSRExit) (c : Classification) :
  filter isOrPtr (dumpPoisoned X exit c) = [].
Proof.
  unfold dumpPoisoned.
  destruct (Nat.eqb (numberOfPoisonedVirtualRegisters c) 0); [reflexivity|].
  rewrite forIndices_orPtrs; [reflexivity|].
  intros k acc. unfold dumpPoisonedStep.
  destruct (negb (nth k (poisonedVirtualRegisters c) false)); [reflexivity|].
  destruct (isInRegister (nth k (m_variables exit) DontKnow)); [|reflexivity].
  simpl. rewrite !filter_app. simpl. rewrite !app_nil_r. reflexivity.
Qed.

Lemma dumpConstants_orPtrs (exit : OSRExit) (c : Classification) :
  filter isOrPtr (dumpConstants X exit c) = [].
Proof.
  unfold dumpConstants. destruct (haveConstants c); [|reflexivity].
  rewrite filter_app.
  replace (filter isOrPtr
             (flat_map (dumpConstantStep X exit) (seq 0 (numberOfRecoveries X exit))))
    with (@nil Instr).
  - destruct (haveUndefined c); reflexivity.
  - symmetry. induction (seq 0 (numberOfRecoveries X exit)) as [|k l IH];
      [reflexivity|].
    simpl. rewrite filter_app, IH, app_nil_r. unfold dumpConstantStep.
    destruct (valueRecovery X exit k); try reflexivity.
    destruct (isUndefined X constant); reflexivity.
Qed.

(** C8: the reboxing step of the OSR exit emitter is, in recovery order,
    one [orPtr] of the integer tag register into the GPR of each recovery
    whose technique is [UnboxedInt32InGPR] and whose GPR is not the one the
    recovery pre-pass boxed; nothing else is emitted by the step.  The
    register skipped is the destination of a [SpeculativeAdd] recovery and
    no register otherwise.  In the code of the exit the step comes right
    after the recovery pre-pass, before the dump of the GPRs, and the exit
    has no other or: the ors of its code are those of the pre-pass
    followed by those of the step. *)
Theorem osr_rebox_exactly_unboxed_int32 (exit : OSRExit)
        (recovery : option SpeculationRecovery) :
  snd (osrRecovery X recovery) = alreadyBoxedBy recovery /\
  reboxIntegers X exit (classify X exit) (alreadyBoxedBy recovery) =
  map (orPtr (tagTypeNumberRegister X))
      (flat_map (needsRebox (alreadyBoxedBy recovery)) (recoveries X exit)) /\
  (forall i : Instr,
      In i (reboxIntegers X exit (classify X exit) (alreadyBoxedBy recovery)) <->
      exists index gpr,
        index < numberOfRecoveries X exit /\
        valueRecovery X exit index = UnboxedInt32InGPR gpr /\
        gpr <> alreadyBoxedBy recovery /\
        i = orPtr (tagTypeNumberRegister X) gpr) /\
  (forall codeBlock decodedCodeMap mapping,
      binarySearch X decodedCodeMap (m_bytecodeIndex exit) = Some mapping ->
      exists code,
        exitSpeculativeWithOSR X codeBlock exit recovery decodedCodeMap = Some code /\
        code =
          [Link (CheckJump (m_check exit))]
          ++ fst (osrRecovery X recovery)
          ++ map (orPtr (tagTypeNumberRegister X))
                 (flat_map (needsRebox (alreadyBoxedBy recovery)) (recoveries X exit))
          ++ fst (dumpFPRs X exit (classify X exit)
                           (dumpGPRs X exit (classify X exit) ([], 0)))
          ++ reshuffleDisplaced X exit (classify X exit)
               (snd (dumpFPRs X exit (classify X exit)
                              (dumpGPRs X exit (classify X exit) ([], 0))))
          ++ dumpPoisoned X exit (classify X exit)
          ++ dumpConstants X exit (classify X exit)
          ++ [store32Imm (counterValueForOptimizeAfterWarmUp codeBlock)
                         addressOfExecuteCounter]
          ++ loadLastSetOperand X exit
          ++ [storePtrImm (alternative codeBlock)
                          (addressFor (RegisterFile_CodeBlock X));
              moveImmPtr (jitCodeStart codeBlock + bm_machineCodeOffset mapping)%Z
                         (regT1 X);
              jumpReg (regT1 X)] /\
        filter isOrPtr code =
          filter isOrPtr (fst (osrRecovery X recovery))
          ++ map (orPtr (tagTypeNumberRegister X))
                 (flat_map (needsRebox (alreadyBoxedBy recovery)) (recoveries X exit))).
Proof.
  assert (E : reboxIntegers X exit (classify X exit) (alreadyBoxedBy recovery) =
              map (orPtr (tagTypeNumberRegister X))
                  (flat_map (needsRebox (alreadyBoxedBy recovery)) (recoveries X exit))).
  { rewrite reboxIntegers_unguarded. unfold recoveries.
    rewrite flat_map_map, map_flat_map.
    apply flat_map_ext. intros index. unfold reboxStep, needsRebox.
    destruct (valueRecovery X exit index); try reflexivity.
    destruct (Z.eqb gpr (alreadyBoxedBy recovery)); reflexivity. }
  assert (Eb : snd (osrRecovery X recovery) = alreadyBoxedBy recovery).
  { destruct recovery as [r|]; [|reflexivity].
    unfold osrRecovery, alreadyBoxedBy. destruct (recovery_type r); reflexivity. }
  split; [exact Eb|]. split; [exact E|]. split.
  - intros i. rewrite E, in_map_iff. split.
    + intros (gpr & <- & Hin). apply in_flat_map in Hin.
      destruct Hin as (r & Hr & Hg). unfold recoveries in Hr.
      apply in_map_iff in Hr. destruct Hr as (index & <- & Hidx).
      apply in_seq in Hidx. unfold needsRebox in Hg.
      destruct (valueRecovery X exit index) eqn:R; try contradiction.
      destruct (Z.eqb_spec gpr0 (alreadyBoxedBy recovery)); [contradiction|].
      destruct Hg as [->|[]].
      exists index, gpr. repeat split; auto. lia.
    + intros (index & gpr & Hidx & R & Hne & ->).
      exists gpr. split; [reflexivity|].
      apply in_flat_map. exists (UnboxedInt32InGPR gpr). split.
      * rewrite <- R. unfold recoveries. apply in_map, in_seq. lia.
      * simpl. destruct (Z.eqb_spec gpr (alreadyBoxedBy recovery)); [contradiction|].
        left; reflexivity.
  - intros codeBlock decodedCodeMap mapping H.
    unfold exitSpeculativeWithOSR. rewrite H.
    destruct (osrRecovery X recovery) as [recoveryCode alreadyBoxed] eqn:Er.
    simpl in Eb. subst alreadyBoxed. rewrite E.
    eexists. split; [reflexivity|]. split; [reflexivity|].
    cbn [fst].
    assert (Eor : forall l : list GPRReg,
               filter isOrPtr (map (orPtr (tagTypeNumberRegister X)) l) =
               map (orPtr (tagTypeNumberRegister X)) l).
    { induction l as [|g l IH]; [reflexivity|]. simpl. rewrite IH. reflexivity. }
    rewrite !filter_app, Eor, dumpFPRs_orPtrs, dumpGPRs_orPtrs,
      reshuffleDisplaced_orPtrs, dumpPoisoned_orPtrs, dumpConstants_orPtrs.
    unfold loadLastSetOperand.
    destruct (negb (Z.eqb (m_lastSetOperand exit) int_max)); simpl;
      rewrite ?app_nil_r; reflexivity.
Qed.

(** *** The scratch buffer size *)

Lemma nth_map_seq (A : Type) (f : nat -> A) (n j : nat) (d : A) :
  j < n -> nth j (map f (seq 0 n)) d = f j.
Proof.
  intros H. rewrite (nth_indep _ d (f 0)) by (rewrite length_map, length_seq; exact H).
  rewrite map_nth, seq_nth by exact H. reflexivity.
Qed.

Lemma setNth_map_seq (A : Type) (f : nat -> A) (x : A) (n a j : nat) :
  j < n ->
  setNth j x (map f (seq a n)) =
  map (fun v => if Nat.eqb v (a + j) then x else f v) (seq a n).
Proof.
  revert a j. induction n as [|n IH]; intros a j H; [lia|].
  destruct j as [|j]; simpl.
  - rewrite Nat.add_0_r, Nat.eqb_refl. f_equal.
    apply map_ext_in. intros v Hv. apply in_seq in Hv.
    destruct (Nat.eqb_spec v a); [lia|reflexivity].
  - destruct (Nat.eqb_spec a (a + S j)); [lia|]. f_equal.
    rewrite IH by lia. apply map_ext. intros v.
    replace (S a + j) with (a + S j) by lia. reflexivity.
Qed.

Lemma filter_seq_one_more (f g : nat -> bool) (n j : nat) :
  j < n -> f j = false ->
  (forall v, g v = f v || Nat.eqb v j) ->
  length (filter g (seq 0 n)) = S (length (filter f (seq 0 n))).
Proof.
  intros Hj Hf Hg. induction n as [|n IH]; [lia|].
  rewrite seq_S, !filter_app, !length_app. simpl.
  destruct (Nat.eq_dec j n) as [->|Hne].
  - rewrite Hg, Hf, Nat.eqb_refl. simpl.
    rewrite (filter_ext_in g f).
    + lia.
    + intros v Hv. apply in_seq in Hv. rewrite Hg.
      destruct (Nat.eqb_spec v n); [lia|]. apply orb_false_r.
  - rewrite IH by lia. rewrite Hg.
    destruct (Nat.eqb_spec n j); [lia|]. rewrite orb_false_r.
    destruct (f n); simpl; lia.
Qed.

Lemma classify_poisoned (exit : OSRExit) :
  displacedSourcesNonNegative X exit ->
  poisonedVirtualRegisters (classify X exit) =
    map (poisonedAfter X exit (numberOfRecoveries X exit))
        (seq 0 (length (m_variables exit))) /\
  numberOfPoisonedVirtualRegisters (classify X exit) =
    length (filter (poisonedAfter X exit (numberOfRecoveries X exit))
                   (seq 0 (length (m_variables exit)))).
Proof.
  intros Hwf. unfold classify.
  set (nv := length (m_variables exit)).
  apply (forIndices_invariant
           (fun k c =>
              poisonedVirtualRegisters c = map (poisonedAfter X exit k) (seq 0 nv) /\
              numberOfPoisonedVirtualRegisters c =
              length (filter (poisonedAfter X exit k) (seq 0 nv)))).
  - simpl. split.
    + unfold poisonedAfter. simpl. subst nv.
      induction (m_variables exit) as [|a l IH]; [reflexivity|].
      simpl. rewrite andb_false_r. f_equal. rewrite IH, <- seq_shift, map_map.
      apply map_ext. intros v. simpl. rewrite !andb_false_r. reflexivity.
    + rewrite (filter_ext_in _ (fun _ => false)).
      * induction (seq 0 nv); simpl; auto.
      * intros v _. unfold poisonedAfter. simpl. apply andb_false_r.
  - intros k acc Hk [IHt IHc].
    assert (Hsame : (forall v, v < nv ->
                       displacedFrom v (valueRecovery X exit k) &&
                       isInRegister (nth v (m_variables exit) DontKnow) &&
                       negb (poisonedAfter X exit k v) = false) ->
                    map (poisonedAfter X exit (S k)) (seq 0 nv) =
                    map (poisonedAfter X exit k) (seq 0 nv) /\
                    length (filter (poisonedAfter X exit (S k)) (seq 0 nv)) =
                    length (filter (poisonedAfter X exit k) (seq 0 nv))).
    { intros Hno.
      assert (E : forall v, In v (seq 0 nv) ->
                            poisonedAfter X exit (S k) v = poisonedAfter X exit k v).
      { intros v Hv. apply in_seq in Hv. specialize (Hno v ltac:(lia)).
        unfold poisonedAfter in *. rewrite seq_S, map_app, existsb_app. simpl.
        rewrite orb_false_r.
        destruct (isInRegister (nth v (m_variables exit) DontKnow)); simpl in *;
          [|reflexivity].
        destruct (existsb _ _); simpl in *; [reflexivity|].
        rewrite !andb_true_r in Hno. exact Hno. }
      split; [apply map_ext_in; exact E|].
      rewrite (filter_ext_in _ _ _ E). reflexivity. }
    unfold classifyStep.
    destruct (valueRecovery X exit k) as [| | | |vr| |] eqn:R; simpl;
      try (rewrite IHt, IHc; symmetry in IHt; apply and_comm; split;
           [symmetry|symmetry]; apply Hsame; intros; reflexivity).
    pose proof (Hwf k vr Hk R) as Hvr.
    assert (Hdf : forall v, displacedFrom v (DisplacedInRegisterFile vr) =
                            Nat.eqb v (Z.to_nat vr)).
    { intros v. simpl. destruct (Z.eqb_spec vr (Z.of_nat v));
        destruct (Nat.eqb_spec v (Z.to_nat vr)); auto; lia. }
    destruct (Z.ltb_spec vr (Z.of_nat (length (m_variables exit)))) as [Hlt|Hge]; simpl.
    + assert (Hj : Z.to_nat vr < nv) by (subst nv; lia).
      destruct (isInRegister (nth (Z.to_nat vr) (m_variables exit) DontKnow)) eqn:Hreg.
      * rewrite IHt, nth_map_seq by exact Hj.
        destruct (poisonedAfter X exit k (Z.to_nat vr)) eqn:Hp; simpl.
        -- rewrite IHc. destruct Hsame as [-> ->]; [|split; reflexivity].
           intros v Hv. rewrite Hdf.
           destruct (Nat.eqb_spec v (Z.to_nat vr)) as [->|]; [|reflexivity].
           rewrite Hp, andb_false_r. reflexivity.
        -- split.
           ++ rewrite setNth_map_seq by exact Hj. apply map_ext. intros v.
              unfold poisonedAfter. rewrite seq_S, map_app, existsb_app. simpl.
              rewrite R, Hdf, orb_false_r.
              destruct (Nat.eqb_spec v (Z.to_nat vr)) as [->|].
              ** rewrite Hreg, orb_true_r. reflexivity.
              ** rewrite orb_false_r. reflexivity.
           ++ rewrite IHc. symmetry.
              apply (filter_seq_one_more _ _ Hj Hp). intros v.
              unfold poisonedAfter. rewrite seq_S, map_app, existsb_app. simpl.
              rewrite R, Hdf, orb_false_r.
              destruct (Nat.eqb_spec v (Z.to_nat vr)) as [->|].
              ** rewrite Hreg, !orb_true_r. reflexivity.
              ** rewrite !orb_false_r. reflexivity.
      * rewrite IHt, IHc. destruct Hsame as [-> ->]; [|split; reflexivity].
        intros v Hv. rewrite Hdf.
        destruct (Nat.eqb_spec v (Z.to_nat vr)) as [->|]; [|reflexivity].
        rewrite Hreg. reflexivity.
    + rewrite IHt, IHc. destruct Hsame as [-> ->]; [|split; reflexivity].
      intros v Hv. rewrite Hdf.
      destruct (Nat.eqb_spec v (Z.to_nat vr)) as [->|]; [|reflexivity].
      subst nv. lia.
Qed.

(** C5: the scratch buffer requested by the OSR exit emitter has
    [poisoned + (displaced > numberOfRegisters ? displaced : 0)] cells,
    where [displaced] counts the [DisplacedInRegisterFile] recoveries and
    [poisoned] counts, once each, the variables that are recovered from a
    register ([InGPR], [UnboxedInt32InGPR], [InFPR]) and whose home slot
    is the source of some displaced recovery. *)
Theorem osr_scratch_buffer_size (exit : OSRExit) :
  displacedSourcesNonNegative X exit ->
  let displaced := length (filter isDisplaced (recoveries X exit)) in
  let poisoned :=
    length (filter (fun v =>
                      isInRegister (nth v (m_variables exit) DontKnow) &&
                      existsb (displacedFrom v) (recoveries X exit))
                   (seq 0 (length (m_variables exit)))) in
  scratchBufferSlots X exit =
  poisoned + (if GPRInfo_numberOfRegisters X <? displaced then displaced else 0).
Proof.
  intros Hwf displaced poisoned. unfold scratchBufferSlots.
  rewrite classify_numberOfDisplaced.
  destruct (classify_poisoned Hwf) as [_ ->].
  fold displaced. unfold poisoned, poisonedAfter, recoveries.
  destruct (Nat.leb_spec displaced (GPRInfo_numberOfRegisters X));
    destruct (Nat.ltb_spec (GPRInfo_numberOfRegisters X) displaced);
    try lia; reflexivity.
Qed.

(** *** Displaced virtual registers *)

Lemma numbered_snoc (A : Type) (k : nat) (l : list A) (x : A) :
  numbered k (l ++ [x]) = numbered k l ++ [(k + length l, x)].
Proof.
  revert k. induction l as [|y l IH]; intros k; simpl.
  - rewrite Nat.add_0_r. reflexivity.
  - rewrite IH. replace (S k + length l) with (k + S (length l)) by lia.
    reflexivity.
Qed.

Lemma displacedAmong_S (exit : OSRExit) (n : nat) :
  displacedAmong X exit (S n) =
  displacedAmong X exit n ++
  match valueRecovery X exit n with
  | DisplacedInRegisterFile vr => [(n, vr)]
  | _ => []
  end.
Proof. unfold displacedAmong. apply flat_map_seq_S. Qed.

Lemma displacedRecoveries_length (exit : OSRExit) :
  length (displacedRecoveries X exit) = length (filter isDisplaced (recoveries X exit)).
Proof.
  unfold displacedRecoveries, recoveries.
  induction (numberOfRecoveries X exit) as [|n IH]; [reflexivity|].
  rewrite displacedAmong_S, seq_S, map_app, filter_app, !length_app, IH. simpl.
  destruct (valueRecovery X exit n); reflexivity.
Qed.

Lemma displacedAmong_In (exit : OSRExit) (n index : nat) (vr : VirtualRegister) :
  In (index, vr) (displacedAmong X exit n) <->
  index < n /\ valueRecovery X exit index = DisplacedInRegisterFile vr.
Proof.
  unfold displacedAmong. rewrite in_flat_map. split.
  - intros (i & Hi & Hin). apply in_seq in Hi.
    destruct (valueRecovery X exit i) eqn:R; try contradiction.
    destruct Hin as [E|[]]. injection E as <- <-. split; [lia|exact R].
  - intros [Hlt R]. exists index. split; [apply in_seq; lia|].
    rewrite R. left; reflexivity.
Qed.

(** Every loop of step 8 visits the displaced recoveries in order,
    appends a block that depends on the running index, and advances that
    index. *)
Lemma displaced_loop_shape (exit : OSRExit)
      (block : nat -> nat * VirtualRegister -> list Instr)
      (step : nat -> Emit -> Emit) :
  (forall index e,
      step index e =
      match valueRecovery X exit index with
      | DisplacedInRegisterFile vr =>
          (fst e ++ block (snd e) (index, vr), S (snd e))
      | _ => e
      end) ->
  forall n code k,
    forIndices n step (code, k) =
    (code ++ flat_map (fun p => block (fst p) (snd p))
                      (numbered k (displacedAmong X exit n)),
     k + length (displacedAmong X exit n)).
Proof.
  intros Hstep n code k. induction n as [|n IH].
  - simpl. rewrite forIndices_0, app_nil_r, Nat.add_0_r. reflexivity.
  - rewrite forIndices_S, IH, Hstep, displacedAmong_S.
    destruct (valueRecovery X exit n); simpl;
      rewrite ?app_nil_r; try reflexivity.
    rewrite numbered_snoc, flat_map_app, length_app. simpl.
    rewrite app_nil_r, app_assoc. f_equal. lia.
Qed.

Lemma reshuffleDisplaced_shape (exit : OSRExit) :
  reshuffleDisplaced X exit (classify X exit)
                     (numberOfPoisonedVirtualRegisters (classify X exit)) =
  reshuffleShape X exit (numberOfPoisonedVirtualRegisters (classify X exit)).
Proof.
  unfold reshuffleDisplaced, reshuffleShape.
  rewrite classify_numberOfDisplaced, <- displacedRecoveries_length.
  destruct (Nat.eqb (length (displacedRecoveries X exit)) 0); [reflexivity|].
  destruct (length (displacedRecoveries X exit) <=? GPRInfo_numberOfRegisters X).
  - rewrite (displaced_loop_shape exit (loadBlock X) (loadDisplacedStep X exit)).
    + simpl fst.
      rewrite (displaced_loop_shape exit (storeBlock X exit) (storeDisplacedStep X exit)).
      * reflexivity.
      * intros index e. unfold storeDisplacedStep, emitNext, storeBlock.
        destruct (valueRecovery X exit index); reflexivity.
    + intros index e. unfold loadDisplacedStep, emitNext, loadBlock.
      destruct (valueRecovery X exit index); reflexivity.
  - rewrite (displaced_loop_shape exit (liftBlock X) (liftDisplacedStep X exit)).
    + simpl fst.
      rewrite (displaced_loop_shape exit (dropBlock X exit) (dropDisplacedStep X exit)).
      * reflexivity.
      * intros index e. unfold dropDisplacedStep, emitNext, emit, dropBlock.
        destruct (valueRecovery X exit index); try reflexivity.
        simpl. rewrite <- app_assoc. reflexivity.
    + intros index e. unfold liftDisplacedStep, emitNext, emit, liftBlock.
      destruct (valueRecovery X exit index); try reflexivity.
      simpl. rewrite <- app_assoc. reflexivity.
Qed.

(** **** Running the blocks of step 8 *)

Section RunDisplaced.

Variable tagReg : GPRReg.
Variable exit : OSRExit.

Let operandOf (p : nat * VirtualRegister) : Z := operandForIndex X exit (fst p).

Lemma run_app (c1 c2 : list Instr) (s : Machine) :
  run tagReg (c1 ++ c2) s =
  match run tagReg c1 s with
  | Some s' => run tagReg c2 s'
  | None => None
  end.
Proof.
  revert s. induction c1 as [|i c1 IH]; intros s; simpl; [reflexivity|].
  destruct (exec tagReg i s); [apply IH|reflexivity].
Qed.

(** Phase one of the two-phase shuffle: the displaced sources are in the
    GPRs numbered from [k], memory is untouched. *)
Lemma run_loads (d : list (nat * VirtualRegister)) :
  forall k s,
    NoDup (map (GPRInfo_toRegister X) (seq k (length d))) ->
    exists s',
      run tagReg (flat_map (fun p => loadBlock X (fst p) (snd p)) (numbered k d)) s
      = Some s' /\
      (forall a, mach_mem s' a = mach_mem s a) /\
      (forall r, ~ In r (map (GPRInfo_toRegister X) (seq k (length d))) ->
                 mach_gpr s' r = mach_gpr s r) /\
      (forall j p, nth_error d j = Some p ->
                   mach_gpr s' (GPRInfo_toRegister X (k + j)) =
                   mach_mem s (addressFor (snd p))).
Proof.
  induction d as [|p0 d IH]; intros k s Hnd.
  - exists s. simpl. repeat split; auto.
    intros j p H. destruct j; discriminate.
  - simpl in Hnd. apply NoDup_cons_iff in Hnd. destruct Hnd as [Hnotin Hnd].
    simpl.
    destruct (IH (S k) (setGPR (GPRInfo_toRegister X k)
                               (mach_mem s (addressFor (snd p0))) s) Hnd)
      as (s' & Hrun & Hmem & Hframe & Hregs).
    exists s'. split; [exact Hrun|]. split; [|split].
    + intros a. rewrite Hmem. reflexivity.
    + intros r Hr. rewrite Hframe by (intros Hin; apply Hr; right; exact Hin).
      simpl. destruct (Z.eqb_spec r (GPRInfo_toRegister X k)); [|reflexivity].
      exfalso. apply Hr. left. congruence.
    + intros j p Hj. destruct j as [|j].
      * injection Hj as ->. rewrite Nat.add_0_r, Hframe by exact Hnotin.
        simpl. rewrite Z.eqb_refl. reflexivity.
      * simpl in Hj. replace (k + S j) with (S k + j) by lia.
        rewrite (Hregs j p Hj). reflexivity.
Qed.

(** Phase two: each destination receives the GPR with its number. *)
Lemma run_stores (d : list (nat * VirtualRegister)) :
  forall k s,
    NoDup (map operandOf d) ->
    exists s',
      run tagReg (flat_map (fun p => storeBlock X exit (fst p) (snd p)) (numbered k d)) s
      = Some s' /\
      (forall r, mach_gpr s' r = mach_gpr s r) /\
      (forall a, ~ In a (map (fun p => addressFor (operandOf p)) d) ->
                 mach_mem s' a = mach_mem s a) /\
      (forall j p, nth_error d j = Some p ->
                   mach_mem s' (addressFor (operandOf p)) =
                   mach_gpr s (GPRInfo_toRegister X (k + j))).
Proof.
  induction d as [|p0 d IH]; intros k s Hnd.
  - exists s. simpl. repeat split; auto.
    intros j p H. destruct j; discriminate.
  - simpl in Hnd. apply NoDup_cons_iff in Hnd. destruct Hnd as [Hnotin Hnd].
    simpl.
    destruct (IH (S k) (setMem (addressFor (operandForIndex X exit (fst p0)))
                               (mach_gpr s (GPRInfo_toRegister X k)) s) Hnd)
      as (s' & Hrun & Hgpr & Hframe & Hmem).
    assert (Hp0 : ~ In (addressFor (operandOf p0))
                       (map (fun p => addressFor (operandOf p)) d)).
    { intros Hin. apply Hnotin. apply in_map_iff in Hin.
      destruct Hin as (q & Hq & Hin). injection Hq as Hq.
      apply in_map_iff. exists q. split; [exact Hq|exact Hin]. }
    exists s'. split; [exact Hrun|]. split; [|split].
    + intros r. rewrite Hgpr. reflexivity.
    + intros a Ha. rewrite Hframe by (intros Hin; apply Ha; right; exact Hin).
      simpl. destruct (Address_eqb a (addressFor (operandForIndex X exit (fst p0)))) eqn:E;
        [|reflexivity].
      exfalso. apply Ha. left. destruct a; simpl in E; try discriminate.
      apply Z.eqb_eq in E. unfold operandOf. congruence.
    + intros j p Hj. destruct j as [|j].
      * injection Hj as ->. rewrite Nat.add_0_r, Hframe by exact Hp0.
        simpl. unfold operandOf. rewrite Z.eqb_refl. reflexivity.
      * simpl in Hj. replace (k + S j) with (S k + j) by lia.
        rewrite (Hmem j p Hj). reflexivity.
Qed.

(** Lifting into the scratch buffer: the call frame is untouched and the
    cells from [k] on hold the displaced sources. *)
Lemma run_lifts (d : list (nat * VirtualRegister)) :
  forall k s,
    exists s',
      run tagReg (flat_map (fun p => liftBlock X (fst p) (snd p)) (numbered k d)) s
      = Some s' /\
      (forall vr, mach_mem s' (addressFor vr) = mach_mem s (addressFor vr)) /\
      (forall i, i < k -> mach_mem s' (scratchBufferAt i) = mach_mem s (scratchBufferAt i)) /\
      (forall j p, nth_error d j = Some p ->
                   mach_mem s' (scratchBufferAt (k + j)) =
                   mach_mem s (addressFor (snd p))).
Proof.
  induction d as [|p0 d IH]; intros k s.
  - exists s. simpl. repeat split; auto.
    intros j p H. destruct j; discriminate.
  - simpl.
    destruct (IH (S k)
                 (setMem (scratchBufferAt k)
                         (mach_gpr (setGPR (regT0 X) (mach_mem s (addressFor (snd p0))) s)
                                   (regT0 X))
                         (setGPR (regT0 X) (mach_mem s (addressFor (snd p0))) s)))
      as (s' & Hrun & Hstack & Hframe & Hcells).
    exists s'. split; [exact Hrun|]. split; [|split].
    + intros vr. rewrite Hstack. reflexivity.
    + intros i Hi. rewrite Hframe by lia. simpl.
      destruct (Nat.eqb_spec i k); [lia|reflexivity].
    + intros j p Hj. destruct j as [|j].
      * injection Hj as ->. rewrite Nat.add_0_r, Hframe by lia.
        simpl. rewrite Nat.eqb_refl, Z.eqb_refl. reflexivity.
      * simpl in Hj. replace (k + S j) with (S k + j) by lia.
        rewrite (Hcells j p Hj). reflexivity.
Qed.

(** Dropping from the scratch buffer: each destination receives the cell
    with its number. *)
Lemma run_drops (d : list (nat * VirtualRegister)) :
  forall k s,
    NoDup (map operandOf d) ->
    exists s',
      run tagReg (flat_map (fun p => dropBlock X exit (fst p) (snd p)) (numbered k d)) s
      = Some s' /\
      (forall i, mach_mem s' (scratchBufferAt i) = mach_mem s (scratchBufferAt i)) /\
      (forall a, ~ In a (map (fun p => addressFor (operandOf p)) d) ->
                 mach_mem s' a = mach_mem s a) /\
      (forall j p, nth_error d j = Some p ->
                   mach_mem s' (addressFor (operandOf p)) =
                   mach_mem s (scratchBufferAt (k + j))).
Proof.
  induction d as [|p0 d IH]; intros k s Hnd.
  - exists s. simpl. repeat split; auto.
    intros j p H. destruct j; discriminate.
  - simpl in Hnd. apply NoDup_cons_iff in Hnd. destruct Hnd as [Hnotin Hnd].
    simpl.
    destruct (IH (S k)
                 (setMem (addressFor (operandForIndex X exit (fst p0)))
                         (mach_gpr (setGPR (regT0 X) (mach_mem s (scratchBufferAt k)) s)
                                   (regT0 X))
                         (setGPR (regT0 X) (mach_mem s (scratchBufferAt k)) s)) Hnd)
      as (s' & Hrun & Hcells & Hframe & Hmem).
    assert (Hp0 : ~ In (addressFor (operandOf p0))
                       (map (fun p => addressFor (operandOf p)) d)).
    { intros Hin. apply Hnotin. apply in_map_iff in Hin.
      destruct Hin as (q & Hq & Hin). injection Hq as Hq.
      apply in_map_iff. exists q. split; [exact Hq|exact Hin]. }
    exists s'. split; [exact Hrun|]. split; [|split].
    + intros i. rewrite Hcells. reflexivity.
    + intros a Ha. rewrite Hframe by (intros Hin; apply Ha; right; exact Hin).
      simpl. destruct (Address_eqb a (addressFor (operandForIndex X exit (fst p0)))) eqn:E;
        [|reflexivity].
      exfalso. apply Ha. left. destruct a; simpl in E; try discriminate.
      apply Z.eqb_eq in E. unfold operandOf. congruence.
    + intros j p Hj. destruct j as [|j].
      * injection Hj as ->. rewrite Nat.add_0_r, Hframe by exact Hp0.
        simpl. unfold operandOf. rewrite !Z.eqb_refl. reflexivity.
      * simpl in Hj. replace (k + S j) with (S k + j) by lia.
        rewrite (Hmem j p Hj). reflexivity.
Qed.

End RunDisplaced.

(** **** The scratch cursor after steps 5 and 7 *)

Lemma classify_haveFPRs (exit : OSRExit) :
  haveFPRs (classify X exit) = existsb isInFPR (recoveries X exit).
Proof.
  unfold classify, recoveries.
  apply (forIndices_invariant
           (fun k c => haveFPRs c =
                       existsb isInFPR (map (valueRecovery X exit) (seq 0 k)))).
  - reflexivity.
  - intros k acc _ IH.
    rewrite seq_S, map_app, existsb_app. simpl. rewrite orb_false_r, <- IH.
    unfold classifyStep.
    destruct (valueRecovery X exit k); simpl;
      repeat match goal with |- context [if ?b then _ else _] => destruct b end;
      simpl; rewrite ?orb_false_r, ?orb_true_r; reflexivity.
Qed.

Lemma dumpGPRs_cursor (exit : OSRExit) (c : Classification) (e : Emit) :
  snd (dumpGPRs X exit c e) =
  snd e + length (filter (fun i => isInGPR (valueRecovery X exit i) &&
                                   isPoisonedIndex X exit c i)
                         (seq 0 (numberOfRecoveries X exit))).
Proof.
  unfold dumpGPRs. induction (numberOfRecoveries X exit) as [|n IH].
  - rewrite forIndices_0. simpl. lia.
  - rewrite forIndices_S, seq_S, filter_app, length_app. simpl.
    unfold dumpGPRStep at 1.
    destruct (valueRecovery X exit n); simpl; rewrite ?IH; try lia;
      destruct (isPoisonedIndex X exit c n); simpl; rewrite IH; lia.
Qed.

Lemma dumpFPRs_cursor (exit : OSRExit) (e : Emit) :
  snd (dumpFPRs X exit (classify X exit) e) =
  snd e + length (filter (fun i => isInFPR (valueRecovery X exit i) &&
                                   isPoisonedIndex X exit (classify X exit) i)
                         (seq 0 (numberOfRecoveries X exit))).
Proof.
  unfold dumpFPRs. rewrite classify_haveFPRs.
  destruct (existsb isInFPR (recoveries X exit)) eqn:E.
  - generalize (fst e ++ flat_map (boxDoubleStep X exit)
                                  (seq 0 (numberOfRecoveries X exit))) as code.
    intros code. change (snd e) with (snd (code, snd e)) at 2.
    generalize (code, snd e) as e0. intros e0.
    induction (numberOfRecoveries X exit) as [|n IH].
    + rewrite forIndices_0. simpl. lia.
    + rewrite forIndices_S, seq_S, filter_app, length_app. simpl.
      unfold dumpFPRStep at 1.
      destruct (valueRecovery X exit n); simpl; rewrite ?IH; try lia;
        destruct (isPoisonedIndex X exit (classify X exit) n); simpl; rewrite IH; lia.
  - rewrite (filter_ext_in _ (fun _ => false)).
    + assert (Hnil : forall l : list nat, filter (fun _ => false) l = []).
      { induction l; simpl; auto. }
      rewrite Hnil. simpl. lia.
    + intros i Hi. apply in_seq in Hi.
      destruct (isInFPR (valueRecovery X exit i)) eqn:Ei; [|reflexivity].
      exfalso.
      assert (existsb isInFPR (recoveries X exit) = true).
      { apply existsb_exists. exists (valueRecovery X exit i). split; [|exact Ei].
        unfold recoveries. apply in_map, in_seq. lia. }
      congruence.
Qed.

Lemma filter_length_split (A : Type) (f g h : A -> bool) (l : list A) :
  (forall x, h x = f x || g x) ->
  (forall x, f x && g x = false) ->
  length (filter h l) = length (filter f l) + length (filter g l).
Proof.
  intros Hh Hd. induction l as [|a l IH]; [reflexivity|].
  simpl. rewrite Hh. specialize (Hd a).
  destruct (f a), (g a); simpl in *; try discriminate; rewrite IH; lia.
Qed.

Lemma filter_length_shift (p : nat -> bool) (a n : nat) :
  length (filter (fun i => p (i - a)) (seq a n)) = length (filter p (seq 0 n)).
Proof.
  induction n as [|n IH]; [reflexivity|].
  rewrite !seq_S, !filter_app, !length_app, IH. simpl.
  replace (a + n - a) with n by lia. destruct (p n); reflexivity.
Qed.

(** The assertion after step 7: the scratch cursor equals the number of
    poisoned virtual registers. *)
Lemma cursor_after_dumps (exit : OSRExit) :
  variablesFollowArguments X exit ->
  displacedSourcesNonNegative X exit ->
  snd (dumpFPRs X exit (classify X exit)
                (dumpGPRs X exit (classify X exit) ([], 0))) =
  numberOfPoisonedVirtualRegisters (classify X exit).
Proof.
  intros [Hn Hacc] Hwf.
  rewrite dumpFPRs_cursor, dumpGPRs_cursor. simpl snd. rewrite Nat.add_0_l.
  rewrite <- (filter_length_split
                (fun i => isInGPR (valueRecovery X exit i) &&
                          isPoisonedIndex X exit (classify X exit) i)
                (fun i => isInFPR (valueRecovery X exit i) &&
                          isPoisonedIndex X exit (classify X exit) i)
                (fun i => isInRegister (valueRecovery X exit i) &&
                          isPoisonedIndex X exit (classify X exit) i)).
  - destruct (classify_poisoned Hwf) as [Htable ->].
    rewrite Hn, seq_app, filter_app, length_app. simpl.
    rewrite (filter_ext_in _ (fun _ => false) (seq 0 (length (m_arguments exit)))).
    + assert (Hnil : forall l : list nat, filter (fun _ => false) l = []).
      { induction l; simpl; auto. }
      rewrite Hnil. simpl.
      rewrite <- (filter_length_shift _ (length (m_arguments exit))).
      f_equal. apply filter_ext_in. intros i Hi. apply in_seq in Hi.
      destruct (Hacc i ltac:(lia)) as [Hv Hrest].
      destruct (Hrest ltac:(lia)) as [Hvar Hrec].
      unfold isPoisonedIndex. rewrite Hv, Hvar, Hrec, Htable.
      rewrite nth_map_seq by lia.
      replace (i <? length (m_arguments exit)) with false
        by (symmetry; apply Nat.ltb_ge; lia).
      simpl. unfold poisonedAfter.
      destruct (isInRegister (nth (i - length (m_arguments exit))
                                  (m_variables exit) DontKnow));
        rewrite ?Hn; reflexivity.
    + intros i Hi. apply in_seq in Hi.
      destruct (Hacc i ltac:(lia)) as [Hv _].
      unfold isPoisonedIndex. rewrite Hv.
      replace (i <? length (m_arguments exit)) with true
        by (symmetry; apply Nat.ltb_lt; lia).
      simpl. apply andb_false_r.
  - intros i. destruct (valueRecovery X exit i); simpl;
      rewrite ?orb_false_r; reflexivity.
  - intros i. destruct (valueRecovery X exit i); simpl;
      rewrite ?andb_false_r; reflexivity.
Qed.

Lemma displacedAmong_NoDup (exit : OSRExit) (n : nat) :
  NoDup (map fst (displacedAmong X exit n)).
Proof.
  induction n as [|n IH]; [constructor|].
  rewrite displacedAmong_S, map_app. apply NoDup_app; [exact IH| |].
  - destruct (valueRecovery X exit n); simpl; repeat constructor; intros [].
  - intros a Ha Hn. apply in_map_iff in Ha. destruct Ha as ([i vr] & <- & Hin).
    apply displacedAmong_In in Hin. destruct Hin as [Hlt _].
    destruct (valueRecovery X exit n); simpl in Hn; try contradiction.
    destruct Hn as [E|[]]. simpl in E. lia.
Qed.

Lemma displaced_operands_NoDup (exit : OSRExit) :
  injectiveBelow (numberOfRecoveries X exit) (operandForIndex X exit) ->
  NoDup (map (fun p : nat * VirtualRegister => operandForIndex X exit (fst p))
             (displacedRecoveries X exit)).
Proof.
  intros Hop. rewrite <- (map_map fst (operandForIndex X exit)).
  apply NoDup_map_NoDup_ForallPairs; [|apply displacedAmong_NoDup].
  intros a b Ha Hb E.
  apply in_map_iff in Ha. destruct Ha as ([i vr] & <- & Ha).
  apply in_map_iff in Hb. destruct Hb as ([j vr'] & <- & Hb).
  apply displacedAmong_In in Ha. apply displacedAmong_In in Hb.
  apply Hop; tauto.
Qed.

Lemma registers_NoDup (m : nat) :
  injectiveBelow (GPRInfo_numberOfRegisters X) (GPRInfo_toRegister X) ->
  m <= GPRInfo_numberOfRegisters X ->
  NoDup (map (GPRInfo_toRegister X) (seq 0 m)).
Proof.
  intros Hreg Hm. apply NoDup_map_NoDup_ForallPairs; [|apply seq_NoDup].
  intros a b Ha Hb E. apply in_seq in Ha. apply in_seq in Hb.
  apply Hreg; lia.
Qed.

(** C6: the block that resolves the displaced recoveries is empty when
    there are none; when they are at most [GPRInfo::numberOfRegisters] it
    is all the loads of the source slots, in index order, into the GPRs
    numbered 0, 1, ..., followed by all the stores of those GPRs to the
    destination slots; otherwise it is, for each displaced recovery, a load
    and a store into consecutive scratch cells, followed by, for each, a
    load of its cell and a store to the destination slot; the scratch
    cursor is the one steps 5 and 7 leave.  In every case, whatever the
    source and destination slots are (a permutation of one another
    included), running the block leaves in each destination slot the value
    its source slot held before the block.  In the code of the exit the
    block stands between the dumps of the registers (steps 5 to 7) and the
    dump of the poisoned registers (step 9), and the code has nothing else
    between them. *)
Theorem osr_displaced_reshuffle (exit : OSRExit) (tagReg : GPRReg) (s : Machine) :
  injectiveBelow (GPRInfo_numberOfRegisters X) (GPRInfo_toRegister X) ->
  injectiveBelow (numberOfRecoveries X exit) (operandForIndex X exit) ->
  variablesFollowArguments X exit ->
  displacedSourcesNonNegative X exit ->
  let c := classify X exit in
  let scratchIndex := snd (dumpFPRs X exit c (dumpGPRs X exit c ([], 0))) in
  reshuffleDisplaced X exit c scratchIndex = reshuffleShape X exit scratchIndex /\
  (exists s',
    run tagReg (reshuffleDisplaced X exit c scratchIndex) s = Some s' /\
    forall index vr,
      index < numberOfRecoveries X exit ->
      valueRecovery X exit index = DisplacedInRegisterFile vr ->
      mach_mem s' (addressFor (operandForIndex X exit index)) =
      mach_mem s (addressFor vr)) /\
  (forall codeBlock recovery decodedCodeMap mapping,
      binarySearch X decodedCodeMap (m_bytecodeIndex exit) = Some mapping ->
      exitSpeculativeWithOSR X codeBlock exit recovery decodedCodeMap =
      Some (([Link (CheckJump (m_check exit))]
             ++ fst (osrRecovery X recovery)
             ++ reboxIntegers X exit c (snd (osrRecovery X recovery))
             ++ fst (dumpFPRs X exit c (dumpGPRs X exit c ([], 0))))
            ++ reshuffleShape X exit scratchIndex
            ++ (dumpPoisoned X exit c
                ++ dumpConstants X exit c
                ++ [store32Imm (counterValueForOptimizeAfterWarmUp codeBlock)
                               addressOfExecuteCounter]
                ++ loadLastSetOperand X exit
                ++ [storePtrImm (alternative codeBlock)
                                (addressFor (RegisterFile_CodeBlock X));
                    moveImmPtr (jitCodeStart codeBlock + bm_machineCodeOffset mapping)%Z
                               (regT1 X);
                    jumpReg (regT1 X)]))).
Proof.
  intros Hreg Hop Hacc Hwf c scratchIndex. subst c scratchIndex.
  rewrite (cursor_after_dumps Hacc Hwf).
  split; [apply reshuffleDisplaced_shape|].
  split; cycle 1.
  { intros codeBlock recovery decodedCodeMap mapping H.
    unfold exitSpeculativeWithOSR. rewrite H.
    destruct (osrRecovery X recovery) as [recoveryCode alreadyBoxed].
    rewrite (cursor_after_dumps Hacc Hwf), reshuffleDisplaced_shape.
    cbn [fst snd]. rewrite <- !app_assoc. reflexivity. }
  rewrite reshuffleDisplaced_shape. unfold reshuffleShape.
  pose proof (@displaced_operands_NoDup exit Hop) as Hnd.
  assert (Hpos : forall index vr,
             index < numberOfRecoveries X exit ->
             valueRecovery X exit index = DisplacedInRegisterFile vr ->
             exists j, nth_error (displacedRecoveries X exit) j = Some (index, vr)).
  { intros index vr Hlt R. apply In_nth_error.
    apply displacedAmong_In. split; assumption. }
  destruct (Nat.eqb_spec (length (displacedRecoveries X exit)) 0) as [Hz|Hnz].
  - exists s. split; [reflexivity|]. intros index vr Hlt R.
    destruct (Hpos index vr Hlt R) as [j Hj].
    destruct (displacedRecoveries X exit); [destruct j|]; discriminate.
  - destruct (Nat.leb_spec (length (displacedRecoveries X exit))
                           (GPRInfo_numberOfRegisters X)) as [Hle|Hgt].
    + destruct (run_loads tagReg (displacedRecoveries X exit) 0 s
                          (@registers_NoDup _ Hreg Hle))
        as (s1 & Hrun1 & Hmem1 & _ & Hregs1).
      destruct (run_stores tagReg exit (displacedRecoveries X exit) 0 s1 Hnd)
        as (s2 & Hrun2 & _ & _ & Hmem2).
      exists s2. split.
      * rewrite run_app, Hrun1. exact Hrun2.
      * intros index vr Hlt R. destruct (Hpos index vr Hlt R) as [j Hj].
        pose proof (Hmem2 j _ Hj) as E2. pose proof (Hregs1 j _ Hj) as E1.
        simpl in E1, E2. rewrite E2, E1. reflexivity.
    + destruct (run_lifts tagReg (displacedRecoveries X exit)
                          (numberOfPoisonedVirtualRegisters (classify X exit)) s)
        as (s1 & Hrun1 & _ & _ & Hcells1).
      destruct (run_drops tagReg exit (displacedRecoveries X exit)
                          (numberOfPoisonedVirtualRegisters (classify X exit)) s1 Hnd)
        as (s2 & Hrun2 & _ & _ & Hmem2).
      exists s2. split.
      * rewrite run_app, Hrun1. exact Hrun2.
      * intros index vr Hlt R. destruct (Hpos index vr Hlt R) as [j Hj].
        pose proof (Hmem2 j _ Hj) as E2. pose proof (Hcells1 j _ Hj) as E1.
        simpl in E1, E2. rewrite E2, E1. reflexivity.
Qed.

(** *** The last-set operand *)

(** C10: when the exit's bytecode index is in the decoded code map, the
    code of an OSR exit is some prefix, the store that resets the execute
    counter, the block of step 12, and the two closing steps; the block of
    step 12 is the single load of the last-set operand's home slot into the
    cached result register when [m_lastSetOperand] differs from [int_max]
    and is empty when it equals it, and running the block when the sentinel
    is present leaves the machine as it was. *)
Theorem osr_last_set_operand_load (codeBlock : CodeBlock) (exit : OSRExit)
        (recovery : option SpeculationRecovery)
        (decodedCodeMap : list BytecodeAndMachineOffset)
        (mapping : BytecodeAndMachineOffset) :
  binarySearch X decodedCodeMap (m_bytecodeIndex exit) = Some mapping ->
  loadLastSetOperand X exit =
    (if Z.eqb (m_lastSetOperand exit) int_max then []
     else [loadPtr (addressFor (m_lastSetOperand exit)) (cachedResultRegister X)]) /\
  (exists pre,
      exitSpeculativeWithOSR X codeBlock exit recovery decodedCodeMap =
      Some (pre
            ++ [store32Imm (counterValueForOptimizeAfterWarmUp codeBlock)
                           addressOfExecuteCounter]
            ++ loadLastSetOperand X exit
            ++ [storePtrImm (alternative codeBlock)
                            (addressFor (RegisterFile_CodeBlock X));
                moveImmPtr (jitCodeStart codeBlock + bm_machineCodeOffset mapping)%Z
                           (regT1 X);
                jumpReg (regT1 X)])) /\
  (m_lastSetOperand exit = int_max ->
   forall tagReg s, run tagReg (loadLastSetOperand X exit) s = Some s).
Proof.
  intros H.
  assert (E : loadLastSetOperand X exit =
              if Z.eqb (m_lastSetOperand exit) int_max then []
              else [loadPtr (addressFor (m_lastSetOperand exit))
                            (cachedResultRegister X)]).
  { unfold loadLastSetOperand.
    destruct (Z.eqb (m_lastSetOperand exit) int_max); reflexivity. }
  split; [exact E|split].
  - unfold exitSpeculativeWithOSR. rewrite H.
    destruct (osrRecovery X recovery) as [recoveryCode alreadyBoxed].
    exists ([Link (CheckJump (m_check exit))]
            ++ recoveryCode
            ++ reboxIntegers X exit (classify X exit) alreadyBoxed
            ++ fst (dumpFPRs X exit (classify X exit)
                             (dumpGPRs X exit (classify X exit) ([], 0)))
            ++ reshuffleDisplaced X exit (classify X exit)
                 (snd (dumpFPRs X exit (classify X exit)
                                (dumpGPRs X exit (classify X exit) ([], 0))))
            ++ dumpPoisoned X exit (classify X exit)
            ++ dumpConstants X exit (classify X exit)).
    rewrite <- !app_assoc. reflexivity.
  - intros Hmax tagReg s. rewrite E, Hmax. reflexivity.
Qed.

End OSRExitProperties.

Lemma osr_last_set_operand_load_witness :
  exists pre,
    exitSpeculativeWithOSR X86_64.externals baselineBlock exitWithLastSet None codeMap =
    Some (pre ++ [store32Imm (-1000)%Z addressOfExecuteCounter]
              ++ [loadPtr (addressFor 2%Z) 0%Z]
              ++ [storePtrImm 5000%Z (addressFor (-1)%Z);
                  moveImmPtr 10064%Z 2%Z; jumpReg 2%Z]).
Proof.
  exact (proj1 (proj2 (@osr_last_set_operand_load X86_64.externals baselineBlock
                         exitWithLastSet None codeMap
                         {| bm_bytecodeIndex := 3%Z; bm_machineCodeOffset := 64%Z |}
                         eq_refl))).
Defined.

Lemma osr_rebox_exactly_unboxed_int32_witness :
  exists code,
    exitSpeculativeWithOSR X86_64.externals baselineBlock unboxedExit (Some undoAdd)
                           codeMap = Some code /\
    filter isOrPtr code = [orPtr 14%Z 0%Z; orPtr 14%Z 3%Z].
Proof.
  destruct (proj2 (proj2 (proj2 (@osr_rebox_exactly_unboxed_int32 X86_64.externals
                                   unboxedExit (Some undoAdd))))
                  baselineBlock codeMap
                  {| bm_bytecodeIndex := 3%Z; bm_machineCodeOffset := 64%Z |} eq_refl)
    as (code & Hcode & _ & Hor).
  exists code. split; [exact Hcode|exact Hor].
Defined.

(** ** Concrete exits on the x86-64 tables *)

Lemma x86_64_registers_injective :
  injectiveBelow 9 X86_64.toRegister.
Proof.
  intros i j Hi Hj.
  do 9 (destruct i as [|i];
        [do 9 (destruct j as [|j];
               [simpl; intros E; first [reflexivity | discriminate E]|]); lia|]).
  lia.
Qed.

Lemma x86_64_operands_injective (exit : OSRExit) :
  injectiveBelow (X86_64.exitNumberOfRecoveries exit) (X86_64.exitOperandForIndex exit).
Proof.
  intros i j Hi Hj. unfold X86_64.exitOperandForIndex, X86_64.CallFrameHeaderSize.
  destruct (Nat.ltb_spec i (length (m_arguments exit)));
    destruct (Nat.ltb_spec j (length (m_arguments exit))); lia.
Qed.

Lemma osr_scratch_buffer_size_witness :
  scratchBufferSlots X86_64.externals poisonedExit = 2.
Proof.
  refine (eq_trans (@osr_scratch_buffer_size X86_64.externals poisonedExit _) eq_refl).
  intros index vr Hlt.
  change (numberOfRecoveries X86_64.externals poisonedExit) with 5 in Hlt.
  do 5 (destruct index as [|index];
        [intros E; vm_compute in E;
         first [discriminate E | injection E as E; lia]|]).
  lia.
Defined.

Lemma x86_64_variablesFollowArguments (exit : OSRExit) :
  variablesFollowArguments X86_64.externals exit.
Proof.
  split; [reflexivity|]. intros index Hidx. split; [reflexivity|].
  intros Hle. split; [reflexivity|]. simpl. unfold X86_64.exitValueRecovery.
  replace (index <? length (m_arguments exit)) with false
    by (symmetry; apply Nat.ltb_ge; lia).
  reflexivity.
Qed.

Lemma osr_displaced_reshuffle_witness :
  exists s',
    run 14%Z (reshuffleDisplaced X86_64.externals swappedExit
                                 (classify X86_64.externals swappedExit) 0)
        entryMachine = Some s' /\
    mach_mem s' (addressFor 0%Z) = InitialMem (addressFor 1%Z) /\
    mach_mem s' (addressFor 1%Z) = InitialMem (addressFor 0%Z).
Proof.
  destruct (@osr_displaced_reshuffle X86_64.externals swappedExit 14%Z
              entryMachine x86_64_registers_injective
              (x86_64_operands_injective swappedExit)
              (x86_64_variablesFollowArguments swappedExit))
    as [_ [(s' & Hrun & Hmem) _]].
  - intros index vr Hlt.
    change (numberOfRecoveries X86_64.externals swappedExit) with 3 in Hlt.
    do 3 (destruct index as [|index];
          [intros E; vm_compute in E;
           first [discriminate E | injection E as E; lia]|]).
    lia.
  - exists s'. split; [exact Hrun|]. split.
    + apply (Hmem 1 1%Z); [vm_compute; lia|reflexivity].
    + apply (Hmem 2 0%Z); [vm_compute; lia|reflexivity].
Defined.

(** ** Concrete bridges on the x86-64 tables *)

(** C1 at two failing inputs.  Bridging: the chain [xmm0 -> xmm1] leaves
    [xmm1] recorded as a scratch FPR, and the exchange of [xmm2] and [xmm3]
    then goes through it, so at the entry [xmm1] holds what [xmm2] held and
    not the value of node 10.  OSR: the poisoned registers are saved GPRs
    first and FPRs second but drained in variable order, so the home slot
    of variable 0 (held in [xmm1]) receives the value of [ebx] and the home
    slot of variable 1 (held in [ebx]) receives the value of [xmm1].  In
    both inputs no node is in two registers of a side and the displaced
    sources are non-negative. *)
Theorem value_preservation_fails :
  (NoDup (map fst (reverseMap X86_64.externals (check_m_gprInfo lostValueCheck)
                              (check_m_fprInfo lostValueCheck))) /\
   NoDup (map fst (reverseMap X86_64.externals (entry_m_gprInfo lostValueEntry)
                              (entry_m_fprInfo lostValueEntry))) /\
   nodeIndex (nth 0 (check_m_fprInfo lostValueCheck) unusedRegisterInfo) = 10%Z /\
   nodeIndex (nth 1 (entry_m_fprInfo lostValueEntry) unusedRegisterInfo) = 10%Z /\
   exists code s',
     jumpFromSpeculativeToNonSpeculative X86_64.externals lostValueGraph
       lostValueCheck lostValueEntry None = Some code /\
     run 14%Z code entryMachine = Some s' /\
     mach_fpr s' 1%Z = InitialFPR 2%Z) /\
  (displacedSourcesNonNegative X86_64.externals poisonedExit /\
   nth 0 (m_variables poisonedExit) DontKnow = InFPR 1%Z /\
   nth 1 (m_variables poisonedExit) DontKnow = InGPR 3%Z /\
   exists code s',
     exitSpeculativeWithOSR X86_64.externals baselineBlock poisonedExit None codeMap
     = Some code /\
     run 14%Z code entryMachine = Some s' /\
     mach_mem s' (addressFor 0%Z) = InitialGPR 3%Z /\
     mach_mem s' (addressFor 1%Z) = InitialFPR 1%Z).
Proof.
  split.
  - split; [|split].
    1-2: vm_compute; repeat constructor; intros Hin; simpl in Hin;
      repeat (destruct Hin as [Hin|Hin]; [discriminate Hin|]); exact Hin.
    split; [reflexivity|]. split; [reflexivity|].
    eexists. eexists. split; [vm_compute; reflexivity|].
    split; [simpl; reflexivity|]. reflexivity.
  - split.
    { intros index vr Hlt. change (numberOfRecoveries X86_64.externals poisonedExit)
        with 5 in Hlt.
      do 5 (destruct index as [|index];
            [intros E; vm_compute in E;
             first [discriminate E | injection E as E; lia]|]).
      lia. }
    split; [reflexivity|]. split; [reflexivity|].
    eexists. eexists. split; [vm_compute; reflexivity|].
    split; [simpl; reflexivity|]. split; reflexivity.
Qed.

(** C2 at a failing input: after the chain move has put the value of
    node 10 into [xmm1], where the entry reads it, the next instruction
    overwrites [xmm1]; [xmm0] is then filled with the constant the entry
    wants there, and when the bridge jumps no register and no slot holds
    the value of node 10.  No node is in two registers of the exit. *)
Theorem shuffle_overwrites_live_value :
  NoDup (map fst (reverseMap X86_64.externals (check_m_gprInfo lostValueCheck)
                             (check_m_fprInfo lostValueCheck))) /\
  exists pre post s1 s',
    jumpFromSpeculativeToNonSpeculative X86_64.externals lostValueGraph
      lostValueCheck lostValueEntry None
    = Some (pre ++ moveDouble 2%Z 1%Z :: post) /\
    run 14%Z pre entryMachine = Some s1 /\
    mach_fpr s1 1%Z = InitialFPR 0%Z /\
    run 14%Z (moveDouble 2%Z 1%Z :: post) s1 = Some s' /\
    (forall r, mach_gpr s' r <> InitialFPR 0%Z) /\
    (forall r, mach_fpr s' r <> InitialFPR 0%Z) /\
    (forall a, mach_mem s' a <> InitialFPR 0%Z).
Proof.
  split.
  { vm_compute. repeat constructor; intros Hin; simpl in Hin;
      repeat (destruct Hin as [Hin|Hin]; [discriminate Hin|]); exact Hin. }
  exists [Link (CheckJump 100%Z); moveDouble 0%Z 1%Z].
  eexists. eexists. eexists.
  split; [vm_compute; reflexivity|].
  split; [simpl; reflexivity|].
  split; [reflexivity|].
  split; [simpl; reflexivity|].
  split; [|split]; intros r; cbn;
    repeat match goal with
           | |- context [Z.eqb ?a ?b] => destruct (Z.eqb_spec a b)
           end; try discriminate; intros E; injection E as E; contradiction.
Qed.

(** ** The bridging emitter: reverse maps and scratch discovery *)

Lemma forIndicesOpt_S (S : Type) (n : nat) (body : nat -> S -> option S) (s : S) :
  forIndicesOpt (Datatypes.S n) body s =
  match forIndicesOpt n body s with
  | Some a => body n a
  | None => None
  end.
Proof.
  unfold forIndicesOpt. rewrite seq_S, fold_left_app. reflexivity.
Qed.

(** A loop whose body never fails and keeps an invariant. *)
Lemma forIndicesOpt_invariant (S : Type) (P : S -> Prop) (n : nat)
      (body : nat -> S -> option S) (s : S) :
  P s ->
  (forall k acc, k < n -> P acc -> exists acc', body k acc = Some acc' /\ P acc') ->
  exists s', forIndicesOpt n body s = Some s' /\ P s'.
Proof.
  intros H0 Hstep.
  assert (G : forall k, k <= n -> exists s', forIndicesOpt k body s = Some s' /\ P s').
  { induction k as [|k IH]; intros Hk.
    - exists s. split; [reflexivity|exact H0].
    - destruct IH as (a & Ha & Pa); [lia|].
      rewrite forIndicesOpt_S, Ha. apply Hstep; [lia|exact Pa]. }
  apply G. lia.
Qed.

Lemma map_find_Some (m : NodeToRegisterMap) (n : NodeIndex)
      (t : NodeIndex * GeneralizedRegister) :
  map_find m n = Some t -> In t m /\ fst t = n.
Proof.
  unfold map_find. intros H. apply find_some in H. destruct H as [Hin E].
  split; [apply in_rev; exact Hin|apply Z.eqb_eq; exact E].
Qed.

Lemma map_find_None (m : NodeToRegisterMap) (n : NodeIndex) :
  map_find m n = None <-> ~ In n (map fst m).
Proof.
  unfold map_find. split.
  - intros H Hin. apply in_map_iff in Hin. destruct Hin as (t & <- & Hin).
    pose proof (find_none _ _ H t (proj1 (in_rev m t) Hin)) as E.
    simpl in E. rewrite Z.eqb_refl in E. discriminate.
  - intros H. destruct (find (fun t => Z.eqb (fst t) n) (rev m)) as [t|] eqn:E;
      [|reflexivity].
    exfalso. apply find_some in E. destruct E as [Hin E].
    apply H. apply in_map_iff. exists t. split.
    + apply Z.eqb_eq. exact E.
    + apply in_rev. exact Hin.
Qed.

(** With distinct keys, [find] returns the tuple that was [set]. *)
Lemma map_find_unique (m : NodeToRegisterMap) (n : NodeIndex)
      (r : GeneralizedRegister) :
  NoDup (map fst m) -> In (n, r) m -> map_find m n = Some (n, r).
Proof.
  intros Hnd Hin.
  destruct (map_find m n) as [[n' r']|] eqn:E.
  - apply map_find_Some in E. destruct E as [Hin' E]. simpl in E. subst n'.
    f_equal. f_equal.
    clear -Hnd Hin Hin'. induction m as [|[k v] m IH]; [contradiction|].
    simpl in Hnd. apply NoDup_cons_iff in Hnd. destruct Hnd as [Hk Hnd].
    destruct Hin as [E1|Hin]; destruct Hin' as [E2|Hin'].
    + congruence.
    + exfalso. injection E1 as -> ->. apply Hk.
      apply in_map_iff. exists (n, r'). split; [reflexivity|exact Hin'].
    + exfalso. injection E2 as -> ->. apply Hk.
      apply in_map_iff. exists (n, r). split; [reflexivity|exact Hin].
    + apply IH; assumption.
  - exfalso. apply map_find_None in E. apply E.
    apply in_map_iff. exists (n, r). split; [reflexivity|exact Hin].
Qed.

(** ** Arrays and the shuffle graph *)

Lemma last_cons_default (A : Type) (l : list A) :
  forall a d, last (a :: l) d = last l a.
Proof.
  induction l as [|b l IH]; intros a d; [reflexivity|].
  change (last (a :: b :: l) d) with (last (b :: l) d).
  rewrite (IH b d), (IH b a). reflexivity.
Qed.

Lemma length_setNth (A : Type) (i : nat) (v : A) (l : list A) :
  length (setNth i v l) = length l.
Proof.
  revert i. induction l as [|h t IH]; intros i; [reflexivity|].
  destruct i; simpl; [reflexivity|]. rewrite IH. reflexivity.
Qed.

Lemma nth_setNth (A : Type) (i j : nat) (v d : A) (l : list A) :
  nth i (setNth j v l) d =
  if Nat.eqb i j && (j <? length l) then v else nth i l d.
Proof.
  revert i j. induction l as [|h t IH]; intros i j.
  - simpl. rewrite andb_false_r. reflexivity.
  - destruct j as [|j], i as [|i]; simpl; try reflexivity.
    rewrite IH. reflexivity.
Qed.

Lemma Ref_eqb_eq (a b : Ref) : Ref_eqb a b = true <-> a = b.
Proof.
  destruct a as [fa ia], b as [fb ib]. unfold Ref_eqb. simpl. split.
  - intros H. apply andb_prop in H. destruct H as [Hf Hi].
    apply eqb_prop in Hf. apply Nat.eqb_eq in Hi. congruence.
  - intros H. injection H as -> ->. rewrite eqb_reflx, Nat.eqb_refl. reflexivity.
Qed.

Lemma Ref_eqb_refl (a : Ref) : Ref_eqb a a = true.
Proof. apply Ref_eqb_eq. reflexivity. Qed.

Lemma deref_update (sh : Shuffle) (r r' : Ref)
      (f : ShuffledRegister -> ShuffledRegister) :
  deref (update sh r f) r' =
  if Ref_eqb r' r && inBounds sh r then f (deref sh r) else deref sh r'.
Proof.
  destruct r as [fr ir], r' as [fr' ir'].
  unfold deref, update, Ref_eqb, inBounds. simpl.
  destruct fr, fr'; simpl; rewrite ?nth_setNth; reflexivity.
Qed.

Lemma sameLinks_refl (sh : Shuffle) : sameLinks sh sh.
Proof. intros r. split; reflexivity. Qed.

Lemma sameLinks_trans (a b c : Shuffle) :
  sameLinks a b -> sameLinks b c -> sameLinks a c.
Proof.
  intros H1 H2 r. destruct (H1 r) as [E1 E2], (H2 r) as [E3 E4].
  split; congruence.
Qed.

Lemma sameLinks_setHandled (sh : Shuffle) (r : Ref) :
  sameLinks sh (update sh r setHandled).
Proof.
  intros r'. rewrite deref_update.
  destruct (Ref_eqb r' r && inBounds sh r) eqn:E; [|split; reflexivity].
  apply andb_prop in E. destruct E as [E _]. apply Ref_eqb_eq in E. subst r'.
  split; reflexivity.
Qed.

Section BridgingProperties.

Variable X : Externals.

Lemma discoverGPRs_maps (check : SpeculationCheck) (entry : EntryLocation) (k : nat) :
  checkNodeToRegisterMap (discoverGPRs X check entry k) =
    flat_map (gprTuple X (check_m_gprInfo check)) (seq 0 k) /\
  entryNodeToRegisterMap (discoverGPRs X check entry k) =
    flat_map (gprTuple X (entry_m_gprInfo entry)) (seq 0 k).
Proof.
  induction k as [|k [IHc IHe]]; [split; reflexivity|].
  unfold discoverGPRs in *. rewrite forIndices_S, !flat_map_seq_S.
  unfold discoverGPRStep at 1 3. simpl. rewrite IHc, IHe.
  unfold gprTuple, map_set.
  split.
  - destruct (Z.eqb (nodeIndex (gprInfoAt (check_m_gprInfo check) k)) NoNode);
      simpl; rewrite ?app_nil_r; reflexivity.
  - destruct (Z.eqb (nodeIndex (gprInfoAt (entry_m_gprInfo entry) k)) NoNode);
      simpl; rewrite ?app_nil_r; reflexivity.
Qed.

Lemma discover_maps (check : SpeculationCheck) (entry : EntryLocation) :
  checkNodeToRegisterMap (discover X check entry) =
    reverseMap X (check_m_gprInfo check) (check_m_fprInfo check) /\
  entryNodeToRegisterMap (discover X check entry) =
    reverseMap X (entry_m_gprInfo entry) (entry_m_fprInfo entry).
Proof.
  unfold discover, reverseMap.
  fold (discoverGPRs X check entry (GPRInfo_numberOfRegisters X)).
  destruct (discoverGPRs_maps check entry (GPRInfo_numberOfRegisters X)) as [Ec Ee].
  rewrite <- Ec, <- Ee.
  generalize (discoverGPRs X check entry (GPRInfo_numberOfRegisters X)) as d0.
  intros d0.
  induction (FPRInfo_numberOfRegisters X) as [|k [IHc IHe]].
  - simpl. rewrite !app_nil_r. split; reflexivity.
  - rewrite forIndices_S, !flat_map_seq_S, !app_assoc.
    unfold discoverFPRStep at 1 3. simpl. rewrite IHc, IHe.
    unfold fprTuple, map_set.
    split.
    + destruct (Z.eqb (nodeIndex (gprInfoAt (check_m_fprInfo check) k)) NoNode);
        simpl; rewrite ?app_nil_r; reflexivity.
    + destruct (Z.eqb (nodeIndex (gprInfoAt (entry_m_fprInfo entry) k)) NoNode);
        simpl; rewrite ?app_nil_r; reflexivity.
Qed.

(** The scratch GPR of the discovery loop is the last GPR free on both
    sides, if there is one. *)
Lemma discoverGPRs_scratch (check : SpeculationCheck) (entry : EntryLocation)
      (k : nat) :
  (forall i, i < k -> freeOnBothSides check entry i = false) ->
  d_scratchGPR (discoverGPRs X check entry k) = InvalidGPRReg.
Proof.
  induction k as [|k IH]; intros H; [reflexivity|].
  unfold discoverGPRs in *. rewrite forIndices_S.
  unfold discoverGPRStep at 1. simpl.
  specialize (H k (Nat.lt_succ_diag_r k)) as Hk. unfold freeOnBothSides in Hk.
  destruct (Z.eqb (nodeIndex (gprInfoAt (entry_m_gprInfo entry) k)) NoNode); simpl in *.
  - rewrite Hk. apply IH. intros i Hi. apply H. lia.
  - apply IH. intros i Hi. apply H. lia.
Qed.

Lemma discoverGPRs_scratch_found (check : SpeculationCheck) (entry : EntryLocation)
      (k : nat) :
  (exists i, i < k /\ freeOnBothSides check entry i = true) ->
  exists j, j < k /\ freeOnBothSides check entry j = true /\
            d_scratchGPR (discoverGPRs X check entry k) = GPRInfo_toRegister X j.
Proof.
  induction k as [|k IH]; intros (i & Hi & Hfree); [lia|].
  unfold discoverGPRs in *. rewrite forIndices_S.
  unfold discoverGPRStep at 1. simpl.
  destruct (freeOnBothSides check entry k) eqn:Hk.
  - exists k. split; [lia|]. split; [exact Hk|].
    unfold freeOnBothSides in Hk. apply andb_prop in Hk. destruct Hk as [-> ->].
    reflexivity.
  - assert (Hi' : i < k).
    { destruct (Nat.eq_dec i k) as [->|]; [congruence|lia]. }
    destruct IH as (j & Hj & Hjf & E); [exists i; split; assumption|].
    exists j. split; [lia|]. split; [exact Hjf|].
    unfold freeOnBothSides in Hk.
    destruct (Z.eqb (nodeIndex (gprInfoAt (entry_m_gprInfo entry) k)) NoNode); simpl in *.
    + rewrite Hk. exact E.
    + exact E.
Qed.

Lemma discover_scratchGPR (check : SpeculationCheck) (entry : EntryLocation) :
  d_scratchGPR (discover X check entry) =
  d_scratchGPR (discoverGPRs X check entry (GPRInfo_numberOfRegisters X)).
Proof.
  unfold discover. fold (discoverGPRs X check entry (GPRInfo_numberOfRegisters X)).
  generalize (discoverGPRs X check entry (GPRInfo_numberOfRegisters X)) as d0. intros d0.
  induction (FPRInfo_numberOfRegisters X) as [|k IH]; [reflexivity|].
  rewrite forIndices_S. unfold discoverFPRStep at 1. simpl. exact IH.
Qed.

(** *** The tag-mask fallback *)

Lemma wantedByEntry_find (check : SpeculationCheck) (entry : EntryLocation)
      (n : NodeIndex) :
  wantedByEntry X entry n = true <->
  map_find (entryNodeToRegisterMap (discover X check entry)) n <> None.
Proof.
  destruct (discover_maps check entry) as [_ ->].
  rewrite map_find_None. unfold wantedByEntry. rewrite existsb_exists. split.
  - intros (x & Hin & E) H. apply Z.eqb_eq in E. subst x. contradiction.
  - intros H.
    destruct (in_dec Z.eq_dec n
                (map fst (reverseMap X (entry_m_gprInfo entry) (entry_m_fprInfo entry))))
      as [Hin|Hnin]; [|contradiction].
    exists n. split; [exact Hin|apply Z.eqb_refl].
Qed.

Lemma freeOnBothSides_candidate (check : SpeculationCheck) (entry : EntryLocation)
      (i : nat) :
  freeOnBothSides check entry i = true -> scratchCandidate X check entry i = true.
Proof.
  unfold freeOnBothSides, scratchCandidate. intros H.
  apply andb_prop in H. destruct H as [-> ->]. reflexivity.
Qed.

Lemma spillGPRs_scratch_none (graph : Graph) (check : SpeculationCheck)
      (entry : EntryLocation) (k : nat) :
  (forall i, i < GPRInfo_numberOfRegisters X -> scratchCandidate X check entry i = false) ->
  k <= GPRInfo_numberOfRegisters X ->
  sg_scratchGPR (spillGPRsUpTo X graph check entry k) = InvalidGPRReg.
Proof.
  intros Hnone. induction k as [|k IH]; intros Hk.
  - unfold spillGPRsUpTo. rewrite forIndices_0. simpl.
    rewrite discover_scratchGPR. apply discoverGPRs_scratch.
    intros i Hi. destruct (freeOnBothSides check entry i) eqn:E; [|reflexivity].
    apply freeOnBothSides_candidate in E. rewrite Hnone in E by exact Hi.
    discriminate.
  - unfold spillGPRsUpTo in *. rewrite forIndices_S.
    specialize (IH ltac:(lia)). specialize (Hnone k ltac:(lia)).
    unfold spillGPRStep at 1.
    destruct (Z.eqb (nodeIndex (gprInfoAt (check_m_gprInfo check) k)) NoNode) eqn:Ec;
      [exact IH|].
    destruct (map_find _ _) as [t|] eqn:Ef.
    + destruct (negb _); simpl; exact IH.
    + simpl. unfold scratchCandidate in Hnone. rewrite Ec in Hnone. simpl in Hnone.
      destruct (Z.eqb (nodeIndex (gprInfoAt (entry_m_gprInfo entry) k)) NoNode);
        [|exact IH].
      simpl in Hnone. apply negb_false_iff in Hnone.
      apply (wantedByEntry_find check) in Hnone. contradiction.
Qed.

Lemma spillGPRs_scratch_some (graph : Graph) (check : SpeculationCheck)
      (entry : EntryLocation) (k : nat) :
  k <= GPRInfo_numberOfRegisters X ->
  (exists i, i < GPRInfo_numberOfRegisters X /\ freeOnBothSides check entry i = true) \/
  (exists i, i < k /\ scratchCandidate X check entry i = true) ->
  exists j, j < GPRInfo_numberOfRegisters X /\
            sg_scratchGPR (spillGPRsUpTo X graph check entry k) = GPRInfo_toRegister X j.
Proof.
  induction k as [|k IH]; intros Hk H.
  - destruct H as [H|(i & Hi & _)]; [|lia].
    unfold spillGPRsUpTo. rewrite forIndices_0. simpl. rewrite discover_scratchGPR.
    destruct (discoverGPRs_scratch_found check entry H) as (j & Hj & _ & E).
    exists j. split; assumption.
  - unfold spillGPRsUpTo in *. rewrite forIndices_S.
    unfold spillGPRStep at 1.
    assert (Hprev :
              (exists i, i < GPRInfo_numberOfRegisters X /\
                         freeOnBothSides check entry i = true) \/
              (exists i, i < k /\ scratchCandidate X check entry i = true) \/
              (scratchCandidate X check entry k = true /\
               freeOnBothSides check entry k = false)).
    { destruct H as [H|(i & Hi & Hc)]; [left; exact H|].
      destruct (Nat.eq_dec i k) as [->|Hne].
      - destruct (freeOnBothSides check entry k) eqn:Hf.
        + left. exists k. split; [lia|exact Hf].
        + right. right. split; [exact Hc|reflexivity].
      - right. left. exists i. split; [lia|exact Hc]. }
    assert (Hkeep : (exists i, i < GPRInfo_numberOfRegisters X /\
                               freeOnBothSides check entry i = true) \/
                    (exists i, i < k /\ scratchCandidate X check entry i = true) ->
                    exists j, j < GPRInfo_numberOfRegisters X /\
                              sg_scratchGPR
                                (forIndices k
                                   (spillGPRStep X graph check entry
                                      (entryNodeToRegisterMap (discover X check entry)))
                                   {| sg_shuffle := initialShuffle X;
                                      sg_scratchGPR := d_scratchGPR (discover X check entry);
                                      sg_code := [] |}) = GPRInfo_toRegister X j).
    { intros H'. apply IH; [lia|exact H']. }
    destruct (Z.eqb (nodeIndex (gprInfoAt (check_m_gprInfo check) k)) NoNode) eqn:Ec.
    + destruct Hprev as [H'|[H'|[Hc Hf]]];
        [apply Hkeep; left; exact H'|apply Hkeep; right; exact H'|].
      exfalso. unfold scratchCandidate in Hc. unfold freeOnBothSides in Hf.
      rewrite Ec in Hc, Hf.
      destruct (Z.eqb (nodeIndex (gprInfoAt (entry_m_gprInfo entry) k)) NoNode);
        simpl in *; discriminate.
    + destruct (map_find _ _) as [t|] eqn:Ef.
      * assert (Hw : wantedByEntry X entry
                       (nodeIndex (gprInfoAt (check_m_gprInfo check) k)) = true).
        { apply (wantedByEntry_find check). rewrite Ef. discriminate. }
        destruct Hprev as [H'|[H'|[Hc Hf]]].
        -- destruct (negb _); simpl; apply Hkeep; left; exact H'.
        -- destruct (negb _); simpl; apply Hkeep; right; exact H'.
        -- exfalso. unfold scratchCandidate in Hc. rewrite Ec, Hw in Hc.
           simpl in Hc. rewrite andb_false_r in Hc. discriminate.
      * simpl.
        destruct (Z.eqb (nodeIndex (gprInfoAt (entry_m_gprInfo entry) k)) NoNode) eqn:Ee.
        -- exists k. split; [lia|reflexivity].
        -- destruct Hprev as [H'|[H'|[Hc Hf]]];
             [apply Hkeep; left; exact H'|apply Hkeep; right; exact H'|].
           exfalso. unfold scratchCandidate in Hc. rewrite Ee in Hc. discriminate.
Qed.

(** *** Cycles *)

Lemma cycleLinks_sameLinks (sh sh' : Shuffle) (this : Ref) (rest : list Ref) :
  sameLinks sh sh' ->
  forall cur, cycleLinks sh this cur rest -> cycleLinks sh' this cur rest.
Proof.
  intros Hs. induction rest as [|nxt rest IH]; intros cur H; simpl in *.
  - rewrite (proj1 (Hs cur)). exact H.
  - destruct H as (H1 & H2 & H3). rewrite (proj1 (Hs cur)).
    split; [exact H1|]. split; [exact H2|]. apply IH. exact H3.
Qed.

Lemma rotationMoves_sameLinks (check : SpeculationCheck) (entry : EntryLocation)
      (sh sh' : Shuffle) (scratchFPR1 : FPRReg) (rest : list Ref) :
  sameLinks sh sh' ->
  forall cur, rotationMoves X check entry sh' scratchFPR1 cur rest =
              rotationMoves X check entry sh scratchFPR1 cur rest.
Proof.
  intros Hs. induction rest as [|nxt rest IH]; intros cur; simpl; [reflexivity|].
  rewrite IH, (proj2 (Hs cur)), (proj2 (Hs nxt)). reflexivity.
Qed.

Lemma measureCycle_cycle (this : Ref) (rest : list Ref) :
  forall cur sh len fuel,
    cycleLinks sh this cur rest ->
    length rest < fuel ->
    exists sh',
      measureCycle fuel this cur len sh = Some (sh', len + S (length rest), last rest cur) /\
      sameLinks sh sh'.
Proof.
  induction rest as [|nxt rest IH]; intros cur sh len fuel H Hfuel;
    (destruct fuel as [|fuel]; [simpl in Hfuel; lia|]); simpl in *.
  - rewrite H, Ref_eqb_refl. eexists. split.
    + rewrite Nat.add_1_r. reflexivity.
    + apply sameLinks_setHandled.
  - destruct H as (H1 & H2 & H3). rewrite H1, H2.
    destruct (IH nxt (update sh cur setHandled) (S len) fuel) as (sh' & E & Hs).
    + apply (@cycleLinks_sameLinks sh _ this rest (sameLinks_setHandled sh cur)).
      exact H3.
    + lia.
    + exists sh'. split.
      * rewrite E. f_equal. f_equal; [f_equal; lia|].
        symmetry. apply last_cons_default.
      * apply (sameLinks_trans (sameLinks_setHandled sh cur) Hs).
Qed.

Lemma rotateCycle_cycle (check : SpeculationCheck) (entry : EntryLocation)
      (sh : Shuffle) (this : Ref) (scratchFPR1 : FPRReg) (rest : list Ref) :
  forall cur fuel,
    cycleLinks sh this cur rest ->
    length rest < fuel ->
    rotateCycle X fuel check entry sh this cur scratchFPR1 =
    Some (rotationMoves X check entry sh scratchFPR1 cur rest).
Proof.
  induction rest as [|nxt rest IH]; intros cur fuel H Hfuel;
    (destruct fuel as [|fuel]; [simpl in Hfuel; lia|]); simpl in *.
  - rewrite H, Ref_eqb_refl. reflexivity.
  - destruct H as (H1 & H2 & H3). rewrite H1, H2.
    rewrite (IH nxt fuel H3) by lia. reflexivity.
Qed.

(** Between an FPR and anything, and from anything into an FPR, [moveTo]
    does not look at the data formats. *)
Lemma moveTo_FPR_formats (r other : GeneralizedRegister)
      (f1 f2 g1 g2 : DataFormat) (scratchFPR : FPRReg) :
  m_isFPR r || m_isFPR other = true ->
  moveTo X r other f1 f2 scratchFPR = moveTo X r other g1 g2 scratchFPR.
Proof.
  unfold moveTo. destruct (m_isFPR r), (m_isFPR other); simpl;
    intros H; try discriminate; reflexivity.
Qed.

(** C3, amended: for a cycle [this :: rest] of the permutation graph,
    [handleCyclingPermutation] appends exactly [cycleCode]: for length 1
    the in-place conversion; for length 2 between two GPRs one [swap]
    followed by the conversions of both endpoints, and when an endpoint is
    an FPR an exchange through the scratch registers without any [swap];
    for length 3 and more the save of [this] into the scratch (the second
    scratch FPR exactly when [this] and its successor are FPRs and there
    is a second scratch FPR, the scratch GPR otherwise), the moves that
    rotate the other registers, and the move of the scratch into the
    successor of [this]. *)
Theorem cycle_resolution (check : SpeculationCheck) (entry : EntryLocation)
        (this : Ref) (rest : list Ref) (scratchGPR : GPRReg)
        (st : ShuffleState) (fuel : nat) :
  cycleLinks (st_shuffle st) this this rest ->
  length rest < fuel ->
  exists st',
    handleCyclingPermutation X fuel check entry this scratchGPR st = Some st' /\
    st_code st' =
      st_code st ++ cycleCode X check entry (st_shuffle st) this rest scratchGPR
                              (st_scratchFPR1 st) (st_scratchFPR2 st) /\
    st_scratchFPR1 st' = st_scratchFPR1 st /\
    st_scratchFPR2 st' = st_scratchFPR2 st /\
    sameLinks (st_shuffle st) (st_shuffle st').
Proof.
  intros Hcyc Hfuel.
  destruct (@measureCycle_cycle this rest this (st_shuffle st) 0 fuel Hcyc Hfuel)
    as (sh' & Em & Hs).
  unfold handleCyclingPermutation. rewrite Em.
  pose proof (proj2 (Hs this)) as Ethis.
  destruct rest as [|p [|q rest]].
  - simpl. eexists. split; [reflexivity|]. simpl. rewrite Ethis.
    exact (conj eq_refl (conj eq_refl (conj eq_refl Hs))).
  - simpl in Hcyc. destruct Hcyc as (Hp & _ & _).
    simpl. rewrite (proj1 (Hs this)), Hp.
    eexists. split; [reflexivity|]. simpl. rewrite Ethis, (proj2 (Hs p)).
    split; [|exact (conj eq_refl (conj eq_refl Hs))].
    f_equal. unfold swapWith, exchangeThroughScratch, swapFPRWith.
    destruct (m_isFPR (reg (deref (st_shuffle st) this))),
             (m_isFPR (reg (deref (st_shuffle st) p))); reflexivity.
  - change (0 + S (length (p :: q :: rest))) with (S (S (S (length rest)))).
    unfold cycleCode. cbv beta iota zeta.
    pose proof (proj2 (Hs (last (p :: q :: rest) this))) as Enext.
    pose proof (@rotateCycle_cycle check entry sh' this (st_scratchFPR1 st)
                  (p :: q :: rest) this fuel
                  (@cycleLinks_sameLinks _ _ this (p :: q :: rest) Hs this Hcyc) Hfuel)
      as Er.
    rewrite (rotationMoves_sameLinks check entry (st_scratchFPR1 st)
               (p :: q :: rest) Hs this) in Er.
    set (next := last (p :: q :: rest) this) in *. clearbody next.
    set (rotation := rotationMoves X check entry (st_shuffle st) (st_scratchFPR1 st)
                                   this (p :: q :: rest)) in *.
    clearbody rotation.
    unfold handleLongCycle. rewrite Er, Ethis, Enext.
    set (thisReg := reg (deref (st_shuffle st) this)).
    set (nextReg := reg (deref (st_shuffle st) next)).
    eexists. split; [reflexivity|].
    split; [|exact (conj eq_refl (conj eq_refl Hs))].
    unfold appendCode, st_code. f_equal.
    unfold cycleScratch.
    destruct (m_isFPR thisReg) eqn:Ft, (m_isFPR nextReg) eqn:Fn; simpl andb;
      cbv iota; try reflexivity.
    destruct (Z.eqb (st_scratchFPR2 st) InvalidFPRReg); simpl negb; cbv iota.
    + apply (f_equal2 (@app Instr));
        [|apply (f_equal2 (@app Instr)); [reflexivity|]];
        apply moveTo_FPR_formats; simpl;
        rewrite ?Ft, ?Fn, ?orb_true_r; reflexivity.
    + apply (f_equal2 (@app Instr));
        [|apply (f_equal2 (@app Instr)); [reflexivity|]];
        apply moveTo_FPR_formats; simpl;
        rewrite ?Ft, ?Fn, ?orb_true_r; reflexivity.
Qed.

(** *** Identical register maps *)

Lemma setNth_setNth (A : Type) (i : nat) (x y : A) (l : list A) :
  setNth i x (setNth i y l) = setNth i x l.
Proof.
  revert i. induction l as [|h t IH]; intros i; [reflexivity|].
  destruct i; simpl; [reflexivity|]. rewrite IH. reflexivity.
Qed.

Lemma length_linkedGPRs (infos : list RegisterInfo) (k : nat) :
  length (linkedGPRs X infos k) = GPRInfo_numberOfRegisters X.
Proof. unfold linkedGPRs. rewrite length_map, length_seq. reflexivity. Qed.

Lemma length_linkedFPRs (infos : list RegisterInfo) (k : nat) :
  length (linkedFPRs X infos k) = FPRInfo_numberOfRegisters X.
Proof. unfold linkedFPRs. rewrite length_map, length_seq. reflexivity. Qed.

Lemma linkedGPRs_skip (infos : list RegisterInfo) (k : nat) :
  occupied infos k = false -> linkedGPRs X infos (S k) = linkedGPRs X infos k.
Proof.
  intros H. apply map_ext. intros i.
  destruct (Nat.eq_dec i k) as [->|Hne].
  - rewrite H, !andb_false_r. reflexivity.
  - replace (i <? S k) with (i <? k); [reflexivity|].
    destruct (Nat.ltb_spec i k), (Nat.ltb_spec i (S k)); try reflexivity; lia.
Qed.

Lemma linkedFPRs_skip (infos : list RegisterInfo) (k : nat) :
  occupied infos k = false -> linkedFPRs X infos (S k) = linkedFPRs X infos k.
Proof.
  intros H. apply map_ext. intros i.
  destruct (Nat.eq_dec i k) as [->|Hne].
  - rewrite H, !andb_false_r. reflexivity.
  - replace (i <? S k) with (i <? k); [reflexivity|].
    destruct (Nat.ltb_spec i k), (Nat.ltb_spec i (S k)); try reflexivity; lia.
Qed.

Lemma linkedGPRs_link (infos : list RegisterInfo) (k : nat) :
  k < GPRInfo_numberOfRegisters X ->
  occupied infos k = true ->
  setNth k (selfLinked (createGPR (GPRInfo_toRegister X k))
                       {| ref_isFPR := false; ref_index := k |})
         (linkedGPRs X infos k) = linkedGPRs X infos (S k).
Proof.
  intros Hk H. unfold linkedGPRs. rewrite setNth_map_seq by exact Hk.
  apply map_ext. intros i. simpl.
  destruct (Nat.eqb_spec i k) as [->|Hne].
  - rewrite H. replace (k <? S k) with true; [reflexivity|].
    symmetry. apply Nat.ltb_lt. lia.
  - replace (i <? S k) with (i <? k); [reflexivity|].
    destruct (Nat.ltb_spec i k), (Nat.ltb_spec i (S k)); try reflexivity; lia.
Qed.

Lemma linkedFPRs_link (infos : list RegisterInfo) (k : nat) :
  k < FPRInfo_numberOfRegisters X ->
  occupied infos k = true ->
  setNth k (selfLinked (createFPR (FPRInfo_toRegister X k))
                       {| ref_isFPR := true; ref_index := k |})
         (linkedFPRs X infos k) = linkedFPRs X infos (S k).
Proof.
  intros Hk H. unfold linkedFPRs. rewrite setNth_map_seq by exact Hk.
  apply map_ext. intros i. simpl.
  destruct (Nat.eqb_spec i k) as [->|Hne].
  - rewrite H. replace (k <? S k) with true; [reflexivity|].
    symmetry. apply Nat.ltb_lt. lia.
  - replace (i <? S k) with (i <? k); [reflexivity|].
    destruct (Nat.ltb_spec i k), (Nat.ltb_spec i (S k)); try reflexivity; lia.
Qed.

Lemma nth_linkedGPRs_fresh (infos : list RegisterInfo) (k : nat) :
  k < GPRInfo_numberOfRegisters X ->
  nth k (linkedGPRs X infos k) nullShuffledRegister =
  newShuffledRegister (createGPR (GPRInfo_toRegister X k)).
Proof.
  intros Hk. unfold linkedGPRs. rewrite nth_map_seq by exact Hk.
  rewrite Nat.ltb_irrefl. reflexivity.
Qed.

Lemma nth_linkedFPRs_fresh (infos : list RegisterInfo) (k : nat) :
  k < FPRInfo_numberOfRegisters X ->
  nth k (linkedFPRs X infos k) nullShuffledRegister =
  newShuffledRegister (createFPR (FPRInfo_toRegister X k)).
Proof.
  intros Hk. unfold linkedFPRs. rewrite nth_map_seq by exact Hk.
  rewrite Nat.ltb_irrefl. reflexivity.
Qed.

Lemma reverseMap_gpr_In (gprInfo fprInfo : list RegisterInfo) (i : nat) :
  i < GPRInfo_numberOfRegisters X ->
  occupied gprInfo i = true ->
  In (nodeIndex (gprInfoAt gprInfo i), createGPR (GPRInfo_toRegister X i))
     (reverseMap X gprInfo fprInfo).
Proof.
  intros Hi Hocc. unfold reverseMap. apply in_or_app. left.
  apply in_flat_map. exists i. split; [apply in_seq; lia|].
  unfold gprTuple. unfold occupied in Hocc.
  destruct (Z.eqb (nodeIndex (gprInfoAt gprInfo i)) NoNode); [discriminate|].
  left. reflexivity.
Qed.

Lemma reverseMap_fpr_In (gprInfo fprInfo : list RegisterInfo) (i : nat) :
  i < FPRInfo_numberOfRegisters X ->
  occupied fprInfo i = true ->
  In (nodeIndex (gprInfoAt fprInfo i), createFPR (FPRInfo_toRegister X i))
     (reverseMap X gprInfo fprInfo).
Proof.
  intros Hi Hocc. unfold reverseMap. apply in_or_app. right.
  apply in_flat_map. exists i. split; [apply in_seq; lia|].
  unfold fprTuple. unfold occupied in Hocc.
  destruct (Z.eqb (nodeIndex (gprInfoAt fprInfo i)) NoNode); [discriminate|].
  left. reflexivity.
Qed.

Section IdenticalMaps.

Variable graph : Graph.
Variable check : SpeculationCheck.
Variable entry : EntryLocation.

Let gprInfo := check_m_gprInfo check.
Let fprInfo := check_m_fprInfo check.

Hypothesis sameGPRs : entry_m_gprInfo entry = check_m_gprInfo check.
Hypothesis sameFPRs : entry_m_fprInfo entry = check_m_fprInfo check.
Hypothesis gprIndex :
  forall i, i < GPRInfo_numberOfRegisters X ->
            GPRInfo_toIndex X (GPRInfo_toRegister X i) = i.
Hypothesis fprIndex :
  forall i, i < FPRInfo_numberOfRegisters X ->
            FPRInfo_toIndex X (FPRInfo_toRegister X i) = i.
Hypothesis uniqueNodes :
  NoDup (map fst (reverseMap X (check_m_gprInfo check) (check_m_fprInfo check))).
Hypothesis gprFormats :
  forall i, i < GPRInfo_numberOfRegisters X -> occupied (check_m_gprInfo check) i = true ->
            needDataFormatConversion X (format (gprInfoAt (check_m_gprInfo check) i))
                                     (format (gprInfoAt (check_m_gprInfo check) i)) = false.
Hypothesis fprFormats :
  forall i, i < FPRInfo_numberOfRegisters X -> occupied (check_m_fprInfo check) i = true ->
            needDataFormatConversion X (format (gprInfoAt (check_m_fprInfo check) i))
                                     (format (gprInfoAt (check_m_fprInfo check) i)) = false.

Let theMap := reverseMap X (check_m_gprInfo check) (check_m_fprInfo check).

Lemma identical_entryMap :
  entryNodeToRegisterMap (discover X check entry) = theMap.
Proof.
  destruct (discover_maps check entry) as [_ ->]. rewrite sameGPRs, sameFPRs.
  reflexivity.
Qed.

Lemma identical_checkMap :
  checkNodeToRegisterMap (discover X check entry) = theMap.
Proof.
  destruct (discover_maps check entry) as [-> _]. reflexivity.
Qed.

Lemma identical_find_gpr (i : nat) :
  i < GPRInfo_numberOfRegisters X -> occupied gprInfo i = true ->
  map_find theMap (nodeIndex (gprInfoAt gprInfo i)) =
  Some (nodeIndex (gprInfoAt gprInfo i), createGPR (GPRInfo_toRegister X i)).
Proof.
  intros Hi Hocc. apply map_find_unique; [exact uniqueNodes|].
  apply reverseMap_gpr_In; assumption.
Qed.

Lemma identical_find_fpr (i : nat) :
  i < FPRInfo_numberOfRegisters X -> occupied fprInfo i = true ->
  map_find theMap (nodeIndex (gprInfoAt fprInfo i)) =
  Some (nodeIndex (gprInfoAt fprInfo i), createFPR (FPRInfo_toRegister X i)).
Proof.
  intros Hi Hocc. apply map_find_unique; [exact uniqueNodes|].
  apply reverseMap_fpr_In; assumption.
Qed.

(** Part 1 over the GPRs links every occupied GPR to itself, emits
    nothing and leaves the scratch GPR alone. *)
Lemma identical_spillGPRs (scratch : GPRReg) (k : nat) :
  k <= GPRInfo_numberOfRegisters X ->
  forIndices k (spillGPRStep X graph check entry theMap)
             {| sg_shuffle := initialShuffle X; sg_scratchGPR := scratch;
                sg_code := [] |} =
  {| sg_shuffle := {| gprs := linkedGPRs X gprInfo k; fprs := linkedFPRs X fprInfo 0 |};
     sg_scratchGPR := scratch;
     sg_code := [] |}.
Proof.
  induction k as [|k IH]; intros Hk.
  - rewrite forIndices_0. reflexivity.
  - rewrite forIndices_S, IH by lia. unfold spillGPRStep.
    fold gprInfo.
    destruct (Z.eqb (nodeIndex (gprInfoAt gprInfo k)) NoNode) eqn:En.
    + rewrite linkedGPRs_skip; [reflexivity|]. unfold occupied. rewrite En. reflexivity.
    + assert (Hocc : occupied gprInfo k = true) by (unfold occupied; rewrite En; reflexivity).
      rewrite identical_find_gpr by (assumption || lia).
      simpl snd. unfold findInEntryLocation. simpl m_isFPR. simpl m_register.
      rewrite gprIndex by lia. rewrite sameGPRs. fold gprInfo.
      assert (Eshuffle :
                linkTo X {| ref_isFPR := false; ref_index := k |}
                       (createGPR (GPRInfo_toRegister X k))
                       {| gprs := linkedGPRs X gprInfo k; fprs := linkedFPRs X fprInfo 0 |} =
                {| gprs := linkedGPRs X gprInfo (S k); fprs := linkedFPRs X fprInfo 0 |}).
      { unfold linkTo, lookup. simpl m_isFPR. simpl m_register.
        rewrite gprIndex by lia.
        unfold update, deref. simpl.
        rewrite nth_setNth, Nat.eqb_refl, length_linkedGPRs.
        replace (k <? GPRInfo_numberOfRegisters X) with true
          by (symmetry; apply Nat.ltb_lt; lia).
        simpl. rewrite setNth_setNth, nth_linkedGPRs_fresh by lia.
        rewrite <- linkedGPRs_link by (assumption || lia). reflexivity. }
      simpl sg_shuffle. rewrite Eshuffle. simpl.
      destruct (isSpilled (gprInfoAt gprInfo k)); reflexivity.
Qed.

(** Part 1 over the FPRs does the same and leaves the scratch FPRs
    alone. *)
Lemma identical_spillFPRs (scratchGPR : GPRReg) (s1 s2 : FPRReg) (k : nat) :
  k <= FPRInfo_numberOfRegisters X ->
  forIndices k (spillFPRStep X graph check entry theMap scratchGPR)
             {| st_shuffle := {| gprs := linkedGPRs X gprInfo (GPRInfo_numberOfRegisters X);
                                 fprs := linkedFPRs X fprInfo 0 |};
                st_scratchFPR1 := s1; st_scratchFPR2 := s2; st_code := [] |} =
  {| st_shuffle := {| gprs := linkedGPRs X gprInfo (GPRInfo_numberOfRegisters X);
                      fprs := linkedFPRs X fprInfo k |};
     st_scratchFPR1 := s1; st_scratchFPR2 := s2; st_code := [] |}.
Proof.
  induction k as [|k IH]; intros Hk.
  - rewrite forIndices_0. reflexivity.
  - rewrite forIndices_S, IH by lia. unfold spillFPRStep.
    fold fprInfo.
    destruct (Z.eqb (nodeIndex (gprInfoAt fprInfo k)) NoNode) eqn:En.
    + rewrite linkedFPRs_skip; [reflexivity|]. unfold occupied. rewrite En. reflexivity.
    + assert (Hocc : occupied fprInfo k = true) by (unfold occupied; rewrite En; reflexivity).
      rewrite identical_find_fpr by (assumption || lia).
      simpl snd. unfold findInEntryLocation. simpl m_isFPR. simpl m_register.
      rewrite fprIndex by lia. rewrite sameFPRs. fold fprInfo.
      assert (Eshuffle :
                linkTo X {| ref_isFPR := true; ref_index := k |}
                       (createFPR (FPRInfo_toRegister X k))
                       {| gprs := linkedGPRs X gprInfo (GPRInfo_numberOfRegisters X);
                          fprs := linkedFPRs X fprInfo k |} =
                {| gprs := linkedGPRs X gprInfo (GPRInfo_numberOfRegisters X);
                   fprs := linkedFPRs X fprInfo (S k) |}).
      { unfold linkTo, lookup. simpl m_isFPR. simpl m_register.
        rewrite fprIndex by lia.
        unfold update, deref. simpl.
        rewrite nth_setNth, Nat.eqb_refl, length_linkedFPRs.
        replace (k <? FPRInfo_numberOfRegisters X) with true
          by (symmetry; apply Nat.ltb_lt; lia).
        simpl. rewrite setNth_setNth, nth_linkedFPRs_fresh by lia.
        rewrite <- linkedFPRs_link by (assumption || lia). reflexivity. }
      simpl st_shuffle. rewrite Eshuffle. simpl.
      destruct (isSpilled (gprInfoAt fprInfo k)); reflexivity.
Qed.

Lemma Linked_after_part1 :
  Linked X gprInfo fprInfo {| gprs := linkedGPRs X gprInfo (GPRInfo_numberOfRegisters X);
            fprs := linkedFPRs X fprInfo (FPRInfo_numberOfRegisters X) |}.
Proof.
  split; [apply length_linkedGPRs|]. split; [apply length_linkedFPRs|]. split.
  - intros i Hi. simpl. unfold linkedGPRs. rewrite nth_map_seq by exact Hi.
    replace (i <? GPRInfo_numberOfRegisters X) with true
      by (symmetry; apply Nat.ltb_lt; exact Hi).
    simpl. unfold linkedSelf. destruct (occupied gprInfo i); simpl; auto.
  - intros i Hi. simpl. unfold linkedFPRs. rewrite nth_map_seq by exact Hi.
    replace (i <? FPRInfo_numberOfRegisters X) with true
      by (symmetry; apply Nat.ltb_lt; exact Hi).
    simpl. unfold linkedSelf. destruct (occupied fprInfo i); simpl; auto.
Qed.

(** What a register of the loops over all registers looks like. *)
Lemma Linked_deref (sh : Shuffle) (index : nat) :
  Linked X gprInfo fprInfo sh ->
  index < numberOfShuffledRegisters X ->
  let r := lookupForRegister X index in
  exists regOf occ,
    linkedSelf regOf r occ (deref sh r) /\
    inBounds sh r = true /\
    (occ = true ->
     needDataFormatConversion X (previousDataFormat X regOf check)
                              (nextDataFormat X regOf entry) = false).
Proof.
  intros (Lg & Lf & Hg & Hf) Hidx. unfold lookupForRegister, numberOfShuffledRegisters in *.
  destruct (Nat.ltb_spec index (GPRInfo_numberOfRegisters X)) as [Hlt|Hge]; simpl.
  - exists (createGPR (GPRInfo_toRegister X index)), (occupied gprInfo index).
    split; [apply (Hg index Hlt)|]. split.
    + unfold inBounds. simpl. rewrite Lg. apply Nat.ltb_lt. exact Hlt.
    + intros Hocc. unfold previousDataFormat, nextDataFormat,
        findInSpeculationCheck, findInEntryLocation. simpl.
      rewrite gprIndex by exact Hlt. rewrite sameGPRs.
      apply gprFormats; assumption.
  - assert (Hlt : index - GPRInfo_numberOfRegisters X < FPRInfo_numberOfRegisters X)
      by lia.
    exists (createFPR (FPRInfo_toRegister X (index - GPRInfo_numberOfRegisters X))),
           (occupied fprInfo (index - GPRInfo_numberOfRegisters X)).
    split; [apply (Hf _ Hlt)|]. split.
    + unfold inBounds. simpl. rewrite Lf. apply Nat.ltb_lt. exact Hlt.
    + intros Hocc. unfold previousDataFormat, nextDataFormat,
        findInSpeculationCheck, findInEntryLocation. simpl.
      rewrite fprIndex by exact Hlt. rewrite sameFPRs.
      apply fprFormats; assumption.
Qed.

Lemma linkedSelf_setHandled (regOf : GeneralizedRegister) (self : Ref)
      (s : ShuffledRegister) :
  linkedSelf regOf self true s -> linkedSelf regOf self true (setHandled s).
Proof. intros H. exact H. Qed.

Lemma Linked_setHandled (sh : Shuffle) (index : nat) :
  Linked X gprInfo fprInfo sh ->
  index < numberOfShuffledRegisters X ->
  (exists regOf, linkedSelf regOf (lookupForRegister X index) true
                            (deref sh (lookupForRegister X index))) ->
  Linked X gprInfo fprInfo (update sh (lookupForRegister X index) setHandled).
Proof.
  intros (Lg & Lf & Hg & Hf) Hidx (regOf & Hself).
  unfold lookupForRegister, numberOfShuffledRegisters in *.
  destruct (Nat.ltb_spec index (GPRInfo_numberOfRegisters X)) as [Hlt|Hge];
    unfold Linked, update, deref in *; simpl in *.
  - split; [rewrite length_setNth; exact Lg|]. split; [exact Lf|]. split; [|exact Hf].
    intros i Hi. rewrite nth_setNth, Lg.
    destruct (Nat.eqb_spec i index) as [->|Hne]; simpl; [|apply Hg; exact Hi].
    replace (index <? GPRInfo_numberOfRegisters X) with true
      by (symmetry; apply Nat.ltb_lt; exact Hlt).
    specialize (Hg index Hlt). unfold linkedSelf in *.
    destruct Hg as [Hreg Hocc], Hself as [_ Hs].
    destruct (occupied gprInfo index).
    + split; assumption.
    + exfalso. rewrite Hocc in Hs. simpl in Hs. destruct Hs as (Hs & _). discriminate.
  - assert (Hlt : index - GPRInfo_numberOfRegisters X < FPRInfo_numberOfRegisters X)
      by lia.
    split; [exact Lg|]. split; [rewrite length_setNth; exact Lf|]. split; [exact Hg|].
    intros i Hi. rewrite nth_setNth, Lf.
    destruct (Nat.eqb_spec i (index - GPRInfo_numberOfRegisters X)) as [->|Hne]; simpl;
      [|apply Hf; exact Hi].
    replace (index - GPRInfo_numberOfRegisters X <? FPRInfo_numberOfRegisters X) with true
      by (symmetry; apply Nat.ltb_lt; exact Hlt).
    specialize (Hf _ Hlt). unfold linkedSelf in *.
    destruct Hf as [Hreg Hocc], Hself as [_ Hs].
    destruct (occupied fprInfo (index - GPRInfo_numberOfRegisters X)).
    + split; assumption.
    + exfalso. rewrite Hocc in Hs. simpl in Hs. destruct Hs as (Hs & _). discriminate.
Qed.

(** No register ends a chain. *)
Lemma identical_chainStep (st : ShuffleState) (index : nat) :
  Linked X gprInfo fprInfo (st_shuffle st) ->
  index < numberOfShuffledRegisters X ->
  chainStep X check entry index st = Some st.
Proof.
  intros HL Hidx. unfold chainStep.
  destruct (Linked_deref HL Hidx) as (regOf & occ & (Hreg & Hs) & _ & _).
  unfold isEndOfNonCyclingPermutation.
  destruct occ.
  - destruct Hs as (_ & -> & ->). reflexivity.
  - rewrite Hs. reflexivity.
Qed.

(** Every cycle is a self-loop whose conversion emits nothing. *)
Lemma identical_cycleStep (scratchGPR : GPRReg) (st : ShuffleState) (index : nat) :
  Linked X gprInfo fprInfo (st_shuffle st) ->
  index < numberOfShuffledRegisters X ->
  exists st',
    cycleStep X check entry scratchGPR index st = Some st' /\
    Linked X gprInfo fprInfo (st_shuffle st') /\ st_code st' = st_code st.
Proof.
  intros HL Hidx. unfold cycleStep.
  destruct (Linked_deref HL Hidx) as (regOf & occ & Hself & Hin & Hfmt).
  destruct (handled (deref (st_shuffle st) (lookupForRegister X index))
            || untouched (deref (st_shuffle st) (lookupForRegister X index))) eqn:Hskip.
  - exists st. split; [reflexivity|]. split; [exact HL|reflexivity].
  - destruct occ.
    + pose proof Hself as (Hreg & Hprev & _ & _).
      unfold handleCyclingPermutation, walkFuel. simpl measureCycle.
      rewrite Hprev, Ref_eqb_refl.
      rewrite (proj2 (sameLinks_setHandled (st_shuffle st) (lookupForRegister X index)
                                           (lookupForRegister X index))).
      rewrite Hreg. unfold convert. rewrite (Hfmt eq_refl). simpl negb. cbv iota.
      eexists. split; [reflexivity|]. simpl. rewrite app_nil_r.
      split; [|reflexivity].
      apply Linked_setHandled; [exact HL|exact Hidx|].
      exists regOf. exact Hself.
    + exfalso. destruct Hself as (_ & Hs). rewrite Hs in Hskip.
      simpl in Hskip. discriminate.
Qed.

Lemma identical_shuffle (scratchGPR : GPRReg) (st : ShuffleState) :
  Linked X gprInfo fprInfo (st_shuffle st) ->
  exists st', shuffle X check entry scratchGPR st = Some st' /\
              st_code st' = st_code st.
Proof.
  intros HL. unfold shuffle.
  destruct (@forIndicesOpt_invariant ShuffleState (fun acc => acc = st)
              (numberOfShuffledRegisters X) (chainStep X check entry) st eq_refl)
    as (st1 & E1 & ->).
  { intros k acc Hk ->. exists st. split; [|reflexivity].
    apply identical_chainStep; assumption. }
  rewrite E1.
  destruct (@forIndicesOpt_invariant ShuffleState
              (fun acc => Linked X gprInfo fprInfo (st_shuffle acc) /\ st_code acc = st_code st)
              (numberOfShuffledRegisters X) (cycleStep X check entry scratchGPR) st
              (conj HL eq_refl))
    as (st2 & E2 & _ & Hcode).
  { intros k acc Hk [HLa Hca].
    destruct (@identical_cycleStep scratchGPR acc k HLa Hk) as (acc' & E & HL' & Hc').
    exists acc'. split; [exact E|]. split; [exact HL'|congruence]. }
  exists st2. split; assumption.
Qed.

(** Nothing is filled. *)
Lemma identical_fillMissing :
  fillMissing X graph check entry theMap = [].
Proof.
  unfold fillMissing.
  rewrite !flat_map_nil_seq; [reflexivity| |].
  - intros k Hk. unfold fillGPRStep, needsFill. rewrite sameGPRs. fold gprInfo.
    destruct (Z.eqb (nodeIndex (gprInfoAt gprInfo k)) NoNode) eqn:En; [reflexivity|].
    destruct (isSpilled (gprInfoAt gprInfo k)) eqn:Es; [reflexivity|]. simpl.
    rewrite identical_find_gpr by (exact Hk || (unfold occupied; rewrite En; reflexivity)).
    simpl snd. unfold findInSpeculationCheck. simpl.
    rewrite gprIndex by exact Hk. fold gprInfo. rewrite Es. reflexivity.
  - intros k Hk. unfold fillFPRStep, needsFill. rewrite sameFPRs. fold fprInfo.
    destruct (Z.eqb (nodeIndex (gprInfoAt fprInfo k)) NoNode) eqn:En; [reflexivity|].
    destruct (isSpilled (gprInfoAt fprInfo k)) eqn:Es; [reflexivity|]. simpl.
    rewrite identical_find_fpr by (exact Hk || (unfold occupied; rewrite En; reflexivity)).
    simpl snd. unfold findInSpeculationCheck. simpl.
    rewrite fprIndex by exact Hk. fold fprInfo. rewrite Es. reflexivity.
Qed.

Lemma forallb_false_exists (A : Type) (f : A -> bool) (l : list A) :
  forallb f l = false -> exists x, In x l /\ f x = false.
Proof.
  induction l as [|a l IH]; simpl; [discriminate|].
  destruct (f a) eqn:E; simpl.
  - intros H. destruct (IH H) as (x & Hin & Hx). exists x. split; [right|]; assumption.
  - intros _. exists a. split; [left; reflexivity|exact E].
Qed.

Hypothesis validGPRs :
  forall j, j < GPRInfo_numberOfRegisters X ->
            GPRInfo_toRegister X j <> InvalidGPRReg.

Lemma identical_freeOnBothSides (i : nat) :
  freeOnBothSides check entry i = negb (occupied gprInfo i).
Proof.
  unfold freeOnBothSides, occupied. rewrite sameGPRs. fold gprInfo.
  destruct (Z.eqb (nodeIndex (gprInfoAt gprInfo i)) NoNode); reflexivity.
Qed.

(** The tag-mask register is borrowed exactly when every GPR is
    occupied. *)
Lemma identical_restore_flag :
  snd (chooseScratchGPR X (d_scratchGPR (discover X check entry))) =
  forallb (occupied gprInfo) (seq 0 (GPRInfo_numberOfRegisters X)).
Proof.
  rewrite discover_scratchGPR. unfold chooseScratchGPR.
  destruct (forallb (occupied gprInfo) (seq 0 (GPRInfo_numberOfRegisters X))) eqn:E.
  - rewrite discoverGPRs_scratch; [reflexivity|].
    intros i Hi. rewrite identical_freeOnBothSides.
    rewrite forallb_forall in E. rewrite E; [reflexivity|]. apply in_seq. lia.
  - apply forallb_false_exists in E. destruct E as (i & Hin & Hocc).
    apply in_seq in Hin.
    destruct (@discoverGPRs_scratch_found check entry (GPRInfo_numberOfRegisters X))
      as (j & Hj & _ & ->).
    { exists i. split; [lia|]. rewrite identical_freeOnBothSides, Hocc. reflexivity. }
    destruct (Z.eqb_spec (GPRInfo_toRegister X j) InvalidGPRReg) as [Bad|_];
      [exfalso; exact (validGPRs Hj Bad)|reflexivity].
Qed.

Lemma identical_bridge (recovery : option SpeculationRecovery) :
  jumpFromSpeculativeToNonSpeculative X graph check entry recovery =
  Some ([Link (CheckJump (check_m_check check))]
        ++ bridgingRecovery X check recovery
        ++ (if forallb (occupied (check_m_gprInfo check))
                       (seq 0 (GPRInfo_numberOfRegisters X))
            then [moveImmPtr (TagMask X) (tagMaskRegister X)] else [])
        ++ [jumpTo (entry_m_entry entry)]).
Proof.
  unfold jumpFromSpeculativeToNonSpeculative, spillGPRs, spillFPRs.
  rewrite identical_entryMap, identical_checkMap.
  rewrite identical_spillGPRs by apply le_n. simpl sg_scratchGPR.
  pose proof identical_restore_flag as Hflag.
  destruct (chooseScratchGPR X (d_scratchGPR (discover X check entry)))
    as [scratchGPR needToRestore].
  simpl in Hflag. subst needToRestore.
  simpl sg_shuffle. simpl sg_code.
  rewrite identical_spillFPRs by apply le_n.
  destruct (@identical_shuffle scratchGPR
              {| st_shuffle :=
                   {| gprs := linkedGPRs X gprInfo (GPRInfo_numberOfRegisters X);
                      fprs := linkedFPRs X fprInfo (FPRInfo_numberOfRegisters X) |};
                 st_scratchFPR1 := d_scratchFPR1 (discover X check entry);
                 st_scratchFPR2 := d_scratchFPR2 (discover X check entry);
                 st_code := [] |} Linked_after_part1) as (st' & Es & Hcode).
  rewrite Es, Hcode, identical_fillMissing. reflexivity.
Qed.

End IdenticalMaps.

(** *** The permutation graph: every walk ends *)

Lemma forIndicesOpt_indexed (S : Type) (P : nat -> S -> Prop) (n : nat)
      (body : nat -> S -> option S) (s : S) :
  P 0 s ->
  (forall k acc, k < n -> P k acc ->
                 exists acc', body k acc = Some acc' /\ P (Datatypes.S k) acc') ->
  exists s', forIndicesOpt n body s = Some s' /\ P n s'.
Proof.
  intros H0 Hstep.
  assert (G : forall k, k <= n ->
                        exists s', forIndicesOpt k body s = Some s' /\ P k s').
  { induction k as [|k IH]; intros Hk.
    - exists s. split; [reflexivity|exact H0].
    - destruct IH as (a & Ha & Pa); [lia|].
      rewrite forIndicesOpt_S, Ha. apply Hstep; [lia|exact Pa]. }
  apply G. lia.
Qed.

Lemma existsb_Ref_eqb (x : Ref) (l : list Ref) :
  existsb (Ref_eqb x) l = true <-> In x l.
Proof.
  rewrite existsb_exists. split.
  - intros (y & Hy & E). apply Ref_eqb_eq in E. subst y. exact Hy.
  - intros H. exists x. split; [exact H|apply Ref_eqb_refl].
Qed.

Lemma deref_out_of_bounds (sh : Shuffle) (r : Ref) :
  inBounds sh r = false -> deref sh r = nullShuffledRegister.
Proof.
  unfold inBounds, deref. intros H. apply Nat.ltb_ge in H.
  apply nth_overflow. exact H.
Qed.

Lemma linked_inBounds (sh : Shuffle) (r p : Ref) :
  previous (deref sh r) = Some p -> inBounds sh r = true.
Proof.
  intros H. destruct (inBounds sh r) eqn:E; [reflexivity|].
  rewrite (deref_out_of_bounds _ _ E) in H. discriminate H.
Qed.

Lemma validRef_inBounds (sh : Shuffle) (r : Ref) :
  sized X sh -> validRef X r -> inBounds sh r = true.
Proof.
  intros [Hg Hf] H. unfold validRef in H. unfold inBounds.
  apply Nat.ltb_lt. destruct (ref_isFPR r); lia.
Qed.

Lemma touched_valid (sh : Shuffle) (r : Ref) :
  sized X sh ->
  hasFrom (deref sh r) = true \/ hasTo (deref sh r) = true ->
  validRef X r.
Proof.
  intros [Hg Hf] H. unfold validRef. destruct (inBounds sh r) eqn:E.
  - unfold inBounds in E. apply Nat.ltb_lt in E. destruct (ref_isFPR r); lia.
  - rewrite (deref_out_of_bounds _ _ E) in H. simpl in H.
    destruct H; discriminate.
Qed.

Lemma lookupForRegister_position (r : Ref) :
  validRef X r -> lookupForRegister X (position X r) = r.
Proof.
  destruct r as [[|] i]; unfold validRef, lookupForRegister, position; simpl;
    intros H.
  - destruct (Nat.ltb_spec (GPRInfo_numberOfRegisters X + i)
                           (GPRInfo_numberOfRegisters X)); [lia|].
    f_equal. lia.
  - destruct (Nat.ltb_spec i (GPRInfo_numberOfRegisters X)); [reflexivity|lia].
Qed.

Lemma position_bound (r : Ref) :
  validRef X r -> position X r < numberOfShuffledRegisters X.
Proof.
  destruct r as [[|] i]; unfold validRef, position, numberOfShuffledRegisters;
    simpl; lia.
Qed.

Lemma In_allRegisters (r : Ref) : validRef X r -> In r (allRegisters X).
Proof.
  intros H. unfold allRegisters. apply in_map_iff. exists (position X r).
  split; [apply lookupForRegister_position; exact H|].
  apply in_seq. pose proof (position_bound H). lia.
Qed.

(** No list of distinct registers is longer than the two arrays. *)
Lemma distinct_registers_bounded (l : list Ref) :
  NoDup l -> (forall x, In x l -> validRef X x) ->
  length l <= numberOfShuffledRegisters X.
Proof.
  intros Hnd Hval.
  replace (numberOfShuffledRegisters X) with (length (allRegisters X))
    by (unfold allRegisters; rewrite length_map, length_seq; reflexivity).
  apply NoDup_incl_length; [exact Hnd|].
  intros x Hx. apply In_allRegisters. apply Hval. exact Hx.
Qed.

Lemma sameGraph_refl (sh : Shuffle) : sameGraph sh sh.
Proof.
  split; [apply sameLinks_refl|]. split; [intros r; split; reflexivity|].
  split; reflexivity.
Qed.

Lemma sameGraph_trans (a b c : Shuffle) :
  sameGraph a b -> sameGraph b c -> sameGraph a c.
Proof.
  intros (L1 & F1 & G1 & H1) (L2 & F2 & G2 & H2).
  split; [exact (sameLinks_trans L1 L2)|]. split; [|split; congruence].
  intros r. destruct (F1 r), (F2 r). split; congruence.
Qed.

Lemma sameGraph_setHandled (sh : Shuffle) (r : Ref) :
  sameGraph sh (update sh r setHandled).
Proof.
  split; [apply sameLinks_setHandled|]. split.
  - intros r'. rewrite deref_update.
    destruct (Ref_eqb r' r && inBounds sh r) eqn:E; [|split; reflexivity].
    apply andb_prop in E. destruct E as [E _]. apply Ref_eqb_eq in E. subst r'.
    split; reflexivity.
  - unfold update. destruct (ref_isFPR r); simpl; rewrite ?length_setNth;
      split; reflexivity.
Qed.

Lemma handled_setHandled (sh : Shuffle) (r x : Ref) :
  inBounds sh r = true ->
  handled (deref (update sh r setHandled) x) = Ref_eqb x r || handled (deref sh x).
Proof.
  intros Hb. rewrite deref_update, Hb, andb_true_r.
  destruct (Ref_eqb x r) eqn:E; [|reflexivity].
  reflexivity.
Qed.

Lemma permutationGraph_sameGraph (sh sh' : Shuffle) :
  permutationGraph X sh -> sameGraph sh sh' -> permutationGraph X sh'.
Proof.
  intros [[Hg Hf] H1 H2 H3 H4] (L & F & Eg & Ef).
  assert (P : forall r, previous (deref sh' r) = previous (deref sh r))
    by (intros r; apply (proj1 (L r))).
  assert (Fr : forall r, hasFrom (deref sh' r) = hasFrom (deref sh r))
    by (intros r; apply (proj1 (F r))).
  assert (To : forall r, hasTo (deref sh' r) = hasTo (deref sh r))
    by (intros r; apply (proj2 (F r))).
  constructor.
  - split; congruence.
  - intros r p. rewrite P, Fr. apply H1.
  - intros a b c. rewrite !P. apply H2.
  - intros r. rewrite P, To. apply H3.
  - intros c. rewrite Fr. intros H. destruct (H4 c H) as [r Hr].
    exists r. rewrite P. exact Hr.
Qed.

Lemma st_shuffle_noteScratchFPR (r : GeneralizedRegister) (st : ShuffleState) :
  st_shuffle (noteScratchFPR r st) = st_shuffle st.
Proof.
  unfold noteScratchFPR. destruct (m_isFPR r); [|reflexivity].
  destruct (Z.eqb (st_scratchFPR1 st) InvalidFPRReg); reflexivity.
Qed.

(** A walk along [previous] that has not come back to where it started
    does not meet a register twice. *)
Lemma walk_extend (sh : Shuffle) (start cur p : Ref) (visited : list Ref) :
  permutationGraph X sh ->
  NoDup (cur :: visited) ->
  (forall x, In x (cur :: visited) -> validRef X x) ->
  (forall x, In x (cur :: visited) ->
             x = start \/ exists y, In y visited /\ previous (deref sh y) = Some x) ->
  previous (deref sh cur) = Some p ->
  p <> start ->
  NoDup (p :: cur :: visited) /\
  (forall x, In x (p :: cur :: visited) -> validRef X x) /\
  (forall x, In x (p :: cur :: visited) ->
             x = start \/
             exists y, In y (cur :: visited) /\ previous (deref sh y) = Some x).
Proof.
  intros HG Hnd Hval Hpath Ep Hne. split; [|split].
  - constructor; [|exact Hnd]. intros Hin.
    destruct (Hpath p Hin) as [E|(y & Hy & Ey)]; [exact (Hne E)|].
    pose proof (pg_injective HG _ _ Ey Ep) as E. subst y.
    apply NoDup_cons_iff in Hnd. exact (proj1 Hnd Hy).
  - intros x [<-|Hx]; [|apply Hval; exact Hx].
    apply (@touched_valid sh); [exact (pg_sized HG)|].
    left. exact (pg_hasFrom HG _ Ep).
  - intros x [<-|Hx].
    + right. exists cur. split; [left; reflexivity|exact Ep].
    + destruct (Hpath x Hx) as [E|(y & Hy & Ey)]; [left; exact E|].
      right. exists y. split; [right; exact Hy|exact Ey].
Qed.

(** [handleNonCyclingPermutation], started at the end of a chain, reaches
    the head of the chain before its fuel runs out; it changes only
    [handled] flags, and the handled registers stay closed under
    [previous]. *)
Lemma handleNonCyclingPermutation_total (check : SpeculationCheck)
      (entry : EntryLocation) (start : Ref) :
  forall fuel visited cur st,
    permutationGraph X (st_shuffle st) ->
    hasFrom (deref (st_shuffle st) start) = false ->
    NoDup (cur :: visited) ->
    (forall x, In x (cur :: visited) -> validRef X x) ->
    (forall x, In x (cur :: visited) ->
               x = start \/
               exists y, In y visited /\
                         previous (deref (st_shuffle st) y) = Some x) ->
    numberOfShuffledRegisters X <= fuel + length visited ->
    (forall r c, handled (deref (st_shuffle st) r) = true ->
                 previous (deref (st_shuffle st) r) = Some c ->
                 handled (deref (st_shuffle st) c) = true \/ c = cur) ->
    closedForwards (st_shuffle st) ->
    (forall r, previous (deref (st_shuffle st) r) = Some cur ->
               handled (deref (st_shuffle st) r) = true) ->
    exists st',
      handleNonCyclingPermutation X fuel check entry cur st = Some st' /\
      sameGraph (st_shuffle st) (st_shuffle st') /\
      closedBackwards (st_shuffle st') /\
      closedForwards (st_shuffle st') /\
      (forall r, handled (deref (st_shuffle st) r) = true ->
                 handled (deref (st_shuffle st') r) = true) /\
      handled (deref (st_shuffle st') cur) = true.
Proof.
  induction fuel as [|fuel IH];
    intros visited cur st HG Hstart Hnd Hval Hpath Hfuel Hback Hfwd Hrecv.
  - exfalso. pose proof (distinct_registers_bounded Hnd Hval) as Hlen.
    simpl in Hlen, Hfuel. lia.
  - set (sh := st_shuffle st) in *.
    assert (Hb : inBounds sh cur = true).
    { apply validRef_inBounds; [exact (pg_sized HG)|].
      apply Hval. left. reflexivity. }
    pose proof (sameGraph_setHandled sh cur) as Hsame.
    pose proof (fun x => @handled_setHandled sh cur x Hb) as Hh.
    set (sh2 := update sh cur setHandled) in *.
    assert (P2 : forall r, previous (deref sh2 r) = previous (deref sh r))
      by (intros r; apply (proj1 (proj1 Hsame r))).
    assert (Hfwd2 : closedForwards sh2).
    { intros r c Hc Hr. rewrite P2 in Hr. rewrite Hh in Hc |- *.
      apply orb_true_iff in Hc. apply orb_true_iff.
      destruct Hc as [Hc|Hc].
      - apply Ref_eqb_eq in Hc. subst c. right. apply Hrecv. exact Hr.
      - right. exact (Hfwd r c Hc Hr). }
    simpl.
    destruct (previous (deref (st_shuffle st) cur)) as [p|] eqn:Ep; fold sh in Ep.
    + assert (Hne : p <> start).
      { intros ->. rewrite (pg_hasFrom HG _ Ep) in Hstart. discriminate. }
      destruct (walk_extend HG Hnd Hval Hpath Ep Hne) as (Hnd' & Hval' & Hpath').
      match goal with
      | |- exists st', handleNonCyclingPermutation _ _ _ _ _ ?s = _ /\ _ =>
          set (st2 := s)
      end.
      assert (E2 : st_shuffle st2 = sh2).
      { unfold st2. rewrite st_shuffle_noteScratchFPR. reflexivity. }
      destruct (IH (cur :: visited) p st2) as (st' & E & Hs & Hb' & Hf' & Hm & Hp).
      * rewrite E2. exact (permutationGraph_sameGraph HG Hsame).
      * rewrite E2. rewrite (proj1 (proj1 (proj2 Hsame) start)). exact Hstart.
      * exact Hnd'.
      * exact Hval'.
      * rewrite E2. intros x Hx. destruct (Hpath' x Hx) as [E|(y & Hy & Ey)];
          [left; exact E|].
        right. exists y. split; [exact Hy|]. rewrite P2. exact Ey.
      * simpl. simpl in Hfuel. lia.
      * rewrite E2. intros r c Hr Hc. rewrite P2 in Hc. rewrite Hh in Hr.
        rewrite Hh.
        apply orb_true_iff in Hr. destruct Hr as [Hr|Hr].
        -- apply Ref_eqb_eq in Hr. subst r. right. congruence.
        -- destruct (Hback r c Hr Hc) as [H|H].
           ++ left. rewrite H. apply orb_true_r.
           ++ left. subst c. rewrite Ref_eqb_refl. reflexivity.
      * rewrite E2. exact Hfwd2.
      * rewrite E2. intros r Hr. rewrite P2 in Hr.
        pose proof (pg_injective HG _ _ Hr Ep) as ->.
        rewrite Hh, Ref_eqb_refl. reflexivity.
      * rewrite E2 in *. exists st'. split; [exact E|].
        split; [exact (sameGraph_trans Hsame Hs)|].
        split; [exact Hb'|]. split; [exact Hf'|]. split.
        -- intros r Hr. apply Hm. rewrite Hh, Hr. apply orb_true_r.
        -- apply Hm. rewrite Hh, Ref_eqb_refl. reflexivity.
    + eexists. split; [reflexivity|].
      rewrite st_shuffle_noteScratchFPR. simpl. fold sh. fold sh2.
      split; [exact Hsame|]. split; [|split; [exact Hfwd2|split]].
      * intros r c Hr Hc. rewrite P2 in Hc. rewrite Hh in Hr. rewrite Hh.
        apply orb_true_iff in Hr. destruct Hr as [Hr|Hr].
        -- apply Ref_eqb_eq in Hr. subst r. congruence.
        -- destruct (Hback r c Hr Hc) as [H|H].
           ++ rewrite H. apply orb_true_r.
           ++ subst c. rewrite Ref_eqb_refl. reflexivity.
      * intros r Hr. rewrite Hh, Hr. apply orb_true_r.
      * rewrite Hh, Ref_eqb_refl. reflexivity.
Qed.

Lemma isEnd_sameGraph (sh sh' : Shuffle) (r : Ref) :
  sameGraph sh sh' ->
  isEndOfNonCyclingPermutation (deref sh' r) =
  isEndOfNonCyclingPermutation (deref sh r).
Proof.
  intros (_ & F & _). unfold isEndOfNonCyclingPermutation.
  destruct (F r) as [-> ->]. reflexivity.
Qed.

(** One iteration of the loop over the ends of the chains. *)
Lemma chainStep_total (check : SpeculationCheck) (entry : EntryLocation)
      (index : nat) (st : ShuffleState) :
  shuffleInvariant X (st_shuffle st) ->
  exists st',
    chainStep X check entry index st = Some st' /\
    sameGraph (st_shuffle st) (st_shuffle st') /\
    shuffleInvariant X (st_shuffle st') /\
    (forall r, handled (deref (st_shuffle st) r) = true ->
               handled (deref (st_shuffle st') r) = true) /\
    (isEndOfNonCyclingPermutation
       (deref (st_shuffle st') (lookupForRegister X index)) = true ->
     handled (deref (st_shuffle st') (lookupForRegister X index)) = true).
Proof.
  intros (HG & Hb & Hf). unfold chainStep.
  set (r := lookupForRegister X index).
  destruct (isEndOfNonCyclingPermutation (deref (st_shuffle st) r)) eqn:Eend.
  2: { simpl. exists st. split; [reflexivity|]. split; [apply sameGraph_refl|].
       split; [exact (conj HG (conj Hb Hf))|]. split; [intros x H; exact H|].
       intros H. fold r in H. congruence. }
  destruct (handled (deref (st_shuffle st) r)) eqn:Eh.
  { simpl. exists st. split; [reflexivity|]. split; [apply sameGraph_refl|].
    split; [exact (conj HG (conj Hb Hf))|]. split; [intros x H; exact H|].
    intros _. exact Eh. }
  unfold isEndOfNonCyclingPermutation in Eend. apply andb_prop in Eend.
  destruct Eend as [Hto Hfrom]. apply negb_true_iff in Hfrom.
  unfold untouched. rewrite Hto, Hfrom. simpl.
  destruct (@handleNonCyclingPermutation_total check entry r (walkFuel X) [] r st)
    as (st' & E & Hs & Hb' & Hf' & Hm & Hr); try assumption.
  - constructor; [intros []|constructor].
  - intros x [<-|[]]. apply (@touched_valid (st_shuffle st)); [exact (pg_sized HG)|].
    right. exact Hto.
  - intros x [<-|[]]. left. reflexivity.
  - unfold walkFuel. simpl. lia.
  - intros x c Hx Hc. left. exact (Hb x c Hx Hc).
  - intros x Hx. rewrite (pg_hasFrom HG _ Hx) in Hfrom. discriminate.
  - exists st'. split; [exact E|]. split; [exact Hs|].
    split; [|split; [exact Hm|intros _; exact Hr]].
    split; [exact (permutationGraph_sameGraph HG Hs)|]. split; assumption.
Qed.

(** The loop over the chains handles every end of a chain. *)
Lemma chains_total (check : SpeculationCheck) (entry : EntryLocation)
      (st : ShuffleState) :
  shuffleInvariant X (st_shuffle st) ->
  exists st',
    forIndicesOpt (numberOfShuffledRegisters X) (chainStep X check entry) st =
    Some st' /\
    shuffleInvariant X (st_shuffle st') /\ endsHandled (st_shuffle st').
Proof.
  intros Hinv.
  destruct (@forIndicesOpt_indexed ShuffleState
              (fun k acc =>
                 shuffleInvariant X (st_shuffle acc) /\
                 forall j, j < k ->
                   isEndOfNonCyclingPermutation
                     (deref (st_shuffle acc) (lookupForRegister X j)) = true ->
                   handled (deref (st_shuffle acc) (lookupForRegister X j)) = true)
              (numberOfShuffledRegisters X) (chainStep X check entry) st)
    as (st' & E & Hinv' & Hends).
  - split; [exact Hinv|]. intros j Hj. lia.
  - intros k acc Hk [Ha Hj].
    destruct (@chainStep_total check entry k acc Ha) as (acc' & E & Hs & Ha' & Hm & Hk').
    exists acc'. split; [exact E|]. split; [exact Ha'|].
    intros j Hlt Hend.
    destruct (Nat.eq_dec j k) as [->|Hne]; [exact (Hk' Hend)|].
    apply Hm. apply Hj; [lia|]. rewrite <- (isEnd_sameGraph _ Hs). exact Hend.
  - exists st'. split; [exact E|]. split; [exact Hinv'|].
    intros r Hend.
    assert (Hv : validRef X r).
    { apply (@touched_valid (st_shuffle st'));
        [exact (pg_sized (proj1 Hinv'))|].
      right. unfold isEndOfNonCyclingPermutation in Hend.
      apply andb_prop in Hend. exact (proj1 Hend). }
    pose proof (Hends (position X r) (position_bound Hv)) as H.
    rewrite (lookupForRegister_position Hv) in H. exact (H Hend).
Qed.

(** After the chains, no unhandled register is the head of a chain. *)
Lemma no_open_head (sh : Shuffle) (r : Ref) :
  permutationGraph X sh -> closedBackwards sh -> endsHandled sh ->
  hasFrom (deref sh r) = true -> handled (deref sh r) = false ->
  previous (deref sh r) = None -> False.
Proof.
  intros HG Hb He Hfrom Hun Hnone.
  assert (L : forall m, exists l,
               length l = S m /\ NoDup l /\
               (forall x, In x l -> hasFrom (deref sh x) = true /\
                                    handled (deref sh x) = false) /\
               (forall x y, In x l -> previous (deref sh x) = Some y -> In y (tl l))).
  { induction m as [|m (l & Hlen & Hnd & Hall & Hq)].
    - exists [r]. split; [reflexivity|].
      split; [constructor; [intros []|constructor]|]. split.
      + intros x [<-|[]]. split; assumption.
      + intros x y [<-|[]] E. congruence.
    - destruct l as [|h t]; [discriminate|].
      destruct (Hall h (or_introl eq_refl)) as [Hh1 Hh2].
      destruct (pg_receiver HG _ Hh1) as [x Ex].
      assert (Hx2 : handled (deref sh x) = false).
      { destruct (handled (deref sh x)) eqn:E; [|reflexivity].
        rewrite (Hb x h E Ex) in Hh2. discriminate. }
      assert (Hto : hasTo (deref sh x) = true)
        by (apply (pg_hasTo HG); congruence).
      assert (Hx1 : hasFrom (deref sh x) = true).
      { destruct (hasFrom (deref sh x)) eqn:E; [reflexivity|].
        rewrite He in Hx2; [discriminate|].
        unfold isEndOfNonCyclingPermutation. rewrite Hto, E. reflexivity. }
      exists (x :: h :: t). split; [simpl; simpl in Hlen; lia|].
      split; [|split].
      + constructor; [|exact Hnd]. intros Hin.
        pose proof (Hq x h Hin Ex) as Hin'. simpl in Hin'.
        apply NoDup_cons_iff in Hnd. exact (proj1 Hnd Hin').
      + intros y [<-|Hy]; [split; assumption|apply Hall; exact Hy].
      + intros a b [<-|Ha] E; simpl.
        * left. congruence.
        * right. exact (Hq a b Ha E). }
  destruct (L (numberOfShuffledRegisters X)) as (l & Hlen & Hnd & Hall & _).
  assert (Hle : length l <= numberOfShuffledRegisters X).
  { apply distinct_registers_bounded; [exact Hnd|].
    intros x Hx. apply (@touched_valid sh); [exact (pg_sized HG)|].
    left. exact (proj1 (Hall x Hx)). }
  lia.
Qed.

(** After the chains, [previous] maps the unhandled registers that take
    part in the permutation to themselves. *)
Lemma unhandled_previous (sh : Shuffle) (x : Ref) :
  shuffleInvariant X sh -> endsHandled sh ->
  handled (deref sh x) = false ->
  hasFrom (deref sh x) = true \/ hasTo (deref sh x) = true ->
  exists p, previous (deref sh x) = Some p /\
            handled (deref sh p) = false /\
            hasFrom (deref sh p) = true.
Proof.
  intros (HG & Hb & Hf) He Hun Htouched.
  destruct (previous (deref sh x)) as [p|] eqn:Ep.
  - exists p. split; [reflexivity|]. split; [|exact (pg_hasFrom HG _ Ep)].
    destruct (handled (deref sh p)) eqn:E; [|reflexivity].
    rewrite (Hf x p E Ep) in Hun. discriminate.
  - exfalso. destruct Htouched as [Hfrom|Hto].
    + exact (@no_open_head sh x HG Hb He Hfrom Hun Ep).
    + apply (pg_hasTo HG) in Hto. exact (Hto Ep).
Qed.

(** The walk along [previous] from an unhandled register comes back to
    it. *)
Lemma cycle_from (sh : Shuffle) (this : Ref) :
  shuffleInvariant X sh -> endsHandled sh ->
  forall n visited cur,
    NoDup (cur :: visited) ->
    (forall x, In x (cur :: visited) -> validRef X x) ->
    (forall x, In x (cur :: visited) ->
               x = this \/
               exists y, In y visited /\ previous (deref sh y) = Some x) ->
    handled (deref sh cur) = false ->
    hasFrom (deref sh cur) = true \/ hasTo (deref sh cur) = true ->
    numberOfShuffledRegisters X <= n + length visited ->
    exists rest,
      cycleLinks sh this cur rest /\
      length rest + length (cur :: visited) <= numberOfShuffledRegisters X.
Proof.
  intros Hinv He.
  induction n as [|n IH]; intros visited cur Hnd Hval Hpath Hun Htouched Hfuel;
    destruct (@unhandled_previous sh cur Hinv He Hun Htouched) as (p & Ep & Hp1 & Hp2);
    destruct (Ref_eqb p this) eqn:E;
    try (apply Ref_eqb_eq in E; subst p; exists []; split; [exact Ep|];
         pose proof (distinct_registers_bounded Hnd Hval); simpl in *; lia);
    (assert (Hne : p <> this)
      by (intros ->; rewrite Ref_eqb_refl in E; discriminate E));
    destruct (walk_extend (proj1 Hinv) Hnd Hval Hpath Ep Hne)
      as (Hnd' & Hval' & Hpath').
  - exfalso. pose proof (distinct_registers_bounded Hnd' Hval') as Hlen.
    simpl in Hlen, Hfuel. lia.
  - destruct (IH (cur :: visited) p Hnd' Hval' Hpath' Hp1 (or_introl Hp2))
      as (rest & Hc & Hlen); [simpl; lia|].
    exists (p :: rest). split; [simpl; split; [exact Ep|split; [exact E|exact Hc]]|].
    simpl in *. lia.
Qed.

Lemma cycle_exists (sh : Shuffle) (this : Ref) :
  shuffleInvariant X sh -> endsHandled sh ->
  handled (deref sh this) = false ->
  hasFrom (deref sh this) = true \/ hasTo (deref sh this) = true ->
  exists rest, cycleLinks sh this this rest /\ length rest < walkFuel X.
Proof.
  intros Hinv He Hun Htouched.
  destruct (@cycle_from sh this Hinv He (numberOfShuffledRegisters X) [] this)
    as (rest & Hc & Hlen); try assumption.
  - constructor; [intros []|constructor].
  - intros x [<-|[]]. exact (@touched_valid sh this (pg_sized (proj1 Hinv)) Htouched).
  - intros x [<-|[]]. left. reflexivity.
  - lia.
  - exists rest. split; [exact Hc|]. unfold walkFuel. simpl in Hlen. lia.
Qed.

(** The registers of a cycle are closed under [previous]. *)
Lemma cycleLinks_previous (sh : Shuffle) (this : Ref) (rest : list Ref) :
  forall cur, cycleLinks sh this cur rest ->
  forall x, In x (cur :: rest) ->
            exists c, previous (deref sh x) = Some c /\ (c = this \/ In c rest).
Proof.
  induction rest as [|a rest IH]; intros cur H x Hx.
  - destruct Hx as [<-|[]]. exists this. split; [exact H|left; reflexivity].
  - destruct H as (H1 & H2 & H3). destruct Hx as [<-|Hx].
    + exists a. split; [exact H1|right; left; reflexivity].
    + destruct (IH a H3 x Hx) as (c & Ec & Hc). exists c. split; [exact Ec|].
      destruct Hc as [Hc|Hc]; [left; exact Hc|right; right; exact Hc].
Qed.

Lemma cycleLinks_receiver (sh : Shuffle) (this : Ref) (rest : list Ref) :
  forall cur, cycleLinks sh this cur rest ->
  forall x, x = this \/ In x rest ->
            exists y, In y (cur :: rest) /\ previous (deref sh y) = Some x.
Proof.
  induction rest as [|a rest IH]; intros cur H x Hx.
  - destruct Hx as [->|[]]. exists cur. split; [left; reflexivity|exact H].
  - destruct H as (H1 & H2 & H3).
    destruct Hx as [->|[<-|Hx]].
    + destruct (IH a H3 this (or_introl eq_refl)) as (y & Hy & Ey).
      exists y. split; [right; exact Hy|exact Ey].
    + exists cur. split; [left; reflexivity|exact H1].
    + destruct (IH a H3 x (or_intror Hx)) as (y & Hy & Ey).
      exists y. split; [right; exact Hy|exact Ey].
Qed.

(** The first loop of [handleCyclingPermutation] marks the registers of
    the cycle, and nothing else. *)
Lemma measureCycle_handled (this : Ref) (rest : list Ref) :
  forall cur sh len fuel,
    cycleLinks sh this cur rest ->
    length rest < fuel ->
    exists sh' n next,
      measureCycle fuel this cur len sh = Some (sh', n, next) /\
      sameGraph sh sh' /\
      forall x, handled (deref sh' x) =
                existsb (Ref_eqb x) (cur :: rest) || handled (deref sh x).
Proof.
  induction rest as [|nxt rest IH]; intros cur sh len fuel H Hfuel;
    (destruct fuel as [|fuel]; [simpl in Hfuel; lia|]); simpl in *.
  - rewrite H, Ref_eqb_refl. eexists. eexists. eexists.
    split; [reflexivity|]. split; [apply sameGraph_setHandled|].
    intros x. rewrite (@handled_setHandled sh cur x (linked_inBounds _ _ H)).
    rewrite orb_false_r. reflexivity.
  - destruct H as (H1 & H2 & H3). rewrite H1, H2.
    destruct (IH nxt (update sh cur setHandled) (S len) fuel)
      as (sh' & n & next & E & Hs & Hh).
    + apply (@cycleLinks_sameLinks sh _ this rest (sameLinks_setHandled sh cur)).
      exact H3.
    + lia.
    + exists sh', n, next. split; [exact E|].
      split; [exact (sameGraph_trans (sameGraph_setHandled sh cur) Hs)|].
      intros x. rewrite Hh.
      rewrite (@handled_setHandled sh cur x (linked_inBounds _ _ H1)).
      destruct (Ref_eqb x cur), (Ref_eqb x nxt), (existsb (Ref_eqb x) rest),
               (handled (deref sh x)); reflexivity.
Qed.

(** [handleCyclingPermutation] on a cycle returns, having marked the
    registers of the cycle. *)
Lemma handleCyclingPermutation_total (check : SpeculationCheck)
      (entry : EntryLocation) (this : Ref) (rest : list Ref)
      (scratchGPR : GPRReg) (st : ShuffleState) (fuel : nat) :
  cycleLinks (st_shuffle st) this this rest ->
  length rest < fuel ->
  exists st',
    handleCyclingPermutation X fuel check entry this scratchGPR st = Some st' /\
    sameGraph (st_shuffle st) (st_shuffle st') /\
    forall x, handled (deref (st_shuffle st') x) =
              existsb (Ref_eqb x) (this :: rest) || handled (deref (st_shuffle st) x).
Proof.
  intros Hcyc Hfuel.
  destruct (@measureCycle_cycle this rest this (st_shuffle st) 0 fuel Hcyc Hfuel)
    as (sh' & Em & Hs).
  destruct (@measureCycle_handled this rest this (st_shuffle st) 0 fuel Hcyc Hfuel)
    as (sh'' & n & next & Em' & Hsame & Hh).
  rewrite Em in Em'. injection Em' as <- _ _.
  unfold handleCyclingPermutation. rewrite Em.
  destruct rest as [|p [|q rest]].
  - simpl. eexists. split; [reflexivity|]. simpl. split; assumption.
  - simpl in Hcyc. destruct Hcyc as (Hp & _ & _).
    simpl. rewrite (proj1 (Hs this)), Hp.
    eexists. split; [reflexivity|]. simpl. split; assumption.
  - change (0 + S (length (p :: q :: rest))) with (S (S (S (length rest)))).
    cbv beta iota zeta.
    pose proof (@rotateCycle_cycle check entry sh' this (st_scratchFPR1 st)
                  (p :: q :: rest) this fuel
                  (@cycleLinks_sameLinks _ _ this (p :: q :: rest) Hs this Hcyc) Hfuel)
      as Er.
    unfold handleLongCycle. rewrite Er.
    eexists. split; [reflexivity|]. simpl st_shuffle. split; assumption.
Qed.

(** One iteration of the loop over the cycles. *)
Lemma cycleStep_total (check : SpeculationCheck) (entry : EntryLocation)
      (scratchGPR : GPRReg) (index : nat) (st : ShuffleState) :
  shuffleInvariant X (st_shuffle st) -> endsHandled (st_shuffle st) ->
  exists st',
    cycleStep X check entry scratchGPR index st = Some st' /\
    shuffleInvariant X (st_shuffle st') /\ endsHandled (st_shuffle st').
Proof.
  intros Hinv He. unfold cycleStep.
  set (r := lookupForRegister X index).
  destruct (handled (deref (st_shuffle st) r)) eqn:Eh.
  { simpl. exists st. split; [reflexivity|]. split; assumption. }
  destruct (untouched (deref (st_shuffle st) r)) eqn:Eu.
  { simpl. exists st. split; [reflexivity|]. split; assumption. }
  simpl.
  assert (Htouched : hasFrom (deref (st_shuffle st) r) = true \/
                     hasTo (deref (st_shuffle st) r) = true).
  { unfold untouched in Eu.
    destruct (hasFrom (deref (st_shuffle st) r)); [left; reflexivity|].
    destruct (hasTo (deref (st_shuffle st) r)); [right; reflexivity|].
    discriminate Eu. }
  destruct (@cycle_exists (st_shuffle st) r Hinv He Eh Htouched) as (rest & Hcyc & Hlen).
  destruct (@handleCyclingPermutation_total check entry r rest scratchGPR st
              (walkFuel X) Hcyc Hlen) as (st' & E & Hs & Hh).
  destruct Hinv as (HG & Hb & Hf).
  assert (P : forall x, previous (deref (st_shuffle st') x) =
                        previous (deref (st_shuffle st) x))
    by (intros x; apply (proj1 (proj1 Hs x))).
  exists st'. split; [exact E|]. split; [split; [|split]|].
  - exact (permutationGraph_sameGraph HG Hs).
  - intros x c Hx Hc. rewrite P in Hc. rewrite Hh in Hx. rewrite Hh.
    apply orb_true_iff in Hx. apply orb_true_iff.
    destruct Hx as [Hx|Hx]; [|right; exact (Hb x c Hx Hc)].
    left. apply existsb_Ref_eqb in Hx. apply existsb_Ref_eqb.
    destruct (@cycleLinks_previous (st_shuffle st) r rest r Hcyc x Hx) as (c' & Ec & Hc').
    assert (c' = c) by congruence. subst c'.
    destruct Hc' as [->|Hc']; [left; reflexivity|right; exact Hc'].
  - intros x c Hc Hx. rewrite P in Hx. rewrite Hh in Hc. rewrite Hh.
    apply orb_true_iff in Hc. apply orb_true_iff.
    destruct Hc as [Hc|Hc]; [|right; exact (Hf x c Hc Hx)].
    left. apply existsb_Ref_eqb in Hc. apply existsb_Ref_eqb.
    assert (Hc' : c = r \/ In c rest)
      by (destruct Hc as [<-|Hc]; [left; reflexivity|right; exact Hc]).
    destruct (@cycleLinks_receiver (st_shuffle st) r rest r Hcyc c Hc') as (y & Hy & Ey).
    rewrite (pg_injective HG _ _ Hx Ey). exact Hy.
  - intros x Hend. rewrite (isEnd_sameGraph _ Hs) in Hend.
    rewrite Hh, (He x Hend). apply orb_true_r.
Qed.

(** On a permutation graph in which nothing is handled, the two loops of
    Part 2 run to their ends. *)
Lemma shuffle_total (check : SpeculationCheck) (entry : EntryLocation)
      (scratchGPR : GPRReg) (st : ShuffleState) :
  shuffleInvariant X (st_shuffle st) ->
  exists st', shuffle X check entry scratchGPR st = Some st'.
Proof.
  intros Hinv. unfold shuffle.
  destruct (@chains_total check entry st Hinv) as (st1 & E1 & Hinv1 & He1).
  rewrite E1.
  destruct (@forIndicesOpt_invariant ShuffleState
              (fun acc => shuffleInvariant X (st_shuffle acc) /\
                          endsHandled (st_shuffle acc))
              (numberOfShuffledRegisters X) (cycleStep X check entry scratchGPR) st1
              (conj Hinv1 He1)) as (st2 & E2 & _).
  - intros k acc Hk [Ha Hb].
    exact (@cycleStep_total check entry scratchGPR k acc Ha Hb).
  - exists st2. exact E2.
Qed.

(** *** Part 1 builds a permutation graph *)

Lemma inBounds_update (sh : Shuffle) (r x : Ref)
      (f : ShuffledRegister -> ShuffledRegister) :
  inBounds (update sh r f) x = inBounds sh x.
Proof.
  unfold inBounds, update.
  destruct (ref_isFPR r); simpl; destruct (ref_isFPR x);
    rewrite ?length_setNth; reflexivity.
Qed.

(** The fields of the registers after the linking of [from] to the
    register [e] of the entry. *)
Lemma linkTo_fields (sh : Shuffle) (from e : Ref) (second : GeneralizedRegister) :
  lookup X second = e ->
  inBounds sh from = true -> inBounds sh e = true ->
  (forall r, previous (deref (linkTo X from second sh) r) =
             if Ref_eqb r e then Some from else previous (deref sh r)) /\
  (forall r, hasFrom (deref (linkTo X from second sh) r) =
             Ref_eqb r from || hasFrom (deref sh r)) /\
  (forall r, hasTo (deref (linkTo X from second sh) r) =
             Ref_eqb r e || hasTo (deref sh r)) /\
  (forall r, handled (deref (linkTo X from second sh) r) = handled (deref sh r)) /\
  length (gprs (linkTo X from second sh)) = length (gprs sh) /\
  length (fprs (linkTo X from second sh)) = length (fprs sh).
Proof.
  intros El Hf He. unfold linkTo. rewrite El.
  split; [|split; [|split; [|split]]].
  1-4: intros r; rewrite !deref_update, ?inBounds_update, Hf, He, ?andb_true_r;
    destruct (Ref_eqb r e) eqn:E1;
    [apply Ref_eqb_eq in E1; subst r;
     destruct (Ref_eqb e from) eqn:E2;
     [apply Ref_eqb_eq in E2; try rewrite E2|]; simpl; reflexivity
    |destruct (Ref_eqb r from) eqn:E2;
     [apply Ref_eqb_eq in E2; subst r; simpl; reflexivity
     |simpl; reflexivity]].
  unfold update. destruct (ref_isFPR from), (ref_isFPR e); simpl;
    rewrite ?length_setNth; split; reflexivity.
Qed.

Lemma reverseMap_In (gprInfo fprInfo : list RegisterInfo)
      (t : NodeIndex * GeneralizedRegister) :
  In t (reverseMap X gprInfo fprInfo) ->
  exists r, validRef X r /\
            t = (nodeIndex (infoOf gprInfo fprInfo r), registerOf X r) /\
            nodeIndex (infoOf gprInfo fprInfo r) <> NoNode.
Proof.
  unfold reverseMap. intros H. apply in_app_or in H.
  destruct H as [H|H]; apply in_flat_map in H; destruct H as (i & Hi & Ht);
    apply in_seq in Hi.
  - unfold gprTuple in Ht.
    destruct (Z.eqb_spec (nodeIndex (gprInfoAt gprInfo i)) NoNode) as [|Hn];
      [contradiction|].
    destruct Ht as [<-|[]]. exists (gprRef i).
    split; [unfold validRef; simpl; lia|]. split; [reflexivity|exact Hn].
  - unfold fprTuple in Ht.
    destruct (Z.eqb_spec (nodeIndex (gprInfoAt fprInfo i)) NoNode) as [|Hn];
      [contradiction|].
    destruct Ht as [<-|[]]. exists (fprRef i).
    split; [unfold validRef; simpl; lia|]. split; [reflexivity|exact Hn].
Qed.

Lemma reverseMap_In_valid (gprInfo fprInfo : list RegisterInfo) (r : Ref) :
  validRef X r ->
  nodeIndex (infoOf gprInfo fprInfo r) <> NoNode ->
  In (nodeIndex (infoOf gprInfo fprInfo r), registerOf X r)
     (reverseMap X gprInfo fprInfo).
Proof.
  destruct r as [[|] i]; unfold validRef, infoOf, registerOf; simpl; intros Hv Hn.
  - apply reverseMap_fpr_In; [exact Hv|]. unfold occupied.
    apply negb_true_iff. apply Z.eqb_neq. exact Hn.
  - apply reverseMap_gpr_In; [exact Hv|]. unfold occupied.
    apply negb_true_iff. apply Z.eqb_neq. exact Hn.
Qed.

Lemma lookup_registerOf (r : Ref) :
  consistentTables X -> validRef X r -> lookup X (registerOf X r) = r.
Proof.
  intros (Hg & Hf & _).
  destruct r as [[|] i]; unfold validRef, lookup, registerOf; simpl; intros Hv.
  - rewrite Hf by exact Hv. reflexivity.
  - rewrite Hg by exact Hv. reflexivity.
Qed.

(** When no node is in two registers, a node names its register. *)
Lemma nodes_name_registers (gprInfo fprInfo : list RegisterInfo) (a b : Ref) :
  consistentTables X ->
  NoDup (map fst (reverseMap X gprInfo fprInfo)) ->
  validRef X a -> validRef X b ->
  nodeIndex (infoOf gprInfo fprInfo a) = nodeIndex (infoOf gprInfo fprInfo b) ->
  nodeIndex (infoOf gprInfo fprInfo a) <> NoNode ->
  a = b.
Proof.
  intros HT Hnd Ha Hb E Hn.
  pose proof (reverseMap_In_valid gprInfo fprInfo Ha Hn) as Ia.
  assert (Ib : In (nodeIndex (infoOf gprInfo fprInfo a), registerOf X b)
                  (reverseMap X gprInfo fprInfo)).
  { rewrite E. apply reverseMap_In_valid; [exact Hb|]. rewrite <- E. exact Hn. }
  pose proof (map_find_unique _ _ _ Hnd Ia) as Fa.
  pose proof (map_find_unique _ _ _ Hnd Ib) as Fb.
  rewrite Fa in Fb. injection Fb as Er.
  rewrite <- (lookup_registerOf HT Ha), <- (lookup_registerOf HT Hb), Er.
  reflexivity.
Qed.

(** One iteration of Part 1 extends the graph by one link. *)
Lemma linkStep_linkedUpTo (check : SpeculationCheck) (entry : EntryLocation)
      (from : Ref) (m : nat) (sh : Shuffle) :
  consistentTables X ->
  NoDup (map fst (reverseMap X (check_m_gprInfo check) (check_m_fprInfo check))) ->
  validRef X from -> position X from = m ->
  linkedUpTo X check entry m sh ->
  linkedUpTo X check entry (S m)
    (linkStep X check
              (reverseMap X (entry_m_gprInfo entry) (entry_m_fprInfo entry))
              from sh).
Proof.
  intros HT Hnd Hv Hpos (HG & Hproc & Hnode & Hun). unfold linkStep.
  set (n := nodeIndex (infoOf (check_m_gprInfo check) (check_m_fprInfo check) from)).
  assert (Hweak : linkedUpTo X check entry (S m) sh).
  { split; [exact HG|]. split; [|split; assumption].
    intros c Hc. pose proof (Hproc c Hc). lia. }
  destruct (Z.eqb_spec n NoNode) as [|Hn]; [exact Hweak|].
  destruct (map_find (reverseMap X (entry_m_gprInfo entry) (entry_m_fprInfo entry)) n)
    as [t|] eqn:Ef; [|exact Hweak].
  apply map_find_Some in Ef. destruct Ef as [Hin Efst].
  apply reverseMap_In in Hin. destruct Hin as (e & Hev & -> & Hne).
  simpl in Efst. simpl snd.
  pose proof (lookup_registerOf HT Hev) as He.
  pose proof (validRef_inBounds (pg_sized HG) Hv) as Hbf.
  pose proof (validRef_inBounds (pg_sized HG) Hev) as Hbe.
  destruct (@linkTo_fields sh from e (registerOf X e) He Hbf Hbe)
    as (P & F & T & H & Lg & Lf).
  assert (Hnofrom : forall r, previous (deref sh r) <> Some from).
  { intros r Er. pose proof (Hproc from (pg_hasFrom HG _ Er)). lia. }
  assert (Hfresh : previous (deref sh e) = None).
  { destruct (previous (deref sh e)) as [c|] eqn:Ec; [|reflexivity]. exfalso.
    pose proof (Hnode e c Ec) as En.
    pose proof (pg_hasFrom HG _ Ec) as Hc.
    assert (Hcv : validRef X c)
      by (apply (@touched_valid sh); [exact (pg_sized HG)|left; exact Hc]).
    assert (E : c = from).
    { apply (@nodes_name_registers (check_m_gprInfo check) (check_m_fprInfo check));
        try assumption.
      - rewrite En, Efst. reflexivity.
      - rewrite En, Efst. exact Hn. }
    subst c. exact (Hnofrom e Ec). }
  split; [constructor|split; [|split]].
  - destruct (pg_sized HG) as [Sg Sf]. split; congruence.
  - intros r p. rewrite P, F. destruct (Ref_eqb r e) eqn:E.
    + intros [= <-]. rewrite Ref_eqb_refl. reflexivity.
    + intros Hr. rewrite (pg_hasFrom HG _ Hr). apply orb_true_r.
  - intros a b c. rewrite !P.
    destruct (Ref_eqb a e) eqn:Ea, (Ref_eqb b e) eqn:Eb.
    + intros _ _. apply Ref_eqb_eq in Ea, Eb. congruence.
    + intros [= <-] Hb. exfalso. exact (Hnofrom b Hb).
    + intros Ha [= <-]. exfalso. exact (Hnofrom a Ha).
    + apply (pg_injective HG).
  - intros r. rewrite P, T. destruct (Ref_eqb r e); simpl.
    + split; [intros _; discriminate|intros _; reflexivity].
    + apply (pg_hasTo HG).
  - intros c. rewrite F. intros Hc. apply orb_true_iff in Hc.
    destruct Hc as [Hc|Hc].
    + apply Ref_eqb_eq in Hc. subst c. exists e. rewrite P, Ref_eqb_refl.
      reflexivity.
    + destruct (pg_receiver HG _ Hc) as [r Hr]. exists r. rewrite P.
      destruct (Ref_eqb r e) eqn:E; [|exact Hr].
      apply Ref_eqb_eq in E. subst r. congruence.
  - intros c. rewrite F. intros Hc. apply orb_true_iff in Hc.
    destruct Hc as [Hc|Hc].
    + apply Ref_eqb_eq in Hc. subst c. lia.
    + pose proof (Hproc c Hc). lia.
  - intros r c. rewrite P. destruct (Ref_eqb r e) eqn:E.
    + intros [= <-]. apply Ref_eqb_eq in E. subst r. symmetry. exact Efst.
    + apply Hnode.
  - intros r. rewrite H. apply Hun.
Qed.

Lemma spillGPRStep_shuffle (graph : Graph) (check : SpeculationCheck)
      (entry : EntryLocation) (entryMap : NodeToRegisterMap) (index : nat)
      (s : SpillGPRState) :
  sg_shuffle (spillGPRStep X graph check entry entryMap index s) =
  linkStep X check entryMap (gprRef index) (sg_shuffle s).
Proof.
  unfold spillGPRStep, linkStep, infoOf, gprRef. simpl.
  destruct (Z.eqb (nodeIndex (gprInfoAt (check_m_gprInfo check) index)) NoNode);
    [reflexivity|].
  destruct (map_find entryMap _) as [t|]; [|reflexivity].
  destruct (negb _); reflexivity.
Qed.

Lemma spillFPRStep_shuffle (graph : Graph) (check : SpeculationCheck)
      (entry : EntryLocation) (entryMap : NodeToRegisterMap) (scratchGPR : GPRReg)
      (index : nat) (st : ShuffleState) :
  st_shuffle (spillFPRStep X graph check entry entryMap scratchGPR index st) =
  linkStep X check entryMap (fprRef index) (st_shuffle st).
Proof.
  unfold spillFPRStep, linkStep, infoOf, fprRef. simpl.
  destruct (Z.eqb (nodeIndex (gprInfoAt (check_m_fprInfo check) index)) NoNode);
    [reflexivity|].
  destruct (map_find entryMap _) as [t|]; reflexivity.
Qed.

Lemma deref_initialShuffle (r : Ref) :
  previous (deref (initialShuffle X) r) = None /\
  hasFrom (deref (initialShuffle X) r) = false /\
  hasTo (deref (initialShuffle X) r) = false /\
  handled (deref (initialShuffle X) r) = false.
Proof.
  unfold deref, initialShuffle. destruct (ref_isFPR r); simpl.
  - destruct (Nat.lt_ge_cases (ref_index r) (FPRInfo_numberOfRegisters X)) as [H|H].
    + rewrite nth_map_seq by exact H. simpl. auto.
    + rewrite nth_overflow by (rewrite length_map, length_seq; exact H).
      simpl. auto.
  - destruct (Nat.lt_ge_cases (ref_index r) (GPRInfo_numberOfRegisters X)) as [H|H].
    + rewrite nth_map_seq by exact H. simpl. auto.
    + rewrite nth_overflow by (rewrite length_map, length_seq; exact H).
      simpl. auto.
Qed.

Lemma initialShuffle_linkedUpTo (check : SpeculationCheck) (entry : EntryLocation) :
  linkedUpTo X check entry 0 (initialShuffle X).
Proof.
  assert (P : forall r, previous (deref (initialShuffle X) r) = None)
    by (intros r; apply deref_initialShuffle).
  assert (F : forall r, hasFrom (deref (initialShuffle X) r) = false)
    by (intros r; apply deref_initialShuffle).
  assert (T : forall r, hasTo (deref (initialShuffle X) r) = false)
    by (intros r; apply deref_initialShuffle).
  split; [constructor|split; [|split]].
  - unfold sized, initialShuffle. simpl. rewrite !length_map, !length_seq.
    split; reflexivity.
  - intros r p. rewrite P. discriminate.
  - intros a b c. rewrite P. discriminate.
  - intros r. rewrite P, T. split; [discriminate|intros H; exfalso; apply H; reflexivity].
  - intros c. rewrite F. discriminate.
  - intros c. rewrite F. discriminate.
  - intros r c. rewrite P. discriminate.
  - intros r. apply deref_initialShuffle.
Qed.

(** The graph with which the bridge enters Part 2. *)
Lemma part1_linked (graph : Graph) (check : SpeculationCheck)
      (entry : EntryLocation) :
  consistentTables X ->
  NoDup (map fst (reverseMap X (check_m_gprInfo check) (check_m_fprInfo check))) ->
  linkedUpTo X check entry (numberOfShuffledRegisters X)
             (st_shuffle (stateBeforeShuffle X graph check entry)).
Proof.
  intros HT Hnd. unfold stateBeforeShuffle, spillFPRs, spillGPRs.
  rewrite (proj2 (discover_maps check entry)).
  set (entryMap := reverseMap X (entry_m_gprInfo entry) (entry_m_fprInfo entry)).
  set (init := {| sg_shuffle := initialShuffle X;
                  sg_scratchGPR := d_scratchGPR (discover X check entry);
                  sg_code := [] |}).
  assert (HGPR : forall k, k <= GPRInfo_numberOfRegisters X ->
            linkedUpTo X check entry k
              (sg_shuffle (forIndices k (spillGPRStep X graph check entry entryMap) init))).
  { induction k as [|k IH]; intros Hk.
    - apply initialShuffle_linkedUpTo.
    - rewrite forIndices_S, spillGPRStep_shuffle.
      apply linkStep_linkedUpTo;
        [exact HT|exact Hnd|unfold validRef; simpl; lia|reflexivity|apply IH; lia]. }
  specialize (HGPR _ (le_n _)).
  set (sg := forIndices (GPRInfo_numberOfRegisters X)
                        (spillGPRStep X graph check entry entryMap) init) in *.
  set (scratchGPR := fst (chooseScratchGPR X (sg_scratchGPR sg))).
  set (init' := {| st_shuffle := sg_shuffle sg;
                   st_scratchFPR1 := d_scratchFPR1 (discover X check entry);
                   st_scratchFPR2 := d_scratchFPR2 (discover X check entry);
                   st_code := sg_code sg |}).
  assert (HFPR : forall k, k <= FPRInfo_numberOfRegisters X ->
            linkedUpTo X check entry (GPRInfo_numberOfRegisters X + k)
              (st_shuffle (forIndices k
                             (spillFPRStep X graph check entry entryMap scratchGPR)
                             init'))).
  { induction k as [|k IH]; intros Hk.
    - rewrite Nat.add_0_r. exact HGPR.
    - rewrite forIndices_S, spillFPRStep_shuffle, Nat.add_succ_r.
      apply linkStep_linkedUpTo;
        [exact HT|exact Hnd|unfold validRef; simpl; lia|reflexivity|apply IH; lia]. }
  exact (HFPR _ (le_n _)).
Qed.

Lemma linkedUpTo_shuffleInvariant (check : SpeculationCheck) (entry : EntryLocation)
      (m : nat) (sh : Shuffle) :
  linkedUpTo X check entry m sh -> shuffleInvariant X sh.
Proof.
  intros (HG & _ & _ & Hun). split; [exact HG|].
  split; intros r c H; rewrite Hun in H; discriminate H.
Qed.

(** When no node is in two registers of the exit, the bridge returns its
    code: no walk along [previous] fails. *)
Lemma bridge_total (graph : Graph) (check : SpeculationCheck)
      (entry : EntryLocation) (recovery : option SpeculationRecovery) :
  consistentTables X ->
  NoDup (map fst (reverseMap X (check_m_gprInfo check) (check_m_fprInfo check))) ->
  exists st',
    jumpFromSpeculativeToNonSpeculative X graph check entry recovery =
    Some ([Link (CheckJump (check_m_check check))]
          ++ bridgingRecovery X check recovery
          ++ st_code st'
          ++ fillMissing X graph check entry
               (checkNodeToRegisterMap (discover X check entry))
          ++ (if snd (bridgeScratchGPR X graph check entry)
              then [moveImmPtr (TagMask X) (tagMaskRegister X)] else [])
          ++ [jumpTo (entry_m_entry entry)]).
Proof.
  intros HT Hnd.
  pose proof (linkedUpTo_shuffleInvariant (@part1_linked graph check entry HT Hnd)) as Hinv.
  unfold stateBeforeShuffle in Hinv.
  unfold jumpFromSpeculativeToNonSpeculative, bridgeScratchGPR.
  destruct (chooseScratchGPR X _) as [scratchGPR needToRestore].
  simpl fst in Hinv. simpl snd.
  destruct (@shuffle_total check entry scratchGPR _ Hinv) as [st' E].
  rewrite E. exists st'. reflexivity.
Qed.

(** *** The tag-mask fallback, and the code it ends with *)

(** C4, amended: the bridge borrows the tag-mask register exactly when
    no GPR is a scratch candidate (unused by the entry, and either unused
    by the exit or holding a node that no entry register receives); it
    then sets the restoration flag and, no node being in two registers of
    the exit, returns code that ends with the move of [TagMask] into the
    tag-mask register followed by the jump to the entry; the scratch GPR
    is never [InvalidGPRReg]. *)
Theorem tag_mask_fallback (graph : Graph) (check : SpeculationCheck)
        (entry : EntryLocation) :
  (forall j, j < GPRInfo_numberOfRegisters X ->
             GPRInfo_toRegister X j <> InvalidGPRReg) ->
  tagMaskRegister X <> InvalidGPRReg ->
  (snd (bridgeScratchGPR X graph check entry) = true <->
   forall i, i < GPRInfo_numberOfRegisters X -> scratchCandidate X check entry i = false) /\
  (snd (bridgeScratchGPR X graph check entry) = true ->
   fst (bridgeScratchGPR X graph check entry) = tagMaskRegister X) /\
  fst (bridgeScratchGPR X graph check entry) <> InvalidGPRReg /\
  (forall recovery,
      consistentTables X ->
      NoDup (map fst (reverseMap X (check_m_gprInfo check) (check_m_fprInfo check))) ->
      snd (bridgeScratchGPR X graph check entry) = true ->
      exists pre,
        jumpFromSpeculativeToNonSpeculative X graph check entry recovery =
        Some (pre ++ [moveImmPtr (TagMask X) (tagMaskRegister X);
                      jumpTo (entry_m_entry entry)])).
Proof.
  intros Hvalid Htag.
  assert (Hfold : spillGPRs X graph check entry (discover X check entry) =
                  spillGPRsUpTo X graph check entry (GPRInfo_numberOfRegisters X))
    by reflexivity.
  split; [|split; [|split]].
  - unfold bridgeScratchGPR, chooseScratchGPR. rewrite Hfold. split.
    + intros Hflag i Hi.
      destruct (scratchCandidate X check entry i) eqn:Hc; [|reflexivity].
      destruct (@spillGPRs_scratch_some graph check entry
                  (GPRInfo_numberOfRegisters X) (le_n _)) as (j & Hj & E).
      { right. exists i. split; assumption. }
      rewrite E in Hflag.
      destruct (Z.eqb_spec (GPRInfo_toRegister X j) InvalidGPRReg) as [Bad|_];
        [exfalso; exact (Hvalid j Hj Bad)|discriminate Hflag].
    + intros Hnone.
      rewrite (@spillGPRs_scratch_none graph check entry
                 (GPRInfo_numberOfRegisters X) Hnone (le_n _)).
      reflexivity.
  - unfold bridgeScratchGPR, chooseScratchGPR.
    destruct (Z.eqb _ InvalidGPRReg); [reflexivity|discriminate].
  - unfold bridgeScratchGPR, chooseScratchGPR.
    destruct (Z.eqb_spec (sg_scratchGPR (spillGPRs X graph check entry
                                                  (discover X check entry)))
                         InvalidGPRReg); simpl; assumption.
  - intros recovery HT Hnd Hflag.
    destruct (@bridge_total graph check entry recovery HT Hnd) as [st' E].
    rewrite E, Hflag.
    exists ([Link (CheckJump (check_m_check check))]
            ++ bridgingRecovery X check recovery
            ++ st_code st'
            ++ fillMissing X graph check entry
                 (checkNodeToRegisterMap (discover X check entry))).
    rewrite <- !app_assoc. reflexivity.
Qed.

End BridgingProperties.

(** ** The x86-64 tables *)

Lemma x86_64_registers_valid :
  forall j, j < 9 -> X86_64.toRegister j <> InvalidGPRReg.
Proof.
  intros j Hj. do 9 (destruct j as [|j]; [discriminate|]). lia.
Qed.

Lemma x86_64_consistentTables : consistentTables X86_64.externals.
Proof.
  split; [|split].
  - intros i Hi. change (GPRInfo_numberOfRegisters X86_64.externals) with 9 in Hi.
    do 9 (destruct i as [|i]; [reflexivity|]). lia.
  - intros i _. apply Nat2Z.id.
  - exact x86_64_registers_valid.
Qed.

(** ** The recovery pre-pass *)

(** C7, as stated, fails: in the bridging variant a destination whose
    exit format is [DataFormatInteger] gets the subtract only. *)
Lemma speculative_add_rebox_in_both_variants_fails :
  ~ (forall (X : Externals) (check : SpeculationCheck) (r : SpeculationRecovery),
        recovery_type r = SpeculativeAdd ->
        bridgingRecovery X check (Some r) =
        [sub32 (recovery_src r) (recovery_dest r);
         orPtr (tagTypeNumberRegister X) (recovery_dest r)]).
Proof.
  intros H.
  specialize (H X86_64.externals (checkWithFirstGPR DataFormatInteger) undoAdd eq_refl).
  discriminate H.
Qed.

(** C7, amended: with a [SpeculativeAdd] recovery the pre-pass comes
    first in the emitted code (right after the exit's jump is bound); in
    the OSR variant it is the 32-bit subtract of [src] from [dest] followed
    by the or of the integer tag into [dest]; in the bridging variant it
    is the subtract, followed by that or exactly when the exit format of
    [dest] is not [DataFormatInteger].  What follows the pre-pass is the
    state transfer and nothing else: in the OSR variant the reboxing that
    skips [dest] and the later steps, in the bridging variant the spills
    and shuffles, the fills, the restore of the tag-mask register and the
    jump to the entry. *)
Theorem speculative_add_prepass (X : Externals) (r : SpeculationRecovery) :
  recovery_type r = SpeculativeAdd ->
  (forall codeBlock exit decodedCodeMap mapping,
      binarySearch X decodedCodeMap (m_bytecodeIndex exit) = Some mapping ->
      exitSpeculativeWithOSR X codeBlock exit (Some r) decodedCodeMap =
      Some (Link (CheckJump (m_check exit))
            :: sub32 (recovery_src r) (recovery_dest r)
            :: orPtr (tagTypeNumberRegister X) (recovery_dest r)
            :: reboxIntegers X exit (classify X exit) (recovery_dest r)
            ++ fst (dumpFPRs X exit (classify X exit)
                             (dumpGPRs X exit (classify X exit) ([], 0)))
            ++ reshuffleDisplaced X exit (classify X exit)
                 (snd (dumpFPRs X exit (classify X exit)
                                (dumpGPRs X exit (classify X exit) ([], 0))))
            ++ dumpPoisoned X exit (classify X exit)
            ++ dumpConstants X exit (classify X exit)
            ++ [store32Imm (counterValueForOptimizeAfterWarmUp codeBlock)
                           addressOfExecuteCounter]
            ++ loadLastSetOperand X exit
            ++ [storePtrImm (alternative codeBlock)
                            (addressFor (RegisterFile_CodeBlock X));
                moveImmPtr (jitCodeStart codeBlock + bm_machineCodeOffset mapping)%Z
                           (regT1 X);
                jumpReg (regT1 X)])) /\
  (forall check,
      bridgingRecovery X check (Some r) =
      sub32 (recovery_src r) (recovery_dest r)
      :: (if DataFormat_eqb
               (format (gprInfoAt (check_m_gprInfo check)
                                  (GPRInfo_toIndex X (recovery_dest r))))
               DataFormatInteger
          then []
          else [orPtr (tagTypeNumberRegister X) (recovery_dest r)])) /\
  (forall graph check entry,
      consistentTables X ->
      NoDup (map fst (reverseMap X (check_m_gprInfo check) (check_m_fprInfo check))) ->
      exists st',
        shuffle X check entry (fst (bridgeScratchGPR X graph check entry))
                (stateBeforeShuffle X graph check entry) = Some st' /\
        jumpFromSpeculativeToNonSpeculative X graph check entry (Some r) =
        Some (Link (CheckJump (check_m_check check))
              :: sub32 (recovery_src r) (recovery_dest r)
              :: (if DataFormat_eqb
                       (format (gprInfoAt (check_m_gprInfo check)
                                          (GPRInfo_toIndex X (recovery_dest r))))
                       DataFormatInteger
                  then []
                  else [orPtr (tagTypeNumberRegister X) (recovery_dest r)])
              ++ st_code st'
              ++ fillMissing X graph check entry
                   (checkNodeToRegisterMap (discover X check entry))
              ++ (if snd (bridgeScratchGPR X graph check entry)
                  then [moveImmPtr (TagMask X) (tagMaskRegister X)] else [])
              ++ [jumpTo (entry_m_entry entry)])).
Proof.
  intros Hadd.
  assert (Eb : forall check,
             bridgingRecovery X check (Some r) =
             sub32 (recovery_src r) (recovery_dest r)
             :: (if DataFormat_eqb
                      (format (gprInfoAt (check_m_gprInfo check)
                                         (GPRInfo_toIndex X (recovery_dest r))))
                      DataFormatInteger
                 then []
                 else [orPtr (tagTypeNumberRegister X) (recovery_dest r)])).
  { intros check. unfold bridgingRecovery. rewrite Hadd.
    destruct (DataFormat_eqb _ DataFormatInteger); reflexivity. }
  split; [|split; [exact Eb|]].
  - intros codeBlock exit decodedCodeMap mapping H.
    unfold exitSpeculativeWithOSR, osrRecovery. rewrite Hadd, H. reflexivity.
  - intros graph check entry HT Hnd.
    pose proof (@linkedUpTo_shuffleInvariant X check entry _ _
                  (@part1_linked X graph check entry HT Hnd)) as Hinv.
    destruct (@shuffle_total X check entry (fst (bridgeScratchGPR X graph check entry))
                _ Hinv) as [st' E].
    exists st'. split; [exact E|].
    unfold jumpFromSpeculativeToNonSpeculative.
    unfold stateBeforeShuffle, bridgeScratchGPR in E.
    unfold bridgeScratchGPR.
    destruct (chooseScratchGPR X _) as [scratchGPR needToRestore].
    simpl fst in E. simpl snd. rewrite E, Eb. reflexivity.
Qed.

Lemma speculative_add_prepass_witness :
  (exists rest,
      exitSpeculativeWithOSR X86_64.externals baselineBlock exitWithLastSet
                             (Some undoAdd) codeMap =
      Some (Link (CheckJump 7%Z) :: sub32 2%Z 0%Z :: orPtr 14%Z 0%Z :: rest)) /\
  bridgingRecovery X86_64.externals (checkWithFirstGPR DataFormatInteger) (Some undoAdd)
    = [sub32 2%Z 0%Z] /\
  (exists st',
      jumpFromSpeculativeToNonSpeculative X86_64.externals lostValueGraph
        (checkWithFirstGPR DataFormatJSInteger) sameEntry (Some undoAdd) =
      Some (Link (CheckJump 100%Z) :: sub32 2%Z 0%Z :: [orPtr 14%Z 0%Z]
            ++ st_code st'
            ++ fillMissing X86_64.externals lostValueGraph
                 (checkWithFirstGPR DataFormatJSInteger) sameEntry
                 (checkNodeToRegisterMap
                    (discover X86_64.externals (checkWithFirstGPR DataFormatJSInteger)
                              sameEntry))
            ++ (if snd (bridgeScratchGPR X86_64.externals lostValueGraph
                          (checkWithFirstGPR DataFormatJSInteger) sameEntry)
                then [moveImmPtr (TagMask X86_64.externals)
                                 (tagMaskRegister X86_64.externals)] else [])
            ++ [jumpTo (entry_m_entry sameEntry)])).
Proof.
  split; [|split].
  - eexists.
    exact (proj1 (speculative_add_prepass X86_64.externals undoAdd eq_refl)
                 baselineBlock exitWithLastSet codeMap
                 {| bm_bytecodeIndex := 3%Z; bm_machineCodeOffset := 64%Z |} eq_refl).
  - exact (proj1 (proj2 (speculative_add_prepass X86_64.externals undoAdd eq_refl))
                 (checkWithFirstGPR DataFormatInteger)).
  - destruct (proj2 (proj2 (speculative_add_prepass X86_64.externals undoAdd eq_refl))
                    lostValueGraph (checkWithFirstGPR DataFormatJSInteger) sameEntry
                    x86_64_consistentTables) as (st' & _ & E).
    + vm_compute. repeat constructor; intros Hin; simpl in Hin;
        repeat (destruct Hin as [Hin|Hin]; [discriminate Hin|]); exact Hin.
    + exists st'. exact E.
Defined.

(** C4, as stated, fails: no GPR is free on both sides (the exit uses
    them all), yet the first GPR, whose exit value the entry does not
    want, is the scratch and the tag-mask register is not borrowed. *)
Lemma tag_mask_fallback_when_none_free_fails :
  ~ (forall (X : Externals) (graph : Graph) (check : SpeculationCheck)
            (entry : EntryLocation),
        (forall i, i < GPRInfo_numberOfRegisters X ->
                   freeOnBothSides check entry i = false) ->
        bridgeScratchGPR X graph check entry = (tagMaskRegister X, true)).
Proof.
  intros H.
  specialize (H X86_64.externals lostValueGraph fullCheck entryWithoutFirst).
  assert (Hnone : forall i, i < GPRInfo_numberOfRegisters X86_64.externals ->
                            freeOnBothSides fullCheck entryWithoutFirst i = false).
  { intros i Hi. change (GPRInfo_numberOfRegisters X86_64.externals) with 9 in Hi.
    do 9 (destruct i as [|i]; [reflexivity|]). lia. }
  specialize (H Hnone). vm_compute in H. discriminate H.
Qed.

Lemma tag_mask_fallback_witness :
  exists pre,
    jumpFromSpeculativeToNonSpeculative X86_64.externals lostValueGraph
      fullCheck fullEntry None =
    Some (pre ++ [moveImmPtr 0xffff000000000002%Z 15%Z; jumpTo 200%Z]).
Proof.
  assert (Htag : tagMaskRegister X86_64.externals <> InvalidGPRReg) by discriminate.
  refine (proj2 (proj2 (proj2
            (@tag_mask_fallback X86_64.externals lostValueGraph fullCheck fullEntry
               x86_64_registers_valid Htag))) None x86_64_consistentTables _ eq_refl).
  vm_compute. repeat constructor; intros Hin; simpl in Hin;
    repeat (destruct Hin as [Hin|Hin]; [discriminate Hin|]); exact Hin.
Defined.

(** C3, as stated, fails for a cycle of length 2 between FPRs: [xmm2] and
    [xmm3] are exchanged through a scratch register and no [swap] is
    emitted. *)
Lemma two_cycle_always_swaps_fails :
  ~ (forall (X : Externals) (check : SpeculationCheck) (entry : EntryLocation)
            (this p : Ref) (scratchGPR : GPRReg) (st : ShuffleState) (fuel : nat),
        cycleLinks (st_shuffle st) this this [p] ->
        1 < fuel ->
        exists st' conversions,
          handleCyclingPermutation X fuel check entry this scratchGPR st = Some st' /\
          st_code st' =
          st_code st
          ++ swap (m_register (reg (deref (st_shuffle st) this)))
                  (m_register (reg (deref (st_shuffle st) p)))
             :: conversions).
Proof.
  intros H.
  destruct (H X86_64.externals lostValueCheck lostValueEntry (fprRef 2) (fprRef 3)
              10%Z
              (stateBeforeShuffle X86_64.externals lostValueGraph
                                  lostValueCheck lostValueEntry)
              16)
    as (st' & conversions & E & Hcode).
  - vm_compute. repeat split; reflexivity.
  - lia.
  - vm_compute in E. injection E as <-. vm_compute in Hcode. discriminate Hcode.
Qed.

Lemma cycle_resolution_witness :
  exists st',
    handleCyclingPermutation X86_64.externals 16 twoCycleCheck twoCycleEntry
      (gprRef 0) 10%Z
      (stateBeforeShuffle X86_64.externals lostValueGraph twoCycleCheck twoCycleEntry)
    = Some st' /\
    st_code st' = [swap 0%Z 2%Z].
Proof.
  destruct (@cycle_resolution X86_64.externals twoCycleCheck twoCycleEntry
              (gprRef 0) [gprRef 1] 10%Z
              (stateBeforeShuffle X86_64.externals lostValueGraph
                                  twoCycleCheck twoCycleEntry)
              16)
    as (st' & E & Hcode & _).
  - vm_compute. repeat split; reflexivity.
  - simpl. lia.
  - exists st'. split; [exact E|]. rewrite Hcode. reflexivity.
Defined.

(** ** The identity exit *)

(** C9, amended: for identical register maps the bridge emits the binding
    of the exit's jump, the recovery pre-pass and the jump to the entry,
    with nothing between the pre-pass and the jump unless every GPR is
    occupied, in which case the one instruction between them is the move
    that restores the tag-mask register; and a conversion between equal
    formats emits nothing. *)
Theorem identity_exit (X : Externals) (graph : Graph) (check : SpeculationCheck)
        (entry : EntryLocation) (recovery : option SpeculationRecovery) :
  consistentTables X ->
  identicalMaps X check entry ->
  jumpFromSpeculativeToNonSpeculative X graph check entry recovery =
  Some ([Link (CheckJump (check_m_check check))]
        ++ bridgingRecovery X check recovery
        ++ (if forallb (occupied (check_m_gprInfo check))
                       (seq 0 (GPRInfo_numberOfRegisters X))
            then [moveImmPtr (TagMask X) (tagMaskRegister X)] else [])
        ++ [jumpTo (entry_m_entry entry)]) /\
  (forall r f, needDataFormatConversion X f f = false -> convert X r f f = []).
Proof.
  intros (Hg & Hf & Hv) (Sg & Sf & Hu & Fg & Ff). split.
  - apply identical_bridge; assumption.
  - intros r f H. unfold convert. rewrite H. reflexivity.
Qed.

(** C9, as stated, fails when every GPR is occupied: between the pre-pass
    and the jump the bridge emits a move into the tag-mask register. *)
Lemma identity_exit_emits_nothing_fails :
  ~ (forall (X : Externals) (graph : Graph) (check : SpeculationCheck)
            (entry : EntryLocation) (recovery : option SpeculationRecovery),
        consistentTables X ->
        identicalMaps X check entry ->
        jumpFromSpeculativeToNonSpeculative X graph check entry recovery =
        Some ([Link (CheckJump (check_m_check check))]
              ++ bridgingRecovery X check recovery
              ++ [jumpTo (entry_m_entry entry)])).
Proof.
  intros H.
  specialize (H X86_64.externals lostValueGraph fullCheck fullEntry None).
  assert (Ht : consistentTables X86_64.externals).
  { split; [|split].
    - intros i Hi. change (GPRInfo_numberOfRegisters X86_64.externals) with 9 in Hi.
      do 9 (destruct i as [|i]; [reflexivity|]). lia.
    - intros i _. apply Nat2Z.id.
    - exact x86_64_registers_valid. }
  assert (Hm : identicalMaps X86_64.externals fullCheck fullEntry).
  { split; [reflexivity|]. split; [reflexivity|]. split; [|split].
    - vm_compute. repeat constructor; intros Hin; simpl in Hin;
        repeat (destruct Hin as [Hin|Hin]; [discriminate Hin|]); exact Hin.
    - intros i Hi _. change (GPRInfo_numberOfRegisters X86_64.externals) with 9 in Hi.
      do 9 (destruct i as [|i]; [reflexivity|]). lia.
    - intros i Hi Hocc. change (FPRInfo_numberOfRegisters X86_64.externals) with 6 in Hi.
      do 6 (destruct i as [|i]; [discriminate Hocc|]). lia. }
  specialize (H Ht Hm). vm_compute in H. discriminate H.
Qed.

Lemma identity_exit_witness :
  jumpFromSpeculativeToNonSpeculative X86_64.externals lostValueGraph
    twoCycleCheck sameEntry None =
  Some [Link (CheckJump 100%Z); jumpTo 200%Z].
Proof.
  refine (proj1 (@identity_exit X86_64.externals lostValueGraph twoCycleCheck
                   sameEntry None _ _)).
  - split; [|split].
    + intros i Hi. change (GPRInfo_numberOfRegisters X86_64.externals) with 9 in Hi.
      do 9 (destruct i as [|i]; [reflexivity|]). lia.
    + intros i _. apply Nat2Z.id.
    + exact x86_64_registers_valid.
  - split; [reflexivity|]. split; [reflexivity|]. split; [|split].
    + vm_compute. repeat constructor; intros Hin; simpl in Hin;
        repeat (destruct Hin as [Hin|Hin]; [discriminate Hin|]); exact Hin.
    + intros i Hi Hocc. change (GPRInfo_numberOfRegisters X86_64.externals) with 9 in Hi.
      do 9 (destruct i as [|i]; [first [reflexivity | discriminate Hocc]|]). lia.
    + intros i Hi Hocc. change (FPRInfo_numberOfRegisters X86_64.externals) with 6 in Hi.
      do 6 (destruct i as [|i]; [discriminate Hocc|]). lia.
Defined.

(** * Further properties of the bridging emitter *)

(** ** [NodeToRegisterMap] *)

(** X1: as long as [m_payload] has a free cell, after
    [set(first, second)] [find(first)] returns the tuple just written,
    whatever had been set for that node before, and [find] of any other
    node returns what it returned before; on a cleared map [find] returns
    [end()]. *)
Theorem node_map_find_after_set (X : Externals) (m : NodeToRegisterMap)
        (first first' : NodeIndex) (second : GeneralizedRegister) :
  length m < numberOfShuffledRegisters X ->
  length (map_set m first second) <= numberOfShuffledRegisters X /\
  map_find (map_set m first second) first' =
    (if Z.eqb first' first then Some (first, second) else map_find m first') /\
  map_find [] first' = None.
Proof.
  intros Hfree. split; [|split; [|reflexivity]].
  - unfold map_set. rewrite length_app. simpl. lia.
  - unfold map_find, map_set. rewrite rev_app_distr. simpl.
    rewrite (Z.eqb_sym first first'). reflexivity.
Qed.

Lemma node_map_find_after_set_witness :
  map_find (map_set [(5%Z, createGPR 0%Z)] 5%Z (createGPR 3%Z)) 5%Z =
    (if Z.eqb 5 5 then Some (5%Z, createGPR 3%Z)
     else map_find [(5%Z, createGPR 0%Z)] 5%Z).
Proof.
  refine (proj1 (proj2 (@node_map_find_after_set X86_64.externals
                          [(5%Z, createGPR 0%Z)] 5%Z 5%Z (createGPR 3%Z) _))).
  vm_compute. lia.
Defined.

Lemma length_flat_map_seq (A : Type) (f : nat -> list A) (n : nat) :
  (forall i, length (f i) <= 1) -> length (flat_map f (seq 0 n)) <= n.
Proof.
  intros H. induction n as [|n IH]; [simpl; lia|].
  rewrite flat_map_seq_S, length_app. pose proof (H n). lia.
Qed.

Lemma length_reverseMap (X : Externals) (gprInfo fprInfo : list RegisterInfo) :
  length (reverseMap X gprInfo fprInfo) <= numberOfShuffledRegisters X.
Proof.
  unfold reverseMap, numberOfShuffledRegisters. rewrite length_app.
  pose proof (@length_flat_map_seq _ (gprTuple X gprInfo) (GPRInfo_numberOfRegisters X)) as Hg.
  pose proof (@length_flat_map_seq _ (fprTuple X fprInfo) (FPRInfo_numberOfRegisters X)) as Hf.
  assert (length (flat_map (gprTuple X gprInfo) (seq 0 (GPRInfo_numberOfRegisters X)))
          <= GPRInfo_numberOfRegisters X).
  { apply Hg. intros i. unfold gprTuple.
    destruct (Z.eqb _ NoNode); simpl; lia. }
  assert (length (flat_map (fprTuple X fprInfo) (seq 0 (FPRInfo_numberOfRegisters X)))
          <= FPRInfo_numberOfRegisters X).
  { apply Hf. intros i. unfold fprTuple.
    destruct (Z.eqb _ NoNode); simpl; lia. }
  lia.
Qed.

(** X2: the two reverse maps the bridge fills never hold more tuples than
    [m_payload] has cells ([GPRInfo::numberOfRegisters +
    FPRInfo::numberOfRegisters]): [set] does not write past the array. *)
Theorem reverse_maps_fit_payload (X : Externals) (check : SpeculationCheck)
        (entry : EntryLocation) :
  length (checkNodeToRegisterMap (discover X check entry))
    <= numberOfShuffledRegisters X /\
  length (entryNodeToRegisterMap (discover X check entry))
    <= numberOfShuffledRegisters X.
Proof.
  destruct (@discover_maps X check entry) as [-> ->].
  split; apply length_reverseMap.
Qed.

(** X3: when no node is in two registers of the exit, looking a register's
    node up in the exit's reverse map gives that register back, and
    [ShuffledRegister::lookup] of it is the register's own cell. *)
Theorem reverse_map_finds_register (X : Externals) (check : SpeculationCheck)
        (entry : EntryLocation) (r : Ref) :
  consistentTables X ->
  NoDup (map fst (reverseMap X (check_m_gprInfo check) (check_m_fprInfo check))) ->
  validRef X r ->
  nodeIndex (infoOf (check_m_gprInfo check) (check_m_fprInfo check) r) <> NoNode ->
  exists t,
    map_find (checkNodeToRegisterMap (discover X check entry))
             (nodeIndex (infoOf (check_m_gprInfo check) (check_m_fprInfo check) r))
    = Some t /\
    snd t = registerOf X r /\
    lookup X (snd t) = r.
Proof.
  intros HT Hnd Hv Hn.
  destruct (@discover_maps X check entry) as [-> _].
  eexists. split.
  - apply map_find_unique; [exact Hnd|].
    apply (@reverseMap_In_valid X); assumption.
  - split; [reflexivity|]. simpl. apply (@lookup_registerOf X); assumption.
Qed.

Lemma reverse_map_finds_register_witness :
  exists t,
    map_find (checkNodeToRegisterMap
                (discover X86_64.externals lostValueCheck lostValueEntry)) 12%Z
    = Some t /\
    snd t = createFPR 2%Z /\
    lookup X86_64.externals (snd t) = fprRef 2.
Proof.
  refine (@reverse_map_finds_register X86_64.externals lostValueCheck lostValueEntry
            (fprRef 2) x86_64_consistentTables _ _ _).
  - vm_compute. repeat constructor; intros Hin; simpl in Hin;
      repeat (destruct Hin as [Hin|Hin]; [discriminate Hin|]); exact Hin.
  - unfold validRef. simpl. lia.
  - discriminate.
Defined.

(** ** [lookupForRegister] *)

(** X4: [lookupForRegister] maps the indices below
    [GPRInfo::numberOfRegisters + FPRInfo::numberOfRegisters] one to one
    onto the cells of [gprs] and [fprs]: every index gives a cell inside
    its array, distinct indices give distinct cells, and every cell is
    reached. *)
Theorem lookupForRegister_enumerates (X : Externals) :
  injectiveBelow (numberOfShuffledRegisters X) (lookupForRegister X) /\
  (forall index, index < numberOfShuffledRegisters X ->
                 validRef X (lookupForRegister X index)) /\
  (forall r, validRef X r ->
             exists index, index < numberOfShuffledRegisters X /\
                           lookupForRegister X index = r).
Proof.
  unfold injectiveBelow, numberOfShuffledRegisters, lookupForRegister, validRef.
  split; [|split].
  - intros i j Hi Hj.
    destruct (Nat.ltb_spec i (GPRInfo_numberOfRegisters X)),
             (Nat.ltb_spec j (GPRInfo_numberOfRegisters X));
      intros E; injection E as E; try discriminate; lia.
  - intros index Hi.
    destruct (Nat.ltb_spec index (GPRInfo_numberOfRegisters X)); simpl; lia.
  - intros r Hr. exists (position X r).
    split; [exact (@position_bound X r Hr)|].
    exact (@lookupForRegister_position X r Hr).
Qed.

(** ** Part 1 and Part 2 of the bridge *)

(** X5: when no node is in two registers of the exit, the [previous]
    pointers Part 1 leaves form a partial injection between registers:
    a link goes from the exit register of a node to the entry register of
    the same node, no register is the [previous] of two registers,
    [hasTo] marks the registers that have a [previous] and [hasFrom] the
    registers that are one. *)
Theorem part1_links_same_node (X : Externals) (graph : Graph)
        (check : SpeculationCheck) (entry : EntryLocation) :
  consistentTables X ->
  NoDup (map fst (reverseMap X (check_m_gprInfo check) (check_m_fprInfo check))) ->
  let sh := st_shuffle (stateBeforeShuffle X graph check entry) in
  (forall r c, previous (deref sh r) = Some c ->
               nodeIndex (infoOf (check_m_gprInfo check) (check_m_fprInfo check) c) =
               nodeIndex (infoOf (entry_m_gprInfo entry) (entry_m_fprInfo entry) r)) /\
  (forall a b c, previous (deref sh a) = Some c ->
                 previous (deref sh b) = Some c -> a = b) /\
  (forall r, hasTo (deref sh r) = true <-> previous (deref sh r) <> None) /\
  (forall c, hasFrom (deref sh c) = true <->
             exists r, previous (deref sh r) = Some c).
Proof.
  intros HT Hnd sh.
  destruct (@part1_linked X graph check entry HT Hnd) as (HG & _ & Hnode & _).
  fold sh in HG, Hnode.
  split; [exact Hnode|]. split; [exact (pg_injective HG)|].
  split; [exact (pg_hasTo HG)|].
  intros c. split; [exact (pg_receiver HG c)|].
  intros [r Hr]. exact (pg_hasFrom HG _ Hr).
Qed.

Lemma part1_links_same_node_witness :
  previous (deref (st_shuffle (stateBeforeShuffle X86_64.externals lostValueGraph
                                                  lostValueCheck lostValueEntry))
                  (fprRef 1)) = Some (fprRef 0) /\
  nodeIndex (infoOf (check_m_gprInfo lostValueCheck) (check_m_fprInfo lostValueCheck)
                    (fprRef 0)) =
  nodeIndex (infoOf (entry_m_gprInfo lostValueEntry) (entry_m_fprInfo lostValueEntry)
                    (fprRef 1)).
Proof.
  split; [reflexivity|].
  refine (proj1 (@part1_links_same_node X86_64.externals lostValueGraph
                   lostValueCheck lostValueEntry x86_64_consistentTables _)
                (fprRef 1) (fprRef 0) eq_refl).
  vm_compute. repeat constructor; intros Hin; simpl in Hin;
    repeat (destruct Hin as [Hin|Hin]; [discriminate Hin|]); exact Hin.
Defined.

(** X6: when no node is in two registers of the exit, every walk along
    [previous] that Part 2 makes ends (no null pointer is followed, no
    walk goes round for ever) and the bridge returns its code: the binding
    of the exit's jump, the recovery pre-pass, the spills and shuffles,
    the fills, the restore of the tag-mask register if it was borrowed,
    and the jump to the entry. *)
Theorem bridge_returns_code (X : Externals) (graph : Graph)
        (check : SpeculationCheck) (entry : EntryLocation)
        (recovery : option SpeculationRecovery) :
  consistentTables X ->
  NoDup (map fst (reverseMap X (check_m_gprInfo check) (check_m_fprInfo check))) ->
  exists st',
    shuffle X check entry (fst (bridgeScratchGPR X graph check entry))
            (stateBeforeShuffle X graph check entry) = Some st' /\
    jumpFromSpeculativeToNonSpeculative X graph check entry recovery =
    Some ([Link (CheckJump (check_m_check check))]
          ++ bridgingRecovery X check recovery
          ++ st_code st'
          ++ fillMissing X graph check entry
               (checkNodeToRegisterMap (discover X check entry))
          ++ (if snd (bridgeScratchGPR X graph check entry)
              then [moveImmPtr (TagMask X) (tagMaskRegister X)] else [])
          ++ [jumpTo (entry_m_entry entry)]).
Proof.
  intros HT Hnd.
  pose proof (@linkedUpTo_shuffleInvariant X check entry _ _
                (@part1_linked X graph check entry HT Hnd)) as Hinv.
  destruct (@shuffle_total X check entry (fst (bridgeScratchGPR X graph check entry))
              _ Hinv) as [st' E].
  exists st'. split; [exact E|].
  unfold jumpFromSpeculativeToNonSpeculative.
  unfold stateBeforeShuffle, bridgeScratchGPR in E.
  unfold bridgeScratchGPR.
  destruct (chooseScratchGPR X _) as [scratchGPR needToRestore].
  simpl fst in E. simpl snd. rewrite E. reflexivity.
Qed.

Lemma bridge_returns_code_witness :
  exists st',
    shuffle X86_64.externals twoCycleCheck twoCycleEntry
            (fst (bridgeScratchGPR X86_64.externals lostValueGraph
                                   twoCycleCheck twoCycleEntry))
            (stateBeforeShuffle X86_64.externals lostValueGraph
                                twoCycleCheck twoCycleEntry) = Some st' /\
    jumpFromSpeculativeToNonSpeculative X86_64.externals lostValueGraph
      twoCycleCheck twoCycleEntry None =
    Some ([Link (CheckJump 100%Z)] ++ [] ++ st_code st' ++ [] ++ [] ++ [jumpTo 200%Z]).
Proof.
  refine (@bridge_returns_code X86_64.externals lostValueGraph twoCycleCheck
            twoCycleEntry None x86_64_consistentTables _).
  vm_compute. repeat constructor; intros Hin; simpl in Hin;
    repeat (destruct Hin as [Hin|Hin]; [discriminate Hin|]); exact Hin.
Defined.

Lemma untouched_sameGraph (sh sh' : Shuffle) (r : Ref) :
  sameGraph sh sh' -> untouched (deref sh' r) = untouched (deref sh r).
Proof.
  intros (_ & F & _). unfold untouched. destruct (F r) as [-> ->]. reflexivity.
Qed.

(** What one iteration of the loop over the cycles leaves of its
    register. *)
Lemma cycleStep_marks (X : Externals) (check : SpeculationCheck)
      (entry : EntryLocation) (scratchGPR : GPRReg) (index : nat)
      (st st' : ShuffleState) :
  shuffleInvariant X (st_shuffle st) -> endsHandled (st_shuffle st) ->
  cycleStep X check entry scratchGPR index st = Some st' ->
  sameGraph (st_shuffle st) (st_shuffle st') /\
  (forall r, handled (deref (st_shuffle st) r) = true ->
             handled (deref (st_shuffle st') r) = true) /\
  (handled (deref (st_shuffle st') (lookupForRegister X index)) = true \/
   untouched (deref (st_shuffle st') (lookupForRegister X index)) = true).
Proof.
  intros Hinv He. unfold cycleStep.
  set (r := lookupForRegister X index).
  destruct (handled (deref (st_shuffle st) r)) eqn:Eh.
  { simpl. intros [= <-]. split; [apply sameGraph_refl|].
    split; [intros x H; exact H|left; exact Eh]. }
  destruct (untouched (deref (st_shuffle st) r)) eqn:Eu.
  { simpl. intros [= <-]. split; [apply sameGraph_refl|].
    split; [intros x H; exact H|right; exact Eu]. }
  simpl.
  assert (Htouched : hasFrom (deref (st_shuffle st) r) = true \/
                     hasTo (deref (st_shuffle st) r) = true).
  { unfold untouched in Eu.
    destruct (hasFrom (deref (st_shuffle st) r)); [left; reflexivity|].
    destruct (hasTo (deref (st_shuffle st) r)); [right; reflexivity|].
    discriminate Eu. }
  destruct (@cycle_exists X (st_shuffle st) r Hinv He Eh Htouched)
    as (rest & Hcyc & Hlen).
  destruct (@handleCyclingPermutation_total X check entry r rest scratchGPR st
              (walkFuel X) Hcyc Hlen) as (st'' & E & Hs & Hh).
  rewrite E. intros [= <-].
  split; [exact Hs|]. split.
  - intros x Hx. rewrite Hh, Hx. apply orb_true_r.
  - left. rewrite Hh. simpl. rewrite Ref_eqb_refl. reflexivity.
Qed.

(** X7: when no node is in two registers of the exit, the two loops of
    Part 2 leave every register either handled or taking no part in the
    permutation: the assertion that follows them in the source holds. *)
Theorem shuffle_handles_every_register (X : Externals) (graph : Graph)
        (check : SpeculationCheck) (entry : EntryLocation) :
  consistentTables X ->
  NoDup (map fst (reverseMap X (check_m_gprInfo check) (check_m_fprInfo check))) ->
  exists st',
    shuffle X check entry (fst (bridgeScratchGPR X graph check entry))
            (stateBeforeShuffle X graph check entry) = Some st' /\
    forall index, index < numberOfShuffledRegisters X ->
      handled (deref (st_shuffle st') (lookupForRegister X index)) = true \/
      (hasFrom (deref (st_shuffle st') (lookupForRegister X index)) = false /\
       hasTo (deref (st_shuffle st') (lookupForRegister X index)) = false).
Proof.
  intros HT Hnd.
  pose proof (@linkedUpTo_shuffleInvariant X check entry _ _
                (@part1_linked X graph check entry HT Hnd)) as Hinv.
  set (st := stateBeforeShuffle X graph check entry) in *.
  set (scratchGPR := fst (bridgeScratchGPR X graph check entry)).
  unfold shuffle.
  destruct (@chains_total X check entry st Hinv) as (st1 & E1 & Hinv1 & He1).
  rewrite E1.
  destruct (@forIndicesOpt_indexed ShuffleState
              (fun k acc =>
                 shuffleInvariant X (st_shuffle acc) /\ endsHandled (st_shuffle acc) /\
                 forall j, j < k ->
                   handled (deref (st_shuffle acc) (lookupForRegister X j)) = true \/
                   untouched (deref (st_shuffle acc) (lookupForRegister X j)) = true)
              (numberOfShuffledRegisters X) (cycleStep X check entry scratchGPR) st1)
    as (st2 & E2 & _ & _ & Hall).
  - split; [exact Hinv1|]. split; [exact He1|]. intros j Hj. lia.
  - intros k acc Hk (Ha & Hb & Hj).
    destruct (@cycleStep_total X check entry scratchGPR k acc Ha Hb)
      as (acc' & E & Ha' & Hb').
    destruct (@cycleStep_marks X check entry scratchGPR k acc acc' Ha Hb E)
      as (Hs & Hm & Hk').
    exists acc'. split; [exact E|]. split; [exact Ha'|]. split; [exact Hb'|].
    intros j Hlt. destruct (Nat.eq_dec j k) as [->|Hne]; [exact Hk'|].
    destruct (Hj j ltac:(lia)) as [H|H].
    + left. apply Hm. exact H.
    + right. rewrite (untouched_sameGraph _ Hs). exact H.
  - exists st2. split; [exact E2|]. intros index Hi.
    destruct (Hall index Hi) as [H|H]; [left; exact H|right].
    unfold untouched in H. apply andb_prop in H. destruct H as [H1 H2].
    apply negb_true_iff in H1, H2. split; assumption.
Qed.

Lemma shuffle_handles_every_register_witness :
  exists st',
    shuffle X86_64.externals lostValueCheck lostValueEntry
            (fst (bridgeScratchGPR X86_64.externals lostValueGraph
                                   lostValueCheck lostValueEntry))
            (stateBeforeShuffle X86_64.externals lostValueGraph
                                lostValueCheck lostValueEntry) = Some st' /\
    forall index, index < 15 ->
      handled (deref (st_shuffle st') (lookupForRegister X86_64.externals index)) = true \/
      (hasFrom (deref (st_shuffle st') (lookupForRegister X86_64.externals index)) = false /\
       hasTo (deref (st_shuffle st') (lookupForRegister X86_64.externals index)) = false).
Proof.
  refine (@shuffle_handles_every_register X86_64.externals lostValueGraph
            lostValueCheck lostValueEntry x86_64_consistentTables _).
  vm_compute. repeat constructor; intros Hin; simpl in Hin;
    repeat (destruct Hin as [Hin|Hin]; [discriminate Hin|]); exact Hin.
Defined.

(** * The callers of the two emitters *)

(** ** [linkSpeculationChecks] *)

Lemma checksOfEntry_round (entry : EntryLocation)
      (same others : list SpeculationCheck) :
  (forall c, In c same -> check_m_nodeIndex c = entry_m_nodeIndex entry) ->
  match others with
  | [] => True
  | c :: _ => check_m_nodeIndex c <> entry_m_nodeIndex entry
  end ->
  checksOfEntry entry (same ++ others) = (same, others).
Proof.
  induction same as [|a same IH]; simpl; intros Hsame Hothers.
  - destruct others as [|c others]; [reflexivity|]. simpl.
    destruct (Z.eqb_spec (check_m_nodeIndex c) (entry_m_nodeIndex entry));
      [contradiction|reflexivity].
  - rewrite (Hsame a (or_introl eq_refl)), Z.eqb_refl.
    rewrite IH; [reflexivity| |exact Hothers].
    intros c Hc. apply Hsame. right. exact Hc.
Qed.

Lemma checksOfEntry_split (entry : EntryLocation) (checks : list SpeculationCheck) :
  fst (checksOfEntry entry checks) ++ snd (checksOfEntry entry checks) = checks.
Proof.
  induction checks as [|c checks IH]; [reflexivity|]. simpl.
  destruct (Z.eqb (check_m_nodeIndex c) (entry_m_nodeIndex entry)); [|reflexivity].
  destruct (checksOfEntry entry checks) as [same others]. simpl in *.
  rewrite IH. reflexivity.
Qed.

(** X10: when the checks come in rounds, one round per entry, every check
    of a round having the node index of its entry and neighbouring entries
    having different node indices, [linkSpeculationChecks] bridges every
    check to the entry of its round, in order, and uses up both lists. *)
Theorem checks_are_bridged_to_their_entries (X : Externals) (graph : Graph)
        (speculationRecovery : nat -> option SpeculationRecovery)
        (rounds : checkRounds) :
  (forall g, In g rounds -> roundWellFormed g) ->
  adjacentDistinct (map (fun g => entry_m_nodeIndex (fst g)) rounds) ->
  pairedChecks (map fst rounds) (flat_map snd rounds) =
    Some (flat_map (fun g => map (fun c => (c, fst g)) (snd g)) rounds) /\
  linkSpeculationChecks X graph speculationRecovery
                        (flat_map snd rounds) (map fst rounds) =
    emitAll (fun p =>
               jumpFromSpeculativeToNonSpeculative X graph (fst p) (snd p)
                 (speculationRecovery (check_m_recoveryIndex (fst p))))
            (flat_map (fun g => map (fun c => (c, fst g)) (snd g)) rounds).
Proof.
  intros Hwf Hadj.
  assert (Hpairs : pairedChecks (map fst rounds) (flat_map snd rounds) =
                   Some (flat_map (fun g => map (fun c => (c, fst g)) (snd g)) rounds)).
  { induction rounds as [|[e cs] rounds IH]; [reflexivity|].
    destruct (Hwf (e, cs) (or_introl eq_refl)) as [Hne Hsame]. simpl in Hne, Hsame.
    destruct cs as [|c cs]; [contradiction|].
    simpl flat_map. simpl map. simpl pairedChecks.
    rewrite (@checksOfEntry_round e cs (flat_map snd rounds)).
    - rewrite IH.
      + reflexivity.
      + intros g Hg. apply Hwf. right. exact Hg.
      + destruct rounds as [|g rounds]; [exact I|]. exact (proj2 Hadj).
    - intros c' Hc'. apply Hsame. right. exact Hc'.
    - destruct rounds as [|[e2 cs2] rounds]; [exact I|].
      destruct (Hwf (e2, cs2) (or_intror (or_introl eq_refl))) as [Hne2 Hsame2].
      simpl in Hne2, Hsame2. destruct cs2 as [|c2 cs2]; [contradiction|].
      simpl. rewrite (Hsame2 c2 (or_introl eq_refl)).
      intros E. exact (proj1 Hadj (eq_sym E)). }
  split; [exact Hpairs|].
  unfold linkSpeculationChecks. rewrite Hpairs. reflexivity.
Qed.

Lemma checks_are_bridged_to_their_entries_witness :
  pairedChecks [fullEntry; laterEntry] [fullCheck; fullCheck; laterCheck] =
  Some [(fullCheck, fullEntry); (fullCheck, fullEntry); (laterCheck, laterEntry)].
Proof.
  refine (proj1 (@checks_are_bridged_to_their_entries X86_64.externals lostValueGraph
                   (fun _ => None)
                   [(fullEntry, [fullCheck; fullCheck]); (laterEntry, [laterCheck])]
                   _ _)).
  - intros g [<-|[<-|[]]]; (split; [discriminate|]); simpl.
    + intros c [<-|[<-|[]]]; reflexivity.
    + intros c [<-|[]]. reflexivity.
  - simpl. split; [discriminate|exact I].
Defined.

(** X11: whatever the node indices are, when [linkSpeculationChecks] gets
    through its loops every check has been bridged exactly once, in the
    order of the checks, and only to entries of the entry list; with no
    check nothing is bridged, and with checks but no entry the loop reads
    the end of the entry list. *)
Theorem every_check_is_bridged_once (entries : list EntryLocation)
        (checks : list SpeculationCheck)
        (pairs : list (SpeculationCheck * EntryLocation)) :
  pairedChecks entries checks = Some pairs ->
  map fst pairs = checks /\
  (forall p, In p pairs -> In (snd p) entries) /\
  pairedChecks entries [] = Some [] /\
  (checks <> [] -> pairedChecks [] checks = None).
Proof.
  intros H. split; [|split; [|split]].
  - revert checks pairs H.
    induction entries as [|e entries IH]; intros checks pairs H.
    + destruct checks; [injection H as <-; reflexivity|discriminate H].
    + destruct checks as [|c checks]; [injection H as <-; reflexivity|].
      simpl in H. pose proof (checksOfEntry_split e checks) as Hsplit.
      destruct (checksOfEntry e checks) as [same others]. simpl in Hsplit.
      destruct (pairedChecks entries others) as [ps|] eqn:E; [|discriminate H].
      injection H as <-. simpl. rewrite map_app, map_map. simpl.
      rewrite map_id, (IH _ _ E), Hsplit. reflexivity.
  - revert checks pairs H.
    induction entries as [|e entries IH]; intros checks pairs H.
    + destruct checks; [injection H as <-; intros p []|discriminate H].
    + destruct checks as [|c checks]; [injection H as <-; intros p []|].
      simpl in H. destruct (checksOfEntry e checks) as [same others].
      destruct (pairedChecks entries others) as [ps|] eqn:E; [|discriminate H].
      injection H as <-. intros p [<-|Hp]; [left; reflexivity|].
      apply in_app_or in Hp. destruct Hp as [Hp|Hp].
      * apply in_map_iff in Hp. destruct Hp as (c' & <- & _). left. reflexivity.
      * right. exact (IH _ _ E p Hp).
  - destruct entries; reflexivity.
  - destruct checks; [intros Hne; contradiction|reflexivity].
Qed.

Lemma every_check_is_bridged_once_witness :
  map fst [(fullCheck, fullEntry); (laterCheck, fullEntry)] = [fullCheck; laterCheck].
Proof.
  exact (proj1 (@every_check_is_bridged_once [fullEntry; fullEntry]
                  [fullCheck; laterCheck]
                  [(fullCheck, fullEntry); (laterCheck, fullEntry)] eq_refl)).
Defined.

(** ** [linkOSRExits] *)

Lemma exitSpeculativeWithOSR_block (X : Externals) (codeBlock : CodeBlock)
      (exit : OSRExit) (recovery : option SpeculationRecovery)
      (decodedCodeMap : list BytecodeAndMachineOffset) :
  binarySearch X decodedCodeMap (m_bytecodeIndex exit) <> None ->
  exists middle,
    exitSpeculativeWithOSR X codeBlock exit recovery decodedCodeMap =
    Some (Link (CheckJump (m_check exit)) :: middle ++ [jumpReg (regT1 X)]).
Proof.
  intros H. unfold exitSpeculativeWithOSR.
  destruct (osrRecovery X recovery) as [recoveryCode alreadyBoxed].
  destruct (binarySearch X decodedCodeMap (m_bytecodeIndex exit)) as [mapping|];
    [|contradiction].
  match goal with
  | |- context [[?a; jumpReg ?r]] => change [a; jumpReg r] with ([a] ++ [jumpReg r])
  end.
  rewrite !app_assoc. cbn [app]. eexists. reflexivity.
Qed.

(** X12: when the bytecode index of every exit is in the decoded code
    map, the code of [linkOSRExits] is one block per exit, in order; the
    block of an exit is the code [exitSpeculativeWithOSR] emits for it
    with the recovery of the exit's own [m_recoveryIndex]; it begins by
    binding that exit's jump and ends with the jump through [regT1]: no
    exit runs on into the code of the next. *)
Theorem osr_exits_are_closed_blocks (X : Externals) (codeBlock : CodeBlock)
        (speculationRecovery : nat -> option SpeculationRecovery)
        (decodedCodeMap : list BytecodeAndMachineOffset)
        (osrExits : list OSRExit) :
  (forall exit, In exit osrExits ->
                binarySearch X decodedCodeMap (m_bytecodeIndex exit) <> None) ->
  exists blocks,
    linkOSRExits X codeBlock speculationRecovery decodedCodeMap osrExits =
    Some (concat blocks) /\
    Forall2 (fun exit block =>
               exitSpeculativeWithOSR X codeBlock exit
                 (speculationRecovery (m_recoveryIndex exit)) decodedCodeMap
               = Some block /\
               exists middle,
                 block = Link (CheckJump (m_check exit))
                         :: middle ++ [jumpReg (regT1 X)])
            osrExits blocks.
Proof.
  unfold linkOSRExits.
  induction osrExits as [|exit rest IH]; intros Hall; simpl.
  - exists []. split; [reflexivity|constructor].
  - destruct (@exitSpeculativeWithOSR_block X codeBlock exit
                (speculationRecovery (m_recoveryIndex exit)) decodedCodeMap
                (Hall exit (or_introl eq_refl))) as (middle & E).
    destruct IH as (blocks & Er & Hb).
    { intros e He. apply Hall. right. exact He. }
    rewrite E, Er.
    exists ((Link (CheckJump (m_check exit)) :: middle ++ [jumpReg (regT1 X)])
            :: blocks).
    split; [reflexivity|].
    constructor; [split; [exact E|exists middle; reflexivity]|exact Hb].
Qed.

Lemma osr_exits_are_closed_blocks_witness :
  exists blocks,
    linkOSRExits X86_64.externals baselineBlock (fun _ => None) codeMap
                 [exitWithLastSet; poisonedExit] = Some (concat blocks) /\
    Forall2 (fun exit block =>
               exitSpeculativeWithOSR X86_64.externals baselineBlock exit None codeMap
               = Some block /\
               exists middle,
                 block = Link (CheckJump (m_check exit)) :: middle ++ [jumpReg 2%Z])
            [exitWithLastSet; poisonedExit] blocks.
Proof.
  refine (@osr_exits_are_closed_blocks X86_64.externals baselineBlock
            (fun _ => None) codeMap [exitWithLastSet; poisonedExit] _).
  intros exit [<-|[<-|[]]]; vm_compute; discriminate.
Defined.

(** * Further properties of the OSR exit emitter *)

(** ** The scratch buffer *)

Lemma cellsBelow_app (n : nat) (a b : list Instr) :
  cellsBelow n a -> cellsBelow n b -> cellsBelow n (a ++ b).
Proof.
  intros Ha Hb i k Hin. apply in_app_or in Hin.
  destruct Hin as [Hin|Hin]; [exact (Ha i k Hin)|exact (Hb i k Hin)].
Qed.

Lemma cellsBelow_mono (n m : nat) (code : list Instr) :
  n <= m -> cellsBelow n code -> cellsBelow m code.
Proof.
  intros Hle H i k Hin E. pose proof (H i k Hin E). lia.
Qed.

Lemma cellsBelow_none (n : nat) (code : list Instr) :
  (forall i, In i code -> scratchCellOf i = None) -> cellsBelow n code.
Proof.
  intros H i k Hin E. rewrite (H i Hin) in E. discriminate E.
Qed.

Lemma cellsBelow_snoc_cell (n : nat) (code : list Instr) (i : Instr) :
  cellsBelow n code -> scratchCellOf i = Some n -> cellsBelow (S n) (code ++ [i]).
Proof.
  intros H E. apply cellsBelow_app.
  - apply (@cellsBelow_mono n); [lia|exact H].
  - intros j k [<-|[]] Ej. rewrite E in Ej. injection Ej as <-. lia.
Qed.

Lemma cellsBelow_snoc_none (n : nat) (code : list Instr) (i : Instr) :
  cellsBelow n code -> scratchCellOf i = None -> cellsBelow n (code ++ [i]).
Proof.
  intros H E. apply cellsBelow_app; [exact H|].
  apply cellsBelow_none. intros j [<-|[]]. exact E.
Qed.

Lemma dumpGPRs_cells (X : Externals) (exit : OSRExit) (c : Classification)
      (e : Emit) :
  cellsBelow (snd e) (fst e) ->
  cellsBelow (snd (dumpGPRs X exit c e)) (fst (dumpGPRs X exit c e)).
Proof.
  intros H. unfold dumpGPRs.
  apply (@forIndices_invariant Emit (fun _ acc => cellsBelow (snd acc) (fst acc)));
    [exact H|].
  intros k acc _ Hacc. unfold dumpGPRStep.
  destruct (valueRecovery X exit k); try exact Hacc;
    (destruct (isPoisonedIndex X exit c k); unfold emitNext, emit; simpl;
     [apply cellsBelow_snoc_cell; [exact Hacc|reflexivity]
     |apply cellsBelow_snoc_none; [exact Hacc|reflexivity]]).
Qed.

Lemma dumpFPRs_cells (X : Externals) (exit : OSRExit) (c : Classification)
      (e : Emit) :
  cellsBelow (snd e) (fst e) ->
  cellsBelow (snd (dumpFPRs X exit c e)) (fst (dumpFPRs X exit c e)).
Proof.
  intros H. unfold dumpFPRs. destruct (haveFPRs c); [|exact H].
  apply (@forIndices_invariant Emit (fun _ acc => cellsBelow (snd acc) (fst acc))).
  - simpl. apply cellsBelow_app; [exact H|]. apply cellsBelow_none.
    intros i Hin. apply in_flat_map in Hin. destruct Hin as (index & _ & Hin).
    unfold boxDoubleStep in Hin.
    destruct (valueRecovery X exit index); try contradiction.
    destruct Hin as [<-|[]]. reflexivity.
  - intros k acc _ Hacc. unfold dumpFPRStep.
    destruct (valueRecovery X exit k); try exact Hacc.
    destruct (isPoisonedIndex X exit c k); unfold emitNext, emit; simpl;
      [apply cellsBelow_snoc_cell; [exact Hacc|reflexivity]
      |apply cellsBelow_snoc_none; [exact Hacc|reflexivity]].
Qed.

Lemma numbered_In (A : Type) (l : list A) :
  forall k p, In p (numbered k l) -> k <= fst p < k + length l.
Proof.
  induction l as [|x l IH]; intros k p Hin; [contradiction|].
  simpl in Hin. destruct Hin as [<-|Hin]; simpl; [lia|].
  pose proof (IH _ _ Hin). lia.
Qed.

Lemma reshuffleShape_cells (X : Externals) (exit : OSRExit) (scratchIndex : nat) :
  cellsBelow (scratchIndex +
              (if length (displacedRecoveries X exit) <=? GPRInfo_numberOfRegisters X
               then 0 else length (displacedRecoveries X exit)))
             (reshuffleShape X exit scratchIndex).
Proof.
  unfold reshuffleShape. cbv zeta.
  destruct (Nat.eqb (length (displacedRecoveries X exit)) 0);
    [apply cellsBelow_none; intros i []|].
  destruct (length (displacedRecoveries X exit) <=? GPRInfo_numberOfRegisters X).
  - apply cellsBelow_none. intros i Hin. apply in_app_or in Hin.
    destruct Hin as [Hin|Hin]; apply in_flat_map in Hin;
      destruct Hin as (p & _ & Hin); destruct Hin as [<-|[]]; reflexivity.
  - apply cellsBelow_app; intros i k Hin E; apply in_flat_map in Hin;
      destruct Hin as (p & Hp & Hin); apply numbered_In in Hp;
      destruct Hin as [<-|[<-|[]]]; simpl in E; try discriminate E;
      injection E as <-; lia.
Qed.

Lemma dumpPoisoned_cells (X : Externals) (exit : OSRExit) (c : Classification) :
  cellsBelow (length (filter (fun v => nth v (poisonedVirtualRegisters c) false)
                             (seq 0 (length (m_variables exit)))))
             (dumpPoisoned X exit c).
Proof.
  unfold dumpPoisoned.
  destruct (Nat.eqb (numberOfPoisonedVirtualRegisters c) 0);
    [apply cellsBelow_none; intros i []|].
  set (flagged := fun v => nth v (poisonedVirtualRegisters c) false).
  assert (H : let e := forIndices (length (m_variables exit))
                                  (dumpPoisonedStep X exit c) ([], 0) in
              cellsBelow (snd e) (fst e) /\
              snd e <= length (filter flagged (seq 0 (length (m_variables exit))))).
  { apply (@forIndices_invariant Emit
             (fun k acc => cellsBelow (snd acc) (fst acc) /\
                           snd acc <= length (filter flagged (seq 0 k)))).
    - split; [apply cellsBelow_none; intros i []|simpl; lia].
    - intros k acc _ [Hcells Hle]. rewrite seq_S, filter_app, length_app. simpl.
      unfold dumpPoisonedStep. fold (flagged k).
      destruct (flagged k); simpl; [|split; [exact Hcells|lia]].
      destruct (isInRegister (nth k (m_variables exit) DontKnow));
        [|split; [exact Hcells|lia]].
      unfold emit, emitNext. simpl. split; [|lia].
      apply cellsBelow_snoc_none; [|reflexivity].
      apply cellsBelow_snoc_cell; [exact Hcells|reflexivity]. }
  destruct H as [Hcells Hle]. exact (cellsBelow_mono Hle Hcells).
Qed.

(** X13: the code of an OSR exit reads and writes the scratch buffer only
    in cells below the size it has asked [osrScratchBufferForSize] for;
    the recoveries are those of the arguments followed by those of the
    variables, and displaced sources are non-negative. *)
Theorem osr_exit_stays_in_scratch_buffer (X : Externals) (codeBlock : CodeBlock)
        (exit : OSRExit) (recovery : option SpeculationRecovery)
        (decodedCodeMap : list BytecodeAndMachineOffset)
        (mapping : BytecodeAndMachineOffset) :
  variablesFollowArguments X exit ->
  displacedSourcesNonNegative X exit ->
  binarySearch X decodedCodeMap (m_bytecodeIndex exit) = Some mapping ->
  exists code,
    exitSpeculativeWithOSR X codeBlock exit recovery decodedCodeMap = Some code /\
    forall i k, In i code -> scratchCellOf i = Some k ->
                k < scratchBufferSlots X exit.
Proof.
  intros Hva Hnn Hfound.
  unfold exitSpeculativeWithOSR.
  destruct (osrRecovery X recovery) as [recoveryCode alreadyBoxed] eqn:Erec.
  rewrite Hfound. eexists. split; [reflexivity|].
  set (c := classify X exit).
  pose proof (@cursor_after_dumps X exit Hva Hnn) as Hcursor. fold c in Hcursor.
  set (slots := scratchBufferSlots X exit).
  assert (Hslots : slots = numberOfPoisonedVirtualRegisters c +
                           (if length (displacedRecoveries X exit)
                               <=? GPRInfo_numberOfRegisters X
                            then 0 else length (displacedRecoveries X exit))).
  { unfold slots, scratchBufferSlots. fold c.
    unfold c at 2 3. rewrite (@classify_numberOfDisplaced X exit),
      <- (@displacedRecoveries_length X exit). reflexivity. }
  change (cellsBelow slots
            ([Link (CheckJump (m_check exit))]
             ++ recoveryCode
             ++ reboxIntegers X exit c alreadyBoxed
             ++ fst (dumpFPRs X exit c (dumpGPRs X exit c ([], 0)))
             ++ reshuffleDisplaced X exit c
                  (snd (dumpFPRs X exit c (dumpGPRs X exit c ([], 0))))
             ++ dumpPoisoned X exit c
             ++ dumpConstants X exit c
             ++ [store32Imm (counterValueForOptimizeAfterWarmUp codeBlock)
                            addressOfExecuteCounter]
             ++ loadLastSetOperand X exit
             ++ [storePtrImm (alternative codeBlock)
                             (addressFor (RegisterFile_CodeBlock X))]
             ++ [moveImmPtr (jitCodeStart codeBlock + bm_machineCodeOffset mapping)%Z
                            (regT1 X);
                 jumpReg (regT1 X)])).
  repeat apply cellsBelow_app.
  - apply cellsBelow_none. intros i [<-|[]]. reflexivity.
  - apply cellsBelow_none. intros i Hin. unfold osrRecovery in Erec.
    destruct recovery as [r|]; [destruct (recovery_type r)|];
      injection Erec as <- _; simpl in Hin;
      repeat (destruct Hin as [<-|Hin]; [reflexivity|]); contradiction.
  - apply cellsBelow_none. intros i Hin. unfold reboxIntegers in Hin.
    destruct (haveUnboxedInt32s c); [|contradiction].
    apply in_flat_map in Hin. destruct Hin as (index & _ & Hin).
    unfold reboxStep in Hin.
    destruct (valueRecovery X exit index); try contradiction.
    destruct (negb _); [|contradiction]. destruct Hin as [<-|[]]. reflexivity.
  - apply (@cellsBelow_mono (numberOfPoisonedVirtualRegisters c)); [lia|].
    rewrite <- Hcursor. apply dumpFPRs_cells. apply dumpGPRs_cells.
    apply cellsBelow_none. intros i [].
  - rewrite Hcursor. unfold c. rewrite (@reshuffleDisplaced_shape X exit). fold c.
    rewrite Hslots. apply reshuffleShape_cells.
  - apply (@cellsBelow_mono (numberOfPoisonedVirtualRegisters c)); [lia|].
    destruct (@classify_poisoned X exit Hnn) as [Eflags Ecount]. fold c in Eflags, Ecount.
    rewrite Ecount.
    rewrite <- (filter_ext_in
                  (fun v => nth v (poisonedVirtualRegisters c) false)
                  (poisonedAfter X exit (numberOfRecoveries X exit))).
    + apply dumpPoisoned_cells.
    + intros v Hv. apply in_seq in Hv. rewrite Eflags.
      apply nth_map_seq. lia.
  - apply cellsBelow_none. intros i Hin. unfold dumpConstants in Hin.
    destruct (haveConstants c); [|contradiction].
    apply in_app_or in Hin. destruct Hin as [Hin|Hin].
    + destruct (haveUndefined c); [|contradiction].
      destruct Hin as [<-|[]]. reflexivity.
    + apply in_flat_map in Hin. destruct Hin as (index & _ & Hin).
      unfold dumpConstantStep in Hin.
      destruct (valueRecovery X exit index); try contradiction.
      destruct (isUndefined X constant); destruct Hin as [<-|[]]; reflexivity.
  - apply cellsBelow_none. intros i [<-|[]]. reflexivity.
  - apply cellsBelow_none. intros i Hin. unfold loadLastSetOperand in Hin.
    destruct (negb _); [|contradiction]. destruct Hin as [<-|[]]. reflexivity.
  - apply cellsBelow_none. intros i [<-|[]]. reflexivity.
  - apply cellsBelow_none. intros i [<-|[<-|[]]]; reflexivity.
Qed.

Lemma x86_64_poisonedExit_sources :
  displacedSourcesNonNegative X86_64.externals poisonedExit.
Proof.
  intros index vr Hlt.
  change (numberOfRecoveries X86_64.externals poisonedExit) with 5 in Hlt.
  do 5 (destruct index as [|index];
        [intros E; vm_compute in E;
         first [discriminate E | injection E as E; lia]|]).
  lia.
Qed.

Lemma osr_exit_stays_in_scratch_buffer_witness :
  exists code,
    exitSpeculativeWithOSR X86_64.externals baselineBlock poisonedExit None codeMap
    = Some code /\
    forall i k, In i code -> scratchCellOf i = Some k -> k < 2.
Proof.
  exact (@osr_exit_stays_in_scratch_buffer X86_64.externals baselineBlock
           poisonedExit None codeMap
           {| bm_bytecodeIndex := 3%Z; bm_machineCodeOffset := 64%Z |}
           (x86_64_variablesFollowArguments poisonedExit)
           x86_64_poisonedExit_sources eq_refl).
Defined.

(** X14: an OSR exit poisons at most as many variables as it has
    displaced recoveries, so that the scratch buffer it asks for has at
    most twice as many cells as there are displaced recoveries, and none
    when there is no displaced recovery. *)
Theorem osr_poisoned_at_most_displaced (X : Externals) (exit : OSRExit) :
  numberOfPoisonedVirtualRegisters (classify X exit)
    <= numberOfDisplacedVirtualRegisters (classify X exit) /\
  scratchBufferSlots X exit
    <= 2 * numberOfDisplacedVirtualRegisters (classify X exit).
Proof.
  assert (H : numberOfPoisonedVirtualRegisters (classify X exit)
              <= numberOfDisplacedVirtualRegisters (classify X exit)).
  { unfold classify.
    apply (@forIndices_invariant Classification
             (fun _ c => numberOfPoisonedVirtualRegisters c
                         <= numberOfDisplacedVirtualRegisters c)).
    - simpl. lia.
    - intros k c _ Hc. unfold classifyStep.
      destruct (valueRecovery X exit k); simpl; try exact Hc.
      destruct (virtualRegister <? Z.of_nat (length (m_variables exit)))%Z;
        simpl; [|lia].
      destruct (isInRegister (nth (Z.to_nat virtualRegister) (m_variables exit) DontKnow));
        simpl; [|lia].
      destruct (negb (nth (Z.to_nat virtualRegister) (poisonedVirtualRegisters c) false));
        simpl; lia. }
  split; [exact H|]. unfold scratchBufferSlots. cbv zeta.
  destruct (numberOfDisplacedVirtualRegisters (classify X exit)
              <=? GPRInfo_numberOfRegisters X); lia.
Qed.

(** * [wtf/PageBlock.cpp] *)

Lemma pageSizes_cached (allocators : list PageBlock.Allocator) (s_pageSize : Z) :
  s_pageSize <> 0%Z ->
  forall j, j < length allocators ->
            nth j (PageBlock.pageSizes allocators s_pageSize) 0%Z = s_pageSize.
Proof.
  intros Hs. induction allocators as [|a rest IH]; intros j Hj; [simpl in Hj; lia|].
  simpl. destruct (Z.eqb_spec s_pageSize 0) as [|_]; [contradiction|].
  destruct j as [|j]; [reflexivity|]. apply IH. simpl in Hj. lia.
Qed.

(** X15: once [pageSize()] has returned a value other than 0, every later
    call returns that value, whatever the allocator reports then: the
    system is asked only as long as the static holds 0. *)
Theorem pageSize_is_cached (allocators : list PageBlock.Allocator)
        (s_pageSize : Z) (i j : nat) :
  i <= j -> j < length allocators ->
  nth i (PageBlock.pageSizes allocators s_pageSize) 0%Z <> 0%Z ->
  nth j (PageBlock.pageSizes allocators s_pageSize) 0%Z =
  nth i (PageBlock.pageSizes allocators s_pageSize) 0%Z.
Proof.
  revert s_pageSize i j.
  induction allocators as [|a rest IH]; intros s i j Hij Hj Hi; [simpl in Hj; lia|].
  simpl in *.
  set (v := if Z.eqb s 0 then PageBlock.systemPageSize a else s) in *.
  destruct i as [|i].
  - destruct j as [|j]; [reflexivity|].
    apply pageSizes_cached; [exact Hi|lia].
  - destruct j as [|j]; [lia|]. apply IH; [lia|lia|exact Hi].
Qed.

Lemma pageSize_is_cached_witness :
  nth 2 (PageBlock.pageSizes
           [ {| PageBlock.SupportsOSMemoryManagement := true;
                PageBlock.SystemPageSize := 0%Z |};
             {| PageBlock.SupportsOSMemoryManagement := false;
                PageBlock.SystemPageSize := 0%Z |};
             {| PageBlock.SupportsOSMemoryManagement := true;
                PageBlock.SystemPageSize := 65536%Z |} ] 0%Z) 0%Z = 4096%Z.
Proof.
  refine (@pageSize_is_cached _ 0%Z 1 2 _ _ _); [lia|simpl; lia|discriminate].
Defined.

(** * [wtf/ThreadingPthreads.cpp] *)

Section ThreadMapProperties.

Import ThreadingPthreads.

Lemma after_snoc (calls : list Call) (c : Call) :
  after (calls ++ [c]) = call (after calls) c.
Proof. unfold after. rewrite fold_left_app. reflexivity. Qed.

Lemma length_add (m : ThreadMap) (id : ThreadIdentifier) (h : pthread_t) :
  length m <= length (add m id h).
Proof.
  unfold add. destruct (contains m id); [lia|]. rewrite length_app. simpl. lia.
Qed.

Lemma length_remove (m : ThreadMap) (id : ThreadIdentifier) :
  length (remove m id) <= length m.
Proof. unfold remove. apply filter_length_le. Qed.

(** X16: after any run of [establishIdentifierForPthreadHandle] and
    [clearPthreadHandleForIdentifier], [gNoWorkerThreadsRunning] is true
    exactly when the thread map holds at most one thread, so that
    [waitForAllThreadsCompletion] goes on sleeping exactly as long as it
    holds two or more. *)
Theorem worker_flag_tracks_thread_map (calls : list Call) :
  respectsTable calls = true ->
  gNoWorkerThreadsRunning (after calls) = (length (threadMap (after calls)) <=? 1).
Proof.
  intros _.
  induction calls as [|c calls IH] using rev_ind; [reflexivity|].
  rewrite after_snoc. set (s := after calls) in *.
  destruct c as [h|id]; simpl.
  - pose proof (length_add (threadMap s) (identifierCount s) h) as Hle.
    destruct (Nat.ltb_spec 1 (length (add (threadMap s) (identifierCount s) h))) as [H|H].
    + symmetry. apply Nat.leb_gt. exact H.
    + rewrite IH.
      replace (length (threadMap s) <=? 1) with true
        by (symmetry; apply Nat.leb_le; lia).
      symmetry. apply Nat.leb_le. exact H.
  - pose proof (length_remove (threadMap s) id) as Hle.
    destruct (Nat.leb_spec (length (remove (threadMap s) id)) 1) as [H|H];
      [reflexivity|].
    rewrite IH. apply Nat.leb_gt. lia.
Qed.

Lemma worker_flag_tracks_thread_map_witness :
  gNoWorkerThreadsRunning
    (after [Establish 700%Z; Establish 701%Z; Establish 702%Z; Clear 2%Z])
  = (length (threadMap
       (after [Establish 700%Z; Establish 701%Z; Establish 702%Z; Clear 2%Z])) <=? 1).
Proof.
  apply (@worker_flag_tracks_thread_map
           [Establish 700%Z; Establish 701%Z; Establish 702%Z; Clear 2%Z]).
  reflexivity.
Defined.

Lemma issued_snoc (calls : list Call) (c : Call) :
  issued (calls ++ [c]) = (issued calls + (if isEstablish c then 1 else 0))%Z.
Proof.
  unfold issued. rewrite filter_app, length_app. simpl.
  destruct (isEstablish c); simpl; lia.
Qed.

Lemma identifierCount_after (calls : list Call) :
  identifierCount (after calls) = wrap32 (issued calls + 1).
Proof.
  induction calls as [|c calls IH] using rev_ind; [reflexivity|].
  rewrite after_snoc, issued_snoc. destruct c as [h|id]; simpl.
  - rewrite IH. unfold wrap32. rewrite Zplus_mod_idemp_l. reflexivity.
  - rewrite IH, Z.add_0_r. reflexivity.
Qed.

Lemma respectsTable_snoc (calls : list Call) (c : Call) :
  respectsTable (calls ++ [c]) = true ->
  (issued calls + (if isEstablish c then 1 else 0) < 2 ^ 32 - 1)%Z /\
  clearsKey c = true.
Proof.
  unfold respectsTable. rewrite issued_snoc, forallb_app. simpl.
  intros H. apply andb_prop in H. destruct H as [Hn Hc].
  apply Z.ltb_lt in Hn. apply andb_prop in Hc. destruct Hc as [_ Hc].
  rewrite andb_true_r in Hc. split; assumption.
Qed.

Lemma get_remove (m : ThreadMap) (id id' : ThreadIdentifier) :
  get (remove m id) id' = if Z.eqb id' id then 0%Z else get m id'.
Proof.
  induction m as [|[k v] m IH]; simpl; [destruct (Z.eqb id' id); reflexivity|].
  destruct (Z.eqb_spec k id) as [Hk|Hk]; simpl; rewrite IH;
    destruct (Z.eqb_spec id' id) as [Hi|Hi];
    destruct (Z.eqb_spec k id') as [Hk'|Hk'];
    try reflexivity; congruence.
Qed.

(** X17: after [clearPthreadHandleForIdentifier(id)] the handle of [id] is
    the empty value 0 and the handle of every other identifier is what it
    was; [waitForThreadCompletion(id)] then returns 0 without joining, and
    [detachThread(id)] detaches nothing. *)
Theorem cleared_thread_is_forgotten (calls : list Call) (id id' : ThreadIdentifier)
        (joinResult : pthread_t -> Z) :
  respectsTable (calls ++ [Clear id]) = true ->
  isKey id' = true ->
  pthreadHandleForIdentifier (after (calls ++ [Clear id])) id' =
    (if Z.eqb id' id then 0%Z else pthreadHandleForIdentifier (after calls) id') /\
  waitForThreadCompletion (after (calls ++ [Clear id])) id joinResult = (0%Z, []) /\
  detachThread (after (calls ++ [Clear id])) id = [].
Proof.
  intros _ _. rewrite after_snoc.
  unfold waitForThreadCompletion, detachThread, pthreadHandleForIdentifier. simpl.
  rewrite !get_remove, Z.eqb_refl. simpl. repeat split.
Qed.

Lemma cleared_thread_is_forgotten_witness :
  waitForThreadCompletion
    (after ([Establish 700%Z; Establish 701%Z] ++ [Clear 2%Z])) 2%Z (fun _ => 35%Z)
  = (0%Z, []).
Proof.
  refine (proj1 (proj2 (@cleared_thread_is_forgotten
                          [Establish 700%Z; Establish 701%Z] 2%Z 1%Z (fun _ => 35%Z) _ _)));
    reflexivity.
Defined.

(** The thread map of a program that has issued fewer than [2^32]
    identifiers: its keys are issued identifiers, each once. *)
Lemma threadMap_keys (calls : list Call) :
  (issued calls < 2 ^ 32)%Z ->
  NoDup (map fst (threadMap (after calls))) /\
  forall e, In e (threadMap (after calls)) -> (1 <= fst e <= issued calls)%Z.
Proof.
  induction calls as [|c calls IH] using rev_ind; intros Hn.
  - split; [constructor|intros e []].
  - rewrite after_snoc. rewrite issued_snoc in *.
    assert (Hpos : (0 <= issued calls)%Z) by (unfold issued; lia).
    destruct IH as [Hnd Hkeys]; [destruct (isEstablish c); lia|].
    destruct c as [h|id]; cbn [isEstablish] in Hn |- *; simpl.
    + assert (Ec : identifierCount (after calls) = (issued calls + 1)%Z).
      { rewrite identifierCount_after. unfold wrap32. apply Z.mod_small. lia. }
      rewrite Ec. unfold add.
      assert (Hfresh : ~ In (issued calls + 1)%Z (map fst (threadMap (after calls)))).
      { intros Hin. apply in_map_iff in Hin. destruct Hin as (e & Ee & He).
        pose proof (Hkeys e He). lia. }
      destruct (contains (threadMap (after calls)) (issued calls + 1)%Z) eqn:Econ.
      * exfalso. apply Hfresh. unfold contains in Econ.
        apply existsb_exists in Econ. destruct Econ as (e & He & Ee).
        apply Z.eqb_eq in Ee. apply in_map_iff. exists e. split; assumption.
      * split.
        -- rewrite map_app. simpl. apply NoDup_app; [exact Hnd| |].
           ++ constructor; [intros []|constructor].
           ++ intros a Ha [<-|[]]. exact (Hfresh Ha).
        -- intros e He. apply in_app_or in He. destruct He as [He|[<-|[]]].
           ++ pose proof (Hkeys e He). lia.
           ++ simpl. lia.
    + split.
      * unfold remove. clear -Hnd. induction (threadMap (after calls)) as [|e m IHm];
          [constructor|].
        simpl in *. apply NoDup_cons_iff in Hnd. destruct Hnd as [Hne Hnd].
        match goal with |- context [negb ?b] => destruct (negb b) end;
          [|exact (IHm Hnd)].
        simpl. constructor; [|exact (IHm Hnd)].
        intros Hin. apply Hne. apply in_map_iff in Hin.
        destruct Hin as (x & Ex & Hx). apply filter_In in Hx.
        apply in_map_iff. exists x. split; [exact Ex|exact (proj1 Hx)].
      * intros e He. unfold remove in He. apply filter_In in He.
        pose proof (Hkeys e (proj1 He)). lia.
Qed.

Lemma get_app_fresh (m : ThreadMap) (id : ThreadIdentifier) (h : pthread_t)
      (id' : ThreadIdentifier) :
  ~ In id (map fst m) ->
  get (m ++ [(id, h)]) id' = if Z.eqb id' id then h else get m id'.
Proof.
  induction m as [|[k v] m IH]; simpl; intros Hfresh.
  - rewrite (Z.eqb_sym id id'). reflexivity.
  - destruct (Z.eqb_spec k id') as [E|_]; [|apply IH; tauto].
    destruct (Z.eqb_spec id' id) as [E'|_]; [|reflexivity].
    exfalso. apply Hfresh. left. congruence.
Qed.

Lemma get_In (m : ThreadMap) (e : ThreadIdentifier * pthread_t) :
  NoDup (map fst m) -> In e m -> get m (fst e) = snd e.
Proof.
  induction m as [|x m IH]; simpl; intros Hnd Hin; [contradiction|].
  apply NoDup_cons_iff in Hnd. destruct Hnd as [Hx Hnd].
  destruct Hin as [->|Hin]; [rewrite Z.eqb_refl; reflexivity|].
  destruct (Z.eqb_spec (fst x) (fst e)) as [E|_]; [|exact (IH Hnd Hin)].
  exfalso. apply Hx. rewrite E. apply in_map. exact Hin.
Qed.

Lemma threadMap_after_establish (calls : list Call) (h : pthread_t) :
  (issued calls + 1 < 2 ^ 32)%Z ->
  fst (establishIdentifierForPthreadHandle (after calls) h) = (issued calls + 1)%Z /\
  threadMap (snd (establishIdentifierForPthreadHandle (after calls) h)) =
    threadMap (after calls) ++ [((issued calls + 1)%Z, h)] /\
  ~ In (issued calls + 1)%Z (map fst (threadMap (after calls))).
Proof.
  intros Hn.
  assert (Hpos : (0 <= issued calls)%Z) by (unfold issued; lia).
  destruct (@threadMap_keys calls ltac:(lia)) as [_ Hkeys].
  assert (Ec : identifierCount (after calls) = (issued calls + 1)%Z).
  { rewrite identifierCount_after. unfold wrap32. apply Z.mod_small. lia. }
  assert (Hfresh : ~ In (issued calls + 1)%Z (map fst (threadMap (after calls)))).
  { intros Hin. apply in_map_iff in Hin. destruct Hin as (e & Ee & He).
    pose proof (Hkeys e He). lia. }
  split; [exact Ec|]. split; [|exact Hfresh].
  simpl. rewrite Ec. unfold add.
  destruct (contains (threadMap (after calls)) (issued calls + 1)%Z) eqn:Econ;
    [|reflexivity].
  exfalso. apply Hfresh. unfold contains in Econ.
  apply existsb_exists in Econ. destruct Econ as (e & He & Ee).
  apply Z.eqb_eq in Ee. apply in_map_iff. exists e. split; assumption.
Qed.

(** X18: identifiers are issued in order from 1 and each is new: the
    identifier [establishIdentifierForPthreadHandle] returns after [n]
    have been issued is [n + 1], it is a key the table can hold, no thread
    of the map has it, and the map holds each identifier once. *)
Theorem identifiers_are_issued_in_order (calls : list Call) (pthreadHandle : pthread_t) :
  respectsTable (calls ++ [Establish pthreadHandle]) = true ->
  fst (establishIdentifierForPthreadHandle (after calls) pthreadHandle) =
    (issued calls + 1)%Z /\
  isKey (fst (establishIdentifierForPthreadHandle (after calls) pthreadHandle)) = true /\
  contains (threadMap (after calls))
    (fst (establishIdentifierForPthreadHandle (after calls) pthreadHandle)) = false /\
  NoDup (map fst (threadMap
    (snd (establishIdentifierForPthreadHandle (after calls) pthreadHandle)))).
Proof.
  intros H. pose proof (respectsTable_snoc _ _ H) as [Hn _]. cbn [isEstablish] in Hn.
  assert (Hpos : (0 <= issued calls)%Z) by (unfold issued; lia).
  destruct (@threadMap_after_establish calls pthreadHandle ltac:(lia))
    as (Eid & _ & Hfresh).
  destruct (@threadMap_keys (calls ++ [Establish pthreadHandle])) as [Hnd _].
  { rewrite issued_snoc. simpl. lia. }
  rewrite after_snoc in Hnd. cbn [call] in Hnd.
  rewrite Eid. split; [reflexivity|]. split; [|split; [|exact Hnd]].
  - unfold isKey. apply andb_true_intro. split; [apply Z.ltb_lt|apply Z.ltb_lt]; lia.
  - destruct (contains (threadMap (after calls)) (issued calls + 1)%Z) eqn:Econ;
      [|reflexivity].
    exfalso. apply Hfresh. unfold contains in Econ.
    apply existsb_exists in Econ. destruct Econ as (e & He & Ee).
    apply Z.eqb_eq in Ee. apply in_map_iff. exists e. split; assumption.
Qed.

Lemma identifiers_are_issued_in_order_witness :
  fst (establishIdentifierForPthreadHandle
         (after [Establish 700%Z; Clear 1%Z; Establish 701%Z]) 702%Z)
  = (issued [Establish 700%Z; Clear 1%Z; Establish 701%Z] + 1)%Z.
Proof.
  refine (proj1 (@identifiers_are_issued_in_order
                   [Establish 700%Z; Clear 1%Z; Establish 701%Z] 702%Z _)).
  reflexivity.
Defined.

(** X19: the identifier [establishIdentifierForPthreadHandle] returns
    leads back to the handle it was given and the handle of every other
    identifier is what it was; [identifierByPthreadHandle] of that handle
    is then an identifier other than 0 whose handle it is. *)
Theorem established_thread_is_found (calls : list Call) (pthreadHandle : pthread_t) :
  respectsTable (calls ++ [Establish pthreadHandle]) = true ->
  (forall id, isKey id = true ->
     pthreadHandleForIdentifier (after (calls ++ [Establish pthreadHandle])) id =
       if Z.eqb id (fst (establishIdentifierForPthreadHandle (after calls) pthreadHandle))
       then pthreadHandle
       else pthreadHandleForIdentifier (after calls) id) /\
  identifierByPthreadHandle (after (calls ++ [Establish pthreadHandle])) pthreadHandle
    <> 0%Z /\
  pthreadHandleForIdentifier (after (calls ++ [Establish pthreadHandle]))
    (identifierByPthreadHandle (after (calls ++ [Establish pthreadHandle])) pthreadHandle)
  = pthreadHandle.
Proof.
  intros H. pose proof (respectsTable_snoc _ _ H) as [Hn _]. cbn [isEstablish] in Hn.
  assert (Hpos : (0 <= issued calls)%Z) by (unfold issued; lia).
  destruct (@threadMap_after_establish calls pthreadHandle ltac:(lia))
    as (Eid & Emap & Hfresh).
  destruct (@threadMap_keys (calls ++ [Establish pthreadHandle])) as [Hnd Hkeys].
  { rewrite issued_snoc. simpl. lia. }
  rewrite after_snoc in *. cbn [call] in *.
  set (s' := snd (establishIdentifierForPthreadHandle (after calls) pthreadHandle)) in *.
  unfold pthreadHandleForIdentifier, identifierByPthreadHandle.
  rewrite Eid. split.
  - intros id _. rewrite Emap. apply get_app_fresh. exact Hfresh.
  - destruct (find (fun e => Z.eqb (snd e) pthreadHandle) (threadMap s')) as [e|] eqn:Ef.
    + apply find_some in Ef. destruct Ef as [He Ee]. apply Z.eqb_eq in Ee.
      split; [pose proof (Hkeys e He); unfold ThreadIdentifier, pthread_t in *; lia|].
      etransitivity; [exact (@get_In _ e Hnd He)|exact Ee].
    + exfalso.
      assert (Hin : In ((issued calls + 1)%Z, pthreadHandle) (threadMap s')).
      { rewrite Emap. apply in_or_app. right. left. reflexivity. }
      pose proof (find_none _ _ Ef _ Hin) as Hbad. simpl in Hbad.
      rewrite Z.eqb_refl in Hbad. discriminate Hbad.
Qed.

Lemma established_thread_is_found_witness :
  pthreadHandleForIdentifier
    (after ([Establish 700%Z; Establish 701%Z; Clear 1%Z] ++ [Establish 702%Z]))
    (identifierByPthreadHandle
       (after ([Establish 700%Z; Establish 701%Z; Clear 1%Z] ++ [Establish 702%Z]))
       702%Z)
  = 702%Z.
Proof.
  refine (proj2 (proj2 (@established_thread_is_found
                   [Establish 700%Z; Establish 701%Z; Clear 1%Z] 702%Z _))).
  reflexivity.
Defined.

(** X20: the first [currentThread()] of a thread that has no identifier
    yet registers its handle under a new identifier other than 0 and keeps
    that identifier for the thread; the next [currentThread()] returns the
    same identifier and registers nothing. *)
Theorem currentThread_registers_once (calls : list Call) (self : pthread_t) :
  respectsTable (calls ++ [Establish self]) = true ->
  let first := currentThread self 0%Z (after calls) in
  fst (fst first) <> 0%Z /\
  snd (fst first) = fst (fst first) /\
  pthreadHandleForIdentifier (snd first) (fst (fst first)) = self /\
  currentThread self (snd (fst first)) (snd first) = first.
Proof.
  intros H first. pose proof (respectsTable_snoc _ _ H) as [Hn _].
  cbn [isEstablish] in Hn.
  assert (Hpos : (0 <= issued calls)%Z) by (unfold issued; lia).
  destruct (@threadMap_after_establish calls self ltac:(lia)) as (Eid & Emap & Hfresh).
  unfold first, currentThread. simpl negb. cbv iota.
  destruct (establishIdentifierForPthreadHandle (after calls) self) as [id s'] eqn:E.
  cbn [fst snd] in *. subst id.
  split; [lia|]. split; [reflexivity|]. split.
  - unfold pthreadHandleForIdentifier. rewrite Emap.
    rewrite get_app_fresh by exact Hfresh. rewrite Z.eqb_refl. reflexivity.
  - assert (Ec : identifierCount (after calls) = (issued calls + 1)%Z).
    { pose proof (f_equal fst E) as Ec. exact Ec. }
    rewrite Ec. destruct (Z.eqb_spec (issued calls + 1) 0); [lia|]. reflexivity.
Qed.

Lemma currentThread_registers_once_witness :
  currentThread 702%Z
    (snd (fst (currentThread 702%Z 0%Z
                 (after [Establish 700%Z; Establish 701%Z; Clear 1%Z]))))
    (snd (currentThread 702%Z 0%Z (after [Establish 700%Z; Establish 701%Z; Clear 1%Z])))
  = currentThread 702%Z 0%Z (after [Establish 700%Z; Establish 701%Z; Clear 1%Z]).
Proof.
  refine (proj2 (proj2 (proj2 (@currentThread_registers_once
                   [Establish 700%Z; Establish 701%Z; Clear 1%Z] 702%Z _)))).
  reflexivity.
Defined.

End ThreadMapProperties.

(** * The sampling flags *)

(** X21: for a sampling flag between 1 and 32, the code of
    [setSamplingFlag] sets bit [flag - 1] of the 32-bit word of flags and
    the code of [clearSamplingFlag] clears it, and neither changes another
    bit of the word; so clearing a flag after setting it leaves it off,
    whatever the word was. *)
Theorem sampling_flag_touches_one_bit (flag flags n : Z) :
  (1 <= flag <= 32)%Z -> (0 <= n < 32)%Z ->
  Z.testbit (SamplingFlags.setSamplingFlag flag flags) n
    = (Z.eqb n (flag - 1) || Z.testbit flags n)%bool /\
  Z.testbit (SamplingFlags.clearSamplingFlag flag flags) n
    = (negb (Z.eqb n (flag - 1)) && Z.testbit flags n)%bool /\
  Z.testbit (SamplingFlags.clearSamplingFlag flag
               (SamplingFlags.setSamplingFlag flag flags)) (flag - 1) = false.
Proof.
  intros Hflag Hn.
  assert (Hset : forall k, (0 <= k < 32)%Z ->
            Z.testbit (SamplingFlags.setImmediate flag) k = Z.eqb k (flag - 1)).
  { intros k Hk. unfold SamplingFlags.setImmediate.
    rewrite Z.mod_pow2_bits_low by lia.
    rewrite Z.shiftl_1_l. rewrite Z.pow2_bits_eqb by lia. apply Z.eqb_sym. }
  assert (Hclear : forall k, (0 <= k < 32)%Z ->
            Z.testbit (SamplingFlags.clearImmediate flag) k = negb (Z.eqb k (flag - 1))).
  { intros k Hk. unfold SamplingFlags.clearImmediate.
    rewrite Z.mod_pow2_bits_low by lia. rewrite Z.lnot_spec by lia.
    rewrite Hset by lia. reflexivity. }
  unfold SamplingFlags.clearSamplingFlag, SamplingFlags.setSamplingFlag.
  rewrite !Z.land_spec, !Z.lor_spec, Hset, Hclear by lia.
  rewrite (Hclear (flag - 1)%Z) by lia. rewrite Z.eqb_refl.
  split; [apply orb_comm|]. split; [apply andb_comm|]. apply andb_false_r.
Qed.

Lemma sampling_flag_touches_one_bit_witness :
  Z.testbit (SamplingFlags.clearSamplingFlag 3
               (SamplingFlags.setSamplingFlag 3 10)) (3 - 1) = false.
Proof.
  refine (proj2 (proj2 (@sampling_flag_touches_one_bit 3 10 2 _ _))); lia.
Defined.
